(** * ngx-storage: storage-backed reactive property bindings

    A shallow embedding of [src/app/storage/storage.ts] and of the
    converter and the subscriber used by
    [src/app/storage/storage.spec.ts], together with the parts of the
    platform the code relies on:

    - JavaScript values, [JSON.stringify] and [JSON.parse];
    - the Web Storage objects [localStorage] and [sessionStorage];
    - the RxJS [BehaviorSubject] (RxJS 7, the version Angular 18 ships).

    Numbers are modelled on the integers that a double holds exactly
    (the safe integers) and strings on code units below 256. A JSON
    text or a value that falls outside the model is answered with
    [Unmodelled] rather than given a made-up meaning. Storage calls are
    taken to succeed. *)

From Stdlib Require Import ZArith Ascii String List Lia DecimalFacts DecimalPos DecimalN.
From stdpp Require Import base option list functions gmap strings.

Local Open Scope Z_scope.

(** ** Characters and text *)

Definition text := list ascii.

Definition dquote : ascii := "034"%char.
Definition backslash : ascii := "\"%char.

Definition str (s : string) : text := list_ascii_of_string s.
Definition of_text (t : text) : string := string_of_list_ascii t.

Definition code (c : ascii) : N := N_of_ascii c.

Definition is_digit (c : ascii) : bool :=
  ((48 <=? code c) && (code c <=? 57))%N.

Definition is_ws (c : ascii) : bool :=
  ((code c =? 32) || (code c =? 9) || (code c =? 10) || (code c =? 13))%N.

(** ** Outcomes of a computation

    [Throw] is a JavaScript exception, [OutOfFuel] an evaluation that did
    not finish within the allowed nesting of re-entrant calls, and
    [Unmodelled] a value or behaviour outside this model. *)

Inductive Error :=
| Error_ (message : string)
| SyntaxError
| TypeError (message : string).

Inductive outcome (A : Type) :=
| Ok (a : A)
| Throw (e : Error)
| OutOfFuel
| Unmodelled.
Arguments Ok {A} a.
Arguments Throw {A} e.
Arguments OutOfFuel {A}.
Arguments Unmodelled {A}.

Definition obind {A B} (x : outcome A) (k : A -> outcome B) : outcome B :=
  match x with
  | Ok a => k a
  | Throw e => Throw e
  | OutOfFuel => OutOfFuel
  | Unmodelled => Unmodelled
  end.

#[export] Instance outcome_ret : MRet outcome := @Ok.
#[export] Instance outcome_bind : MBind outcome := fun A B k x => obind x k.

(** ** JavaScript values *)

Inductive number :=
| NaN
| Int (z : Z).

Unset Elimination Schemes.
Inductive value :=
| VUndefined
| VNull
| VBool (b : bool)
| VNum (n : number)
| VStr (s : string)
| VDate (t : option Z)          (* time value in ms; [None] is an Invalid Date *)
| VArr (elements : list value)
| VObj (members : list (string * value)).  (* own properties, in enumeration order *)
Set Elimination Schemes.

(** [value == null] *)
Definition nullish (v : value) : bool :=
  match v with
  | VUndefined | VNull => true
  | _ => false
  end.

Definition MAX_SAFE_INTEGER : Z := 9007199254740991.
Definition MAX_TIME : Z := 8640000000000000.

Definition safe (z : Z) : bool := (- MAX_SAFE_INTEGER <=? z) && (z <=? MAX_SAFE_INTEGER).

(** ** Decimal numerals *)

Definition digit_char (d : N) : ascii := ascii_of_N (48 + d).

Fixpoint uint_text (d : Decimal.uint) : text :=
  match d with
  | Decimal.Nil => []
  | Decimal.D0 d => digit_char 0 :: uint_text d
  | Decimal.D1 d => digit_char 1 :: uint_text d
  | Decimal.D2 d => digit_char 2 :: uint_text d
  | Decimal.D3 d => digit_char 3 :: uint_text d
  | Decimal.D4 d => digit_char 4 :: uint_text d
  | Decimal.D5 d => digit_char 5 :: uint_text d
  | Decimal.D6 d => digit_char 6 :: uint_text d
  | Decimal.D7 d => digit_char 7 :: uint_text d
  | Decimal.D8 d => digit_char 8 :: uint_text d
  | Decimal.D9 d => digit_char 9 :: uint_text d
  end.

Definition N_text (n : N) : text := uint_text (N.to_uint n).

(** Number::toString on an integer *)
Definition Z_text (z : Z) : text :=
  if z <? 0 then "-"%char :: N_text (Z.to_N (- z)) else N_text (Z.to_N z).

Definition pad (width : nat) (t : text) : text :=
  repeat (digit_char 0) (width - length t) ++ t.

(** ** Date.prototype.toISOString *)

Definition msPerDay : Z := 86400000.

(** Civil date of a day number counted from 1970-01-01 (proleptic
    Gregorian calendar). *)
Definition civil_from_days (days : Z) : Z * Z * Z :=
  let z := days + 719468 in
  let era := z / 146097 in
  let doe := z - era * 146097 in
  let yoe := (doe - doe / 1460 + doe / 36524 - doe / 146096) / 365 in
  let y := yoe + era * 400 in
  let doy := doe - (365 * yoe + yoe / 4 - yoe / 100) in
  let mp := (5 * doy + 2) / 153 in
  let d := doy - (153 * mp + 2) / 5 + 1 in
  let m := if mp <? 10 then mp + 3 else mp - 9 in
  (if m <=? 2 then y + 1 else y, m, d).

Definition year_text (y : Z) : text :=
  if (0 <=? y) && (y <=? 9999) then pad 4 (Z_text y)
  else (if y <? 0 then "-"%char else "+"%char) :: pad 6 (N_text (Z.abs_N y)).

Definition toISOString (t : Z) : text :=
  let days := t / msPerDay in
  let ms := t mod msPerDay in
  let '(y, m, d) := civil_from_days days in
  year_text y ++ "-"%char :: pad 2 (Z_text m) ++ "-"%char :: pad 2 (Z_text d)
    ++ "T"%char :: pad 2 (Z_text (ms / 3600000))
    ++ ":"%char :: pad 2 (Z_text (ms / 60000 mod 60))
    ++ ":"%char :: pad 2 (Z_text (ms / 1000 mod 60))
    ++ "."%char :: pad 3 (Z_text (ms mod 1000)) ++ ["Z"%char].

(** ** JSON.stringify *)

Definition hex_char (d : N) : ascii :=
  if (d <? 10)%N then ascii_of_N (48 + d) else ascii_of_N (87 + d).

(** QuoteJSONString, one code unit *)
Definition escape (c : ascii) : text :=
  if (code c =? 34)%N then [backslash; dquote]
  else if (code c =? 92)%N then [backslash; backslash]
  else if (code c =? 8)%N then [backslash; "b"%char]
  else if (code c =? 12)%N then [backslash; "f"%char]
  else if (code c =? 10)%N then [backslash; "n"%char]
  else if (code c =? 13)%N then [backslash; "r"%char]
  else if (code c =? 9)%N then [backslash; "t"%char]
  else if (code c <? 32)%N then
    [backslash; "u"%char; "0"%char; "0"%char; hex_char (code c / 16); hex_char (code c mod 16)]
  else [c].

Definition quote (s : string) : text :=
  dquote :: concat (map escape (str s)) ++ [dquote].

Definition join_comma (parts : list text) : text :=
  match parts with
  | [] => []
  | p :: ps => p ++ concat (map (fun q => ","%char :: q) ps)
  end.

Definition null_text : text := str "null".

(** SerializeJSONProperty: [None] stands for the result [undefined]. *)
Fixpoint serialize (v : value) : option text :=
  match v with
  | VUndefined => None
  | VNull => Some null_text
  | VBool true => Some (str "true")
  | VBool false => Some (str "false")
  | VNum NaN => Some null_text
  | VNum (Int z) => Some (Z_text z)
  | VStr s => Some (quote s)
  | VDate None => Some null_text                         (* toJSON of an Invalid Date *)
  | VDate (Some t) => Some (dquote :: toISOString t ++ [dquote])
  | VArr elements =>
      let element v := match serialize v with Some t => t | None => null_text end in
      Some ("["%char :: join_comma (map element elements) ++ ["]"%char])
  | VObj members =>
      let member (kv : string * value) :=
        match serialize kv.2 with
        | Some t => [quote kv.1 ++ ":"%char :: t]
        | None => []
        end in
      Some ("{"%char :: join_comma (concat (map member members)) ++ ["}"%char])
  end.

Definition stringify (v : value) : option string := of_text <$> serialize v.

(** ToString of the argument of [setItem]: [undefined] becomes a string. *)
Definition ToString (s : option string) : string := default "undefined" s.

(** ** JSON.parse *)

Fixpoint skip_ws (t : text) : text :=
  match t with
  | c :: r => if is_ws c then skip_ws r else t
  | [] => []
  end.

(** [expect p t]: the text after the prefix [p] of [t]. *)
Fixpoint expect (p t : text) : option text :=
  match p, t with
  | [], _ => Some t
  | a :: p, c :: t => if Ascii.eqb a c then expect p t else None
  | _ :: _, [] => None
  end.

Definition cons_digit (c : ascii) (d : Decimal.uint) : Decimal.uint :=
  match code c with
  | 48 => Decimal.D0 d | 49 => Decimal.D1 d | 50 => Decimal.D2 d
  | 51 => Decimal.D3 d | 52 => Decimal.D4 d | 53 => Decimal.D5 d
  | 54 => Decimal.D6 d | 55 => Decimal.D7 d | 56 => Decimal.D8 d
  | _ => Decimal.D9 d
  end%N.

(** The longest run of decimal digits at the head of a text. *)
Fixpoint take_digits (t : text) : Decimal.uint * text :=
  match t with
  | c :: r =>
      if is_digit c then let '(d, rest) := take_digits r in (cons_digit c d, rest)
      else (Decimal.Nil, t)
  | [] => (Decimal.Nil, [])
  end.

Definition leading_zero (d : Decimal.uint) : bool :=
  match d with
  | Decimal.D0 Decimal.Nil => false
  | Decimal.D0 _ => true
  | _ => false
  end.

(** The integer [m * 10 ^ e], when it is one. *)
Definition scale (m e : Z) : option Z :=
  if 0 <=? e then Some (m * 10 ^ e)
  else if m mod 10 ^ (- e) =? 0 then Some (m / 10 ^ (- e))
  else None.

Definition no_digits (d : Decimal.uint) : bool :=
  match d with
  | Decimal.Nil => true
  | _ => false
  end.

(** [frac]: a point and at least one digit, or nothing. *)
Definition parse_fraction (t : text) : outcome (Decimal.uint * text) :=
  match t with
  | c :: r =>
      if Ascii.eqb c "." then
        let '(frac, t') := take_digits r in
        if no_digits frac then Throw SyntaxError else Ok (frac, t')
      else Ok (Decimal.Nil, t)
  | [] => Ok (Decimal.Nil, t)
  end.

(** [exp]: [e] or [E], an optional sign and at least one digit, or
    nothing. *)
Definition parse_exponent (t : text) : outcome (Z * text) :=
  match t with
  | c :: r =>
      if Ascii.eqb c "e" || Ascii.eqb c "E" then
        let '(minus, r) :=
          match r with
          | s :: r' =>
              if Ascii.eqb s "-" then (true, r')
              else if Ascii.eqb s "+" then (false, r')
              else (false, r)
          | [] => (false, r)
          end in
        let '(digits, t') := take_digits r in
        if no_digits digits then Throw SyntaxError
        else Ok (if minus : bool then - Z.of_N (N.of_uint digits)
                 else Z.of_N (N.of_uint digits), t')
      else Ok (0, t)
  | [] => Ok (0, t)
  end.

(** A JSON number after its sign: [int frac? exp?]. Its value is kept
    when it is a safe integer; other numbers are outside the model. *)
Definition parse_magnitude (negative : bool) (t : text) : outcome (value * text) :=
  let '(int, t) := take_digits t in
  if no_digits int || leading_zero int then Throw SyntaxError else
  '(frac, t) ← parse_fraction t;
  '(exp, t) ← parse_exponent t;
  let mantissa := Z.of_N (N.of_uint (Decimal.app int frac)) in
  match scale mantissa (exp - Z.of_nat (Decimal.nb_digits frac)) with
  | Some z =>
      if negative && (z =? 0) then Unmodelled           (* negative zero *)
      else if safe z then Ok (VNum (Int (if negative then - z else z)), t)
      else Unmodelled
  | None => Unmodelled
  end.

Definition parse_number (t : text) : outcome (value * text) :=
  match t with
  | c :: r => if Ascii.eqb c "-" then parse_magnitude true r else parse_magnitude false t
  | [] => parse_magnitude false t
  end.

Definition hex_val (c : ascii) : option N :=
  let n := code c in
  if ((48 <=? n) && (n <=? 57))%N then Some (n - 48)%N
  else if ((97 <=? n) && (n <=? 102))%N then Some (n - 87)%N
  else if ((65 <=? n) && (n <=? 70))%N then Some (n - 55)%N
  else None.

(** The characters of a JSON string, after its opening quote. A code
    unit above 255 does not fit the strings of this model. *)
Fixpoint parse_chars (t : text) : outcome (text * text) :=
  match t with
  | [] => Throw SyntaxError
  | c :: r =>
      if Ascii.eqb c dquote then Ok ([], r)
      else if Ascii.eqb c backslash then
        match r with
        | [] => Throw SyntaxError
        | e :: r =>
            let continue (c : ascii) (r : text) :=
              '(s, rest) ← parse_chars r; Ok (c :: s, rest) in
            if Ascii.eqb e dquote then continue dquote r
            else if Ascii.eqb e backslash then continue backslash r
            else if Ascii.eqb e "/" then continue "/"%char r
            else if Ascii.eqb e "b" then continue "008"%char r
            else if Ascii.eqb e "f" then continue "012"%char r
            else if Ascii.eqb e "n" then continue "010"%char r
            else if Ascii.eqb e "r" then continue "013"%char r
            else if Ascii.eqb e "t" then continue "009"%char r
            else if Ascii.eqb e "u" then
              match r with
              | h1 :: h2 :: h3 :: h4 :: r =>
                  match hex_val h1, hex_val h2, hex_val h3, hex_val h4 with
                  | Some a, Some b, Some c, Some d =>
                      if ((a =? 0) && (b =? 0))%N
                      then continue (ascii_of_N (16 * c + d)) r
                      else Unmodelled
                  | _, _, _, _ => Throw SyntaxError
                  end
              | _ => Throw SyntaxError
              end
            else Throw SyntaxError
        end
      else if (code c <? 32)%N then Throw SyntaxError
      else '(s, rest) ← parse_chars r; Ok (c :: s, rest)
  end.

(** Property names that JavaScript enumerates before the others, in
    numeric order: the canonical numerals. Objects with such names are
    outside the model. *)
Definition integer_key (k : string) : bool :=
  match take_digits (str k) with
  | (Decimal.Nil, _) => false
  | (d, []) => negb (leading_zero d)
  | (_, _ :: _) => false
  end.

(** CreateDataProperty on an object under construction: a repeated name
    keeps its place and takes the new value. *)
Fixpoint define_property (k : string) (v : value) (members : list (string * value))
  : list (string * value) :=
  match members with
  | [] => [(k, v)]
  | (k', v') :: members =>
      if String.eqb k k' then (k, v) :: members
      else (k', v') :: define_property k v members
  end.

Definition build_object (members : list (string * value)) : outcome value :=
  if existsb (fun kv => integer_key kv.1) members then Unmodelled
  else Ok (VObj (fold_left (fun obj kv => define_property kv.1 kv.2 obj) members [])).

Fixpoint parse_value (fuel : nat) (t : text) : outcome (value * text) :=
  match fuel with
  | O => OutOfFuel
  | S fuel =>
      match skip_ws t with
      | [] => Throw SyntaxError
      | c :: r =>
          if Ascii.eqb c "{" then
            match expect ["}"%char] (skip_ws r) with
            | Some r' => Ok (VObj [], r')
            | None =>
                '(members, r') ← parse_members fuel r;
                obj ← build_object members; Ok (obj, r')
            end
          else if Ascii.eqb c "[" then
            match expect ["]"%char] (skip_ws r) with
            | Some r' => Ok (VArr [], r')
            | None => '(elements, r') ← parse_elements fuel r; Ok (VArr elements, r')
            end
          else if Ascii.eqb c dquote then
            '(s, r') ← parse_chars r; Ok (VStr (of_text s), r')
          else if Ascii.eqb c "n" then
            match expect (str "ull") r with
            | Some r' => Ok (VNull, r')
            | None => Throw SyntaxError
            end
          else if Ascii.eqb c "t" then
            match expect (str "rue") r with
            | Some r' => Ok (VBool true, r')
            | None => Throw SyntaxError
            end
          else if Ascii.eqb c "f" then
            match expect (str "alse") r with
            | Some r' => Ok (VBool false, r')
            | None => Throw SyntaxError
            end
          else parse_number (c :: r)
      end
  end
with parse_elements (fuel : nat) (t : text) : outcome (list value * text) :=
  match fuel with
  | O => OutOfFuel
  | S fuel =>
      '(v, r) ← parse_value fuel t;
      match skip_ws r with
      | c :: r' =>
          if Ascii.eqb c "," then
            '(vs, r'') ← parse_elements fuel r'; Ok (v :: vs, r'')
          else if Ascii.eqb c "]" then Ok ([v], r')
          else Throw SyntaxError
      | [] => Throw SyntaxError
      end
  end
with parse_members (fuel : nat) (t : text) : outcome (list (string * value) * text) :=
  match fuel with
  | O => OutOfFuel
  | S fuel =>
      match expect [dquote] (skip_ws t) with
      | None => Throw SyntaxError
      | Some r =>
          '(k, r) ← parse_chars r;
          match expect [":"%char] (skip_ws r) with
          | None => Throw SyntaxError
          | Some r =>
              '(v, r) ← parse_value fuel r;
              match skip_ws r with
              | c :: r' =>
                  if Ascii.eqb c "," then
                    '(ms, r'') ← parse_members fuel r'; Ok ((of_text k, v) :: ms, r'')
                  else if Ascii.eqb c "}" then Ok ([(of_text k, v)], r')
                  else Throw SyntaxError
              | [] => Throw SyntaxError
              end
          end
      end
  end.

Definition JSON_parse (s : string) : outcome value :=
  '(v, rest) ← parse_value (2 * length (str s) + 1) (str s);
  match skip_ws rest with
  | [] => Ok v
  | _ :: _ => Throw SyntaxError
  end.

(** ** The values of the model

    A [value] stands for a JavaScript value when its integers are safe,
    its dates are within the range of time values, and its objects have
    distinct property names that are not integer keys. On the other
    values [JSON.stringify] is left open. *)

Fixpoint in_model (v : value) : bool :=
  match v with
  | VNum (Int z) => safe z
  | VDate (Some t) => Z.abs t <=? MAX_TIME
  | VArr elements => forallb in_model elements
  | VObj members =>
      forallb (fun kv : string * value => negb (integer_key kv.1) && in_model kv.2) members
      && bool_decide (NoDup members.*1)
  | _ => true
  end.

Definition JSON_stringify (v : value) : outcome (option string) :=
  if in_model v then Ok (stringify v) else Unmodelled.

(** ** The world: storages, subjects, objects

    The two Web Storage objects and the heap of subjects and objects are
    shared mutable state. [events] is the history of storage calls and
    of observer notifications; [unhandled] collects the exceptions that
    RxJS reports from a timer instead of raising. *)

Inductive StorageRef := localStorage | sessionStorage.

#[export] Instance StorageRef_eq_dec : EqDecision StorageRef.
Proof. solve_decision. Defined.

Inductive Event :=
| GetItem (storage : StorageRef) (key : string)
| SetItem (storage : StorageRef) (key item : string)
| RemoveItem (storage : StorageRef) (key : string)
| Notified (subject : nat) (v : value).

Record JsonConverter := {
  toJson : value -> outcome value;
  fromJson : value -> outcome value }.

(** The variables captured by the observer that [storageFactory]
    subscribes. *)
Record Closure := {
  c_storage : StorageRef;
  c_keyPrefix : string;
  c_storageKey : string;
  c_fallbackState : value;
  c_converter : option JsonConverter;
  c_subject : nat }.

Inductive Observer := WriteBack (env : Closure).

Record BehaviorSubject := {
  _value : value;
  observers : list Observer }.

(** An accessor property whose getter is [() => subject]. *)
Record PropertyDescriptor := {
  get : nat;
  enumerable : bool;
  configurable : bool }.

Record JsObject := {
  prototype : option nat;
  properties : gmap string PropertyDescriptor }.

Record World := {
  items : StorageRef -> gmap string string;
  subjects : list BehaviorSubject;
  objects : list JsObject;
  events : list Event;
  unhandled : list Error }.

Definition with_items (f : StorageRef -> gmap string string) (w : World) : World :=
  {| items := f; subjects := subjects w; objects := objects w;
     events := events w; unhandled := unhandled w |}.
Definition with_subjects (l : list BehaviorSubject) (w : World) : World :=
  {| items := items w; subjects := l; objects := objects w;
     events := events w; unhandled := unhandled w |}.
Definition with_objects (l : list JsObject) (w : World) : World :=
  {| items := items w; subjects := subjects w; objects := l;
     events := events w; unhandled := unhandled w |}.
Definition log (e : Event) (w : World) : World :=
  {| items := items w; subjects := subjects w; objects := objects w;
     events := events w ++ [e]; unhandled := unhandled w |}.
Definition report (e : Error) (w : World) : World :=
  {| items := items w; subjects := subjects w; objects := objects w;
     events := events w; unhandled := unhandled w ++ [e] |}.

(** Computations over the world; the world survives an exception. *)
Definition M (A : Type) : Type := World -> outcome A * World.

#[export] Instance M_ret : MRet M := fun A a w => (Ok a, w).
#[export] Instance M_bind : MBind M := fun A B k m w =>
  match m w with
  | (Ok a, w') => k a w'
  | (Throw e, w') => (Throw e, w')
  | (OutOfFuel, w') => (OutOfFuel, w')
  | (Unmodelled, w') => (Unmodelled, w')
  end.

Definition lift {A} (o : outcome A) : M A := fun w => (o, w).
Definition throw {A} (e : Error) : M A := lift (Throw e).
Definition modify (f : World -> World) : M unit := fun w => (Ok (), f w).

(** ** Storage *)

Definition Storage_getItem (storage : StorageRef) (key : string) : M (option string) :=
  fun w => (Ok (items w storage !! key), log (GetItem storage key) w).

Definition set_item (storage : StorageRef) (key item : string) (w : World) : World :=
  log (SetItem storage key item)
    (with_items (<[storage := <[key := item]> (items w storage)]> (items w)) w).

Definition remove_item (storage : StorageRef) (key : string) (w : World) : World :=
  log (RemoveItem storage key)
    (with_items (<[storage := delete key (items w storage)]> (items w)) w).

Definition Storage_setItem (storage : StorageRef) (key item : string) : M unit :=
  modify (set_item storage key item).

Definition Storage_removeItem (storage : StorageRef) (key : string) : M unit :=
  modify (remove_item storage key).

(** ** BehaviorSubject *)

Definition new_BehaviorSubject (v : value) : M nat :=
  fun w => (Ok (length (subjects w)),
            with_subjects (subjects w ++ [{| _value := v; observers := [] |}]) w).

Definition deref (subject : nat) : M BehaviorSubject :=
  fun w => match subjects w !! subject with
           | Some s => (Ok s, w)
           | None => (Unmodelled, w)
           end.

Definition assign (subject : nat) (s : BehaviorSubject) : M unit :=
  modify (fun w => with_subjects (<[subject := s]> (subjects w)) w).

Fixpoint for_each {A} (l : list A) (f : A -> M unit) : M unit :=
  match l with
  | [] => mret ()
  | x :: l => f x;; for_each l f
  end.

(** The observer of lines 40-51; [next] is [subject.next]. *)
Definition writeBack (next : nat -> value -> M unit) (env : Closure) (value : value) : M unit :=
  if nullish value then
    Storage_removeItem (c_storage env) (c_keyPrefix env +:+ c_storageKey env);;
    next (c_subject env) (c_fallbackState env)
  else
    match c_converter env with
    | Some converter =>
        jsonValue ← lift (toJson converter value);
        s ← lift (JSON_stringify jsonValue);
        Storage_setItem (c_storage env) (c_keyPrefix env +:+ c_storageKey env) (ToString s)
    | None =>
        s ← lift (JSON_stringify value);
        Storage_setItem (c_storage env) (c_keyPrefix env +:+ c_storageKey env) (ToString s)
    end.

Definition run_observer (next : nat -> value -> M unit) (o : Observer) (v : value) : M unit :=
  match o with
  | WriteBack env => writeBack next env v
  end.

(** Delivery of a value to one observer. An exception raised by the
    observer is caught and reported later; the caller goes on. *)
Definition Subscriber_next (next : nat -> value -> M unit) (subject : nat)
    (o : Observer) (v : value) : M unit :=
  fun w =>
    match run_observer next o v (log (Notified subject v) w) with
    | (Throw e, w') => (Ok (), report e w')
    | r => r
    end.

(** [subject.next(v)]. [fuel] bounds the nesting of [next] calls made by
    observers from within a notification. *)
Fixpoint BehaviorSubject_next (fuel : nat) (subject : nat) (v : value) : M unit :=
  match fuel with
  | O => lift OutOfFuel
  | S fuel =>
      s ← deref subject;
      assign subject {| _value := v; observers := observers s |};;
      for_each (observers s) (fun o => Subscriber_next (BehaviorSubject_next fuel) subject o v)
  end.

(** [subject.subscribe(o)]: the observer is registered, then receives
    the current value. *)
Definition BehaviorSubject_subscribe (fuel : nat) (subject : nat) (o : Observer) : M unit :=
  s ← deref subject;
  assign subject {| _value := _value s; observers := observers s ++ [o] |};;
  Subscriber_next (BehaviorSubject_next fuel) subject o (_value s).

Definition current_value (subject : nat) (w : World) : option value :=
  _value <$> subjects w !! subject.

(** ** storage.ts *)

Definition STORAGE_KEYS_PREFIX : string := "rca_".

Definition key_error (storageKey : string) : Error :=
  Error_ (of_text (dquote :: str "storageKey" ++ dquote ::
                  str " must be a nonempty string, but " ++ dquote ::
                  str storageKey ++ dquote :: str " was passed.")).

(** A string is truthy when it is not empty. *)
Definition truthy (s : option string) : option string :=
  match s with
  | Some EmptyString => None
  | other => other
  end.

(** Lines 28-36: the value the subject starts with. *)
Definition initial_value (storedString : option string) (fallbackState : value)
    (converter : option JsonConverter) : outcome value :=
  match truthy storedString, converter with
  | Some storedString, Some converter =>
      parsedValue ← JSON_parse storedString;
      fromJson converter parsedValue
  | Some storedString, None => JSON_parse storedString
  | None, _ => Ok fallbackState
  end.

Definition storageFactory (storage : StorageRef) (keyPrefix : string)
    (storageKey : string) (fallbackState : value) (converter : option JsonConverter)
    (fuel : nat) : M nat :=
  if String.eqb storageKey EmptyString then throw (key_error storageKey)
  else
    storedString ← Storage_getItem storage (keyPrefix +:+ storageKey);
    initialValue ← lift (initial_value storedString fallbackState converter);
    subject ← new_BehaviorSubject initialValue;
    BehaviorSubject_subscribe fuel subject
      (WriteBack {| c_storage := storage; c_keyPrefix := keyPrefix;
                    c_storageKey := storageKey; c_fallbackState := fallbackState;
                    c_converter := converter; c_subject := subject |});;
    mret subject.

(** [Object.defineProperty(target, propertyKey, descriptor)] *)
Definition Object_defineProperty (target : nat) (propertyKey : string)
    (descriptor : PropertyDescriptor) : M unit :=
  fun w =>
    match objects w !! target with
    | None => (Unmodelled, w)
    | Some o =>
        match properties o !! propertyKey with
        | Some {| configurable := false |} =>
            (Throw (TypeError "Cannot redefine property"), w)
        | _ =>
            (Ok (), with_objects
                      (<[target := {| prototype := prototype o;
                                      properties := <[propertyKey := descriptor]> (properties o) |}]>
                         (objects w)) w)
        end
    end.

Definition PropertyDecorator := nat -> string -> M unit.

Definition LocalStorage (storageKey : string) (fallbackState : value)
    (converter : option JsonConverter) (fuel : nat) : PropertyDecorator :=
  fun target propertyKey =>
    localStorageSubject ←
      storageFactory localStorage STORAGE_KEYS_PREFIX storageKey fallbackState converter fuel;
    Object_defineProperty target propertyKey
      {| get := localStorageSubject; enumerable := true; configurable := true |}.

Definition SessionStorage (storageKey : string) (fallbackState : value)
    (converter : option JsonConverter) (fuel : nat) : PropertyDecorator :=
  fun target propertyKey =>
    sessionStorageSubject ←
      storageFactory sessionStorage STORAGE_KEYS_PREFIX storageKey fallbackState converter fuel;
    Object_defineProperty target propertyKey
      {| get := sessionStorageSubject; enumerable := true; configurable := true |}.

(** ** Instances of a decorated class *)

(** [new C()] for a class whose prototype is [proto] and whose
    constructor assigns no field. *)
Definition new_instance (proto : nat) : M nat :=
  fun w => (Ok (length (objects w)),
            with_objects (objects w ++ [{| prototype := Some proto; properties := ∅ |}]) w).

(** [o.p]: the own property, else the one found along the prototype
    chain; the getter is called. [None] is [undefined]. *)
Fixpoint Get_from (depth : nat) (w : World) (o : nat) (p : string) : option nat :=
  match depth with
  | O => None
  | S depth =>
      obj ← objects w !! o;
      match properties obj !! p with
      | Some descriptor => Some (get descriptor)
      | None => proto ← prototype obj; Get_from depth w proto p
      end
  end.

Definition Get (w : World) (o : nat) (p : string) : option nat :=
  Get_from (length (objects w)) w o p.

(** ** The converter of storage.spec.ts *)

(** [object.date] *)
Definition Get_date (object : value) : outcome value :=
  match object with
  | VUndefined | VNull => Throw (TypeError "Cannot read properties of null or undefined")
  | VObj members => Ok (default VUndefined (snd <$> find (fun kv => String.eqb kv.1 "date") members))
  | _ => Ok VUndefined
  end.

(** [date.getTime()] *)
Definition getTime (date : value) : outcome value :=
  match date with
  | VDate (Some t) => Ok (VNum (Int t))
  | VDate None => Ok (VNum NaN)
  | VUndefined | VNull => Throw (TypeError "Cannot read properties of null or undefined")
  | _ => Throw (TypeError "getTime is not a function")
  end.

Definition TimeClip (t : Z) : option Z :=
  if Z.abs t <=? MAX_TIME then Some t else None.

(** [new Date(v)]; a string argument goes through [Date.parse], which
    is outside the model. *)
Definition new_Date (v : value) : outcome value :=
  match v with
  | VDate t => Ok (VDate t)
  | VNum NaN | VUndefined => Ok (VDate None)
  | VNum (Int t) => Ok (VDate (TimeClip t))
  | VNull => Ok (VDate (Some 0))
  | VBool b => Ok (VDate (Some (if b then 1 else 0)))
  | VStr _ | VArr _ | VObj _ => Unmodelled
  end.

Definition testkey2Converter : JsonConverter := {|
  toJson object :=
    date ← Get_date object; time ← getTime date; Ok (VObj [("date", time)]);
  fromJson object :=
    date ← Get_date object; d ← new_Date date; Ok (VObj [("date", d)]) |}.

Definition DEFAULT_DATE : value := VDate (Some 1704067200000).

(** ** Induction on values

    [value] is nested through lists, so its induction principle is
    written by hand. *)

Section value_ind.
Variable P : value -> Prop.
Hypothesis Hundefined : P VUndefined.
Hypothesis Hnull : P VNull.
Hypothesis Hbool : forall b, P (VBool b).
Hypothesis Hnum : forall n, P (VNum n).
Hypothesis Hstr : forall s, P (VStr s).
Hypothesis Hdate : forall t, P (VDate t).
Hypothesis Harr : forall l, Forall P l -> P (VArr l).
Hypothesis Hobj : forall ms, Forall (fun kv => P kv.2) ms -> P (VObj ms).

Fixpoint value_ind (v : value) : P v :=
  match v with
  | VUndefined => Hundefined
  | VNull => Hnull
  | VBool b => Hbool b
  | VNum n => Hnum n
  | VStr s => Hstr s
  | VDate t => Hdate t
  | VArr l =>
      Harr l ((fix go (l : list value) : Forall P l :=
                 match l with
                 | [] => Forall_nil_2 P
                 | v :: l => Forall_cons_2 P v l (value_ind v) (go l)
                 end) l)
  | VObj ms =>
      Hobj ms ((fix go (ms : list (string * value)) : Forall (fun kv => P kv.2) ms :=
                  match ms with
                  | [] => Forall_nil_2 _
                  | kv :: ms => Forall_cons_2 _ kv ms (value_ind kv.2) (go ms)
                  end) ms)
  end.
End value_ind.

(** ** Values that JSON carries unchanged

    No [undefined], no date, no [NaN]; safe integers; objects whose
    property names are distinct and not integer keys. *)
Fixpoint encodable (v : value) : bool :=
  match v with
  | VNull | VBool _ | VStr _ => true
  | VNum (Int z) => safe z
  | VArr elements => forallb encodable elements
  | VObj members =>
      forallb (fun kv : string * value => negb (integer_key kv.1) && encodable kv.2) members
      && bool_decide (NoDup members.*1)
  | VUndefined | VNum NaN | VDate _ => false
  end.

(** Nesting of parser calls needed to read a value back. *)
Fixpoint nesting (v : value) : nat :=
  match v with
  | VArr elements => S (list_sum (map (fun v => S (nesting v)) elements))
  | VObj members => S (list_sum (map (fun kv : string * value => S (nesting kv.2)) members))
  | _ => 1
  end.

(** The text of a value inside an array. *)
Definition json_text (v : value) : text := default null_text (serialize v).

(** The text of a property inside an object. *)
Definition member_text (kv : string * value) : text :=
  quote kv.1 ++ ":"%char :: json_text kv.2.

(** The first character of the text of a value. *)
Definition value_head (t : text) : Prop :=
  match t with
  | c :: _ => is_ws c = false /\ Ascii.eqb "]" c = false
  | [] => False
  end.

(** What may follow a value inside a JSON text. *)
Definition closes (rest : text) : Prop :=
  match rest with
  | [] => True
  | c :: _ => c = ","%char \/ c = "]"%char \/ c = "}"%char
  end.

(** A value that is read back from its own text. *)
Definition reads_back (v : value) : Prop :=
  serialize v = Some (json_text v) /\ value_head (json_text v) /\
  forall fuel rest, (nesting v <= fuel)%nat -> closes rest ->
    parse_value fuel (json_text v ++ rest) = Ok (v, rest).

(** The string that the observer writes for a value. *)
Definition stored (converter : option JsonConverter) (v : value) : outcome string :=
  match converter with
  | Some c => jsonValue ← toJson c v; s ← JSON_stringify jsonValue; Ok (ToString s)
  | None => s ← JSON_stringify v; Ok (ToString s)
  end.

Definition key_of (env : Closure) : string := c_keyPrefix env +:+ c_storageKey env.

(** The environment of the observer created by [storageFactory]. *)
Definition closure (storage : StorageRef) (keyPrefix storageKey : string)
    (fallbackState : value) (converter : option JsonConverter) (subject : nat) : Closure :=
  {| c_storage := storage; c_keyPrefix := keyPrefix; c_storageKey := storageKey;
     c_fallbackState := fallbackState; c_converter := converter; c_subject := subject |}.

(** [subject] is a container returned by [storageFactory]: its one
    observer is the write-back observer with environment [env]. *)
Definition bound (subject : nat) (env : Closure) (w : World) : Prop :=
  c_subject env = subject /\
  exists v, subjects w !! subject = Some {| _value := v; observers := [WriteBack env] |}.

(** The world after [subject] took the value [v]. *)
Definition assigned (subject : nat) (env : Closure) (v : value) (w : World) : World :=
  with_subjects (<[subject := {| _value := v; observers := [WriteBack env] |}]> (subjects w)) w.

(** The world after [storageFactory] read the storage and created the
    subject with its observer, before the observer ran. *)
Definition created (env : Closure) (v : value) (w : World) : World :=
  with_subjects (subjects w ++ [{| _value := v; observers := [WriteBack env] |}])
    (log (GetItem (c_storage env) (key_of env)) w).

(** A history in which every notified value is followed by exactly one
    storage call, the one the observer makes for that value. *)
Fixpoint one_operation_each (env : Closure) (es : list Event) : Prop :=
  match es with
  | [] => True
  | Notified subject v :: op :: es =>
      subject = c_subject env /\ nullish v = false /\
      (exists s, stored (c_converter env) v = Ok s /\ op = SetItem (c_storage env) (key_of env) s)
      /\ one_operation_each env es
      \/
      subject = c_subject env /\ nullish v = true /\
      op = RemoveItem (c_storage env) (key_of env) /\ one_operation_each env es
  | _ => False
  end.

(** The observer has a storage call to make for [v]: a removal for a
    nullish value, else a write of the string [v] is stored as. *)
Definition storable (env : Closure) (v : value) : Prop :=
  nullish v = true \/ exists s, stored (c_converter env) v = Ok s.

(** The observer's run for [v] ends: [v] can be stored, or [v] is
    nullish and the fallback it is replaced with can be stored. *)
Definition settles (env : Closure) (v : value) : Prop :=
  if nullish v
  then nullish (c_fallbackState env) = false /\
       exists s, stored (c_converter env) (c_fallbackState env) = Ok s
  else exists s, stored (c_converter env) v = Ok s.

(** The values that the observers of [subject] were handed, in order. *)
Definition notifications (subject : nat) (es : list Event) : list value :=
  omap (fun e => match e with
                 | Notified a v => if decide (a = subject) then Some v else None
                 | _ => None
                 end) es.

Definition is_read (e : Event) : bool :=
  match e with
  | GetItem _ _ => true
  | _ => false
  end.

Definition is_update (e : Event) : bool :=
  match e with
  | SetItem _ _ _ | RemoveItem _ _ => true
  | _ => false
  end.

(** [w'] differs from [w] by values taken by subjects, storage updates
    and reports only: no subject or object is created, no storage is
    read. *)
Definition extends (w w' : World) : Prop :=
  length (subjects w') = length (subjects w) /\ objects w' = objects w /\
  exists es, events w' = events w ++ es /\ Forall (fun e => is_read e = false) es.


Definition decorator (storage : StorageRef) :=
  match storage with
  | localStorage => LocalStorage
  | sessionStorage => SessionStorage
  end.

Definition empty_world : World :=
  {| items := fun _ => ∅; subjects := []; objects := []; events := []; unhandled := [] |}.

(** ** The scenario of the specification

    Store empty, key [k], fallback [d]: construct the binding, publish
    [x], publish [null]. *)

Definition scenario_binding : outcome nat * World :=
  storageFactory localStorage STORAGE_KEYS_PREFIX "k" (VStr "d") None 2 empty_world.

Definition scenario_env : Closure :=
  closure localStorage STORAGE_KEYS_PREFIX "k" (VStr "d") None 0.

Definition scenario_x : outcome unit * World :=
  BehaviorSubject_next 2 0 (VStr "x") scenario_binding.2.

Definition scenario_null : outcome unit * World :=
  BehaviorSubject_next 2 0 VNull scenario_x.2.

(** The binding of [sessionStorageValue2] in storage.spec.ts. *)
Definition date_binding : outcome nat * World :=
  storageFactory sessionStorage STORAGE_KEYS_PREFIX "testKey2"
    (VObj [("date", DEFAULT_DATE)]) (Some testkey2Converter) 2 empty_world.

Definition date_env : Closure :=
  closure sessionStorage STORAGE_KEYS_PREFIX "testKey2"
    (VObj [("date", DEFAULT_DATE)]) (Some testkey2Converter) 0.

(** A store that holds text that is not JSON under the key. *)
Definition malformed_world : World :=
  with_items (<[localStorage := {[ STORAGE_KEYS_PREFIX +:+ "k" := "{oops" ]}]> (items empty_world))
    empty_world.

(** A class prototype, and the decoration of [localStorageValue] in
    storage.spec.ts. *)
Definition class_world : World :=
  with_objects [{| prototype := None; properties := ∅ |}] empty_world.

Definition decorated_class : outcome unit * World :=
  LocalStorage "testKey" (VStr "defaultValue") None 2 0%nat "localStorageValue" class_world.

Definition two_instances : World :=
  (new_instance 0 (new_instance 0 decorated_class.2).2).2.

(** The class of storage.spec.ts: its four decorated properties, in
    the order of their declaration. *)
Definition TestClass : outcome unit * World :=
  (LocalStorage "testKey" (VStr "defaultValue") None 2 0%nat "localStorageValue";;
   SessionStorage "testKey" (VStr "defaultValue") None 2 0%nat "sessionStorageValue";;
   SessionStorage "testKey2" (VObj [("date", DEFAULT_DATE)]) (Some testkey2Converter) 2
     0%nat "sessionStorageValue2";;
   SessionStorage "testKey3" (VStr "emitionTestValue") None 2 0%nat "sessionStorageValue3"
   : M unit) class_world.

Definition testClass : outcome nat * World := new_instance 0 TestClass.2.

(** A store that holds the number [1] under the key, and a binding over
    it whose fallback is [null]. *)
Definition one_world : World :=
  with_items (<[localStorage := {[ STORAGE_KEYS_PREFIX +:+ "k" := "1" ]}]> (items empty_world))
    empty_world.

Definition null_fallback_binding : outcome nat * World :=
  storageFactory localStorage STORAGE_KEYS_PREFIX "k" VNull None 0 one_world.

(** A store that holds the empty string under the key. *)
Definition empty_string_world : World :=
  with_items (<[localStorage := {[ STORAGE_KEYS_PREFIX +:+ "k" := EmptyString ]}]> (items empty_world))
    empty_world.

(** ** What a run leaves in place *)

(** The entries other than the one of the binding are in [w'] what they
    are in [w]. *)
Definition other_entries_kept (env : Closure) (w w' : World) : Prop :=
  forall storage key,
    storage <> c_storage env \/ key <> key_of env ->
    items w' storage !! key = items w storage !! key.

(** The subjects other than [subject] are in [w'] what they are in [w]. *)
Definition other_subjects_kept (subject : nat) (w w' : World) : Prop :=
  forall other, other <> subject -> subjects w' !! other = subjects w !! other.

(** What a run of the binding [env] leaves in place. *)
Definition frame (env : Closure) (w w' : World) : Prop :=
  bound (c_subject env) env w'
  /\ other_entries_kept env w w'
  /\ other_subjects_kept (c_subject env) w w'
  /\ objects w' = objects w.

(** Two worlds that differ at most in what the storages hold. *)
Definition same_but_store (w1 w2 : World) : Prop :=
  subjects w1 = subjects w2 /\ objects w1 = objects w2
  /\ events w1 = events w2 /\ unhandled w1 = unhandled w2.

(** Publishing the values [vs] in turn. *)
Definition publish_all (fuel subject : nat) (vs : list value) : M unit :=
  for_each vs (BehaviorSubject_next fuel subject).

(** The converter, if there is one, returns or throws. *)
Definition ends (converter : option JsonConverter) : Prop :=
  forall c, converter = Some c ->
  forall x, toJson c x <> OutOfFuel /\ fromJson c x <> OutOfFuel.

(** ** The image of a value under JSON *)

(** What a value is read back as from the text [JSON.stringify] gives
    for it: a date as its ISO string, [NaN] and an Invalid Date as
    [null], [undefined] as [null] inside an array and not at all
    inside an object. *)
Fixpoint JSON_image (v : value) : value :=
  match v with
  | VUndefined | VNum NaN | VDate None => VNull
  | VDate (Some t) => VStr (of_text (toISOString t))
  | VArr elements => VArr (map JSON_image elements)
  | VObj members =>
      VObj (omap (fun kv : string * value =>
                    match kv.2 with
                    | VUndefined => None
                    | _ => Some (kv.1, JSON_image kv.2)
                    end) members)
  | VNull | VBool _ | VNum (Int _) | VStr _ => v
  end.

(** A character that [JSON.stringify] writes as it is. *)
Definition plain (c : ascii) : Prop := escape c = [c].

(** ** More scenarios *)

(** A store whose entry is written loosely: spaces, and a number with
    an exponent. *)
Definition loose_world : World :=
  with_items
    (<[localStorage := {[ STORAGE_KEYS_PREFIX +:+ "k" := " [ 1e2 ] " ]}]> (items empty_world))
    empty_world.

(** A store that holds the text [null] under the key. *)
Definition stored_null_world : World :=
  with_items (<[localStorage := {[ STORAGE_KEYS_PREFIX +:+ "k" := "null" ]}]> (items empty_world))
    empty_world.

(** A converter that keeps no value: its [toJson] returns nothing. *)
Definition forgetful : JsonConverter :=
  {| toJson _ := Ok VUndefined; fromJson object := Ok object |}.

Definition forgetful_binding : outcome nat * World :=
  storageFactory localStorage STORAGE_KEYS_PREFIX "k" (VStr "d") (Some forgetful) 2 empty_world.

Definition forgetful_env : Closure :=
  closure localStorage STORAGE_KEYS_PREFIX "k" (VStr "d") (Some forgetful) 0.

(** Two bindings constructed one after the other over the entry [rca_k]
    of [localStorage]. *)
Definition twin_bindings : outcome nat * World :=
  storageFactory localStorage STORAGE_KEYS_PREFIX "k" (VStr "other") None 2 scenario_binding.2.

Definition twin_env : Closure :=
  closure localStorage STORAGE_KEYS_PREFIX "k" (VStr "other") None 1.

(** ** Subscribers of the application

    The subject that [storageFactory] returns is handed to the
    application, which subscribes observers of its own: the test
    'should emit correct values' of storage.spec.ts does. The module
    below is the world of storages and subjects once more, with such
    observers beside the write-back observer. A listener keeps every
    value it is handed, in [received]; objects play no part here and
    are left out. *)

Module Subscribers.

Inductive Observer :=
| WriteBack (env : Closure)
| Listener (id : nat).

Record BehaviorSubject := {
  _value : value;
  observers : list Observer }.

Record World := {
  items : StorageRef -> gmap string string;
  subjects : list BehaviorSubject;
  events : list Event;
  received : list (nat * value);
  unhandled : list Error }.

Definition with_items (f : StorageRef -> gmap string string) (w : World) : World :=
  {| items := f; subjects := subjects w; events := events w;
     received := received w; unhandled := unhandled w |}.
Definition with_subjects (l : list BehaviorSubject) (w : World) : World :=
  {| items := items w; subjects := l; events := events w;
     received := received w; unhandled := unhandled w |}.
Definition log (e : Event) (w : World) : World :=
  {| items := items w; subjects := subjects w; events := events w ++ [e];
     received := received w; unhandled := unhandled w |}.
Definition keep (id : nat) (v : value) (w : World) : World :=
  {| items := items w; subjects := subjects w; events := events w;
     received := received w ++ [(id, v)]; unhandled := unhandled w |}.
Definition report (e : Error) (w : World) : World :=
  {| items := items w; subjects := subjects w; events := events w;
     received := received w; unhandled := unhandled w ++ [e] |}.

Definition M (A : Type) : Type := World -> outcome A * World.

#[global] Instance M_ret : MRet M := fun A a w => (Ok a, w).
#[global] Instance M_bind : MBind M := fun A B k m w =>
  match m w with
  | (Ok a, w') => k a w'
  | (Throw e, w') => (Throw e, w')
  | (OutOfFuel, w') => (OutOfFuel, w')
  | (Unmodelled, w') => (Unmodelled, w')
  end.

Definition lift {A} (o : outcome A) : M A := fun w => (o, w).
Definition throw {A} (e : Error) : M A := lift (Throw e).
Definition modify (f : World -> World) : M unit := fun w => (Ok (), f w).

Definition Storage_getItem (storage : StorageRef) (key : string) : M (option string) :=
  fun w => (Ok (items w storage !! key), log (GetItem storage key) w).

Definition set_item (storage : StorageRef) (key item : string) (w : World) : World :=
  log (SetItem storage key item)
    (with_items (<[storage := <[key := item]> (items w storage)]> (items w)) w).

Definition remove_item (storage : StorageRef) (key : string) (w : World) : World :=
  log (RemoveItem storage key)
    (with_items (<[storage := delete key (items w storage)]> (items w)) w).

Definition Storage_setItem (storage : StorageRef) (key item : string) : M unit :=
  modify (set_item storage key item).

Definition Storage_removeItem (storage : StorageRef) (key : string) : M unit :=
  modify (remove_item storage key).

Definition new_BehaviorSubject (v : value) : M nat :=
  fun w => (Ok (length (subjects w)),
            with_subjects (subjects w ++ [{| _value := v; observers := [] |}]) w).

Definition deref (subject : nat) : M BehaviorSubject :=
  fun w => match subjects w !! subject with
           | Some s => (Ok s, w)
           | None => (Unmodelled, w)
           end.

Definition assign (subject : nat) (s : BehaviorSubject) : M unit :=
  modify (fun w => with_subjects (<[subject := s]> (subjects w)) w).

Fixpoint for_each {A} (l : list A) (f : A -> M unit) : M unit :=
  match l with
  | [] => mret ()
  | x :: l => f x;; for_each l f
  end.

(** The observer of lines 40-51 of storage.ts. *)
Definition writeBack (next : nat -> value -> M unit) (env : Closure) (value : value) : M unit :=
  if nullish value then
    Storage_removeItem (c_storage env) (c_keyPrefix env +:+ c_storageKey env);;
    next (c_subject env) (c_fallbackState env)
  else
    match c_converter env with
    | Some converter =>
        jsonValue ← lift (toJson converter value);
        s ← lift (JSON_stringify jsonValue);
        Storage_setItem (c_storage env) (c_keyPrefix env +:+ c_storageKey env) (ToString s)
    | None =>
        s ← lift (JSON_stringify value);
        Storage_setItem (c_storage env) (c_keyPrefix env +:+ c_storageKey env) (ToString s)
    end.

Definition run_observer (next : nat -> value -> M unit) (o : Observer) (v : value) : M unit :=
  match o with
  | WriteBack env => writeBack next env v
  | Listener id => modify (keep id v)
  end.

Definition Subscriber_next (next : nat -> value -> M unit) (subject : nat)
    (o : Observer) (v : value) : M unit :=
  fun w =>
    match run_observer next o v (log (Notified subject v) w) with
    | (Throw e, w') => (Ok (), report e w')
    | r => r
    end.

Fixpoint BehaviorSubject_next (fuel : nat) (subject : nat) (v : value) : M unit :=
  match fuel with
  | O => lift OutOfFuel
  | S fuel =>
      s ← deref subject;
      assign subject {| _value := v; observers := observers s |};;
      for_each (observers s) (fun o => Subscriber_next (BehaviorSubject_next fuel) subject o v)
  end.

Definition BehaviorSubject_subscribe (fuel : nat) (subject : nat) (o : Observer) : M unit :=
  s ← deref subject;
  assign subject {| _value := _value s; observers := observers s ++ [o] |};;
  Subscriber_next (BehaviorSubject_next fuel) subject o (_value s).

Definition current_value (subject : nat) (w : World) : option value :=
  _value <$> subjects w !! subject.

Definition storageFactory (storage : StorageRef) (keyPrefix : string)
    (storageKey : string) (fallbackState : value) (converter : option JsonConverter)
    (fuel : nat) : M nat :=
  if String.eqb storageKey EmptyString then throw (key_error storageKey)
  else
    storedString ← Storage_getItem storage (keyPrefix +:+ storageKey);
    initialValue ← lift (initial_value storedString fallbackState converter);
    subject ← new_BehaviorSubject initialValue;
    BehaviorSubject_subscribe fuel subject
      (WriteBack {| c_storage := storage; c_keyPrefix := keyPrefix;
                    c_storageKey := storageKey; c_fallbackState := fallbackState;
                    c_converter := converter; c_subject := subject |});;
    mret subject.

(** Publishing the values [vs] in turn. *)
Definition publish_all (fuel subject : nat) (vs : list value) : M unit :=
  for_each vs (BehaviorSubject_next fuel subject).

(** [subject] is a container returned by [storageFactory], to which the
    listeners [ids] have subscribed since, in that order. *)
Definition bound (subject : nat) (env : Closure) (ids : list nat) (w : World) : Prop :=
  c_subject env = subject /\
  exists v, subjects w !! subject
            = Some {| _value := v; observers := WriteBack env :: map Listener ids |}.

(** The world after the listeners [ids] of [subject] were handed [v]. *)
Definition heard (subject : nat) (ids : list nat) (v : value) (w : World) : World :=
  {| items := items w; subjects := subjects w;
     events := events w ++ map (fun _ => Notified subject v) ids;
     received := received w ++ map (fun id => (id, v)) ids;
     unhandled := unhandled w |}.

Definition assigned (subject : nat) (env : Closure) (ids : list nat) (v : value) (w : World)
  : World :=
  with_subjects (<[subject := {| _value := v; observers := WriteBack env :: map Listener ids |}]>
                   (subjects w)) w.

End Subscribers.

(** A world without listeners, as a world with listeners. *)
Definition lift_observer (o : Observer) : Subscribers.Observer :=
  match o with
  | WriteBack env => Subscribers.WriteBack env
  end.

Definition with_listeners (w : World) : Subscribers.World :=
  {| Subscribers.items := items w;
     Subscribers.subjects :=
       (fun s => {| Subscribers._value := _value s;
                    Subscribers.observers := lift_observer <$> observers s |})
       <$> subjects w;
     Subscribers.events := events w;
     Subscribers.received := [];
     Subscribers.unhandled := unhandled w |}.

(** [m'] does in a world seen with listeners what [m] does in the
    world. *)
Definition agrees {A} (m : M A) (m' : Subscribers.M A) : Prop :=
  forall w, m' (with_listeners w) = ((m w).1, with_listeners (m w).2).

(** The binding of [sessionStorageValue3] in storage.spec.ts, in a
    world where no one listens yet, and the subscription of the test
    'should emit correct values'. *)
Definition emition_binding : outcome nat * Subscribers.World :=
  Subscribers.storageFactory sessionStorage STORAGE_KEYS_PREFIX "testKey3"
    (VStr "emitionTestValue") None 2 (with_listeners empty_world).

Definition emition_env : Closure :=
  closure sessionStorage STORAGE_KEYS_PREFIX "testKey3" (VStr "emitionTestValue") None 0.

Definition emition_subscribed : outcome unit * Subscribers.World :=
  Subscribers.BehaviorSubject_subscribe 2 0 (Subscribers.Listener 7) emition_binding.2.

(** * Properties *)

(** ** The model at work: the expectations of storage.spec.ts *)

Example TestClass_is_decorated :
  TestClass.1 = Ok ()
  /\ Get testClass.2 1 "localStorageValue" = Some 0%nat
  /\ Get testClass.2 1 "sessionStorageValue" = Some 1%nat
  /\ Get testClass.2 1 "sessionStorageValue2" = Some 2%nat
  /\ Get testClass.2 1 "sessionStorageValue3" = Some 3%nat.
Proof. repeat split; by vm_compute. Qed.

Example should_set_and_get_localStorage_value :
  let w := (BehaviorSubject_next 2 0 (VStr "newValue") testClass.2).2 in
  current_value 0 w = Some (VStr "newValue")
  /\ items w localStorage !! "rca_testKey" = stringify (VStr "newValue").
Proof. split; by vm_compute. Qed.

Example should_set_and_get_sessionStorage_value_with_custom_converter :
  let date := 1730609999123 in
  let w := (BehaviorSubject_next 2 2 (VObj [("date", VDate (Some date))]) testClass.2).2 in
  current_value 2 w = Some (VObj [("date", VDate (Some date))])
  /\ items w sessionStorage !! "rca_testKey2"
     = stringify (VObj [("date", VNum (Int date))]).
Proof. split; by vm_compute. Qed.

Example should_clear_and_emit_fallback_state_when_value_is_nullish :
  let w := (BehaviorSubject_next 2 0 VNull testClass.2).2 in
  current_value 0 w = Some (VStr "defaultValue").
Proof. by vm_compute. Qed.

Example should_clear_and_emit_fallback_state_with_custom_converter :
  let w1 := (BehaviorSubject_next 2 2 (VObj [("date", VDate (Some 1730609999123))]) testClass.2).2 in
  let w2 := (BehaviorSubject_next 2 2 VNull w1).2 in
  current_value 2 w2 = Some (VObj [("date", DEFAULT_DATE)]).
Proof. by vm_compute. Qed.

Example sessionStorageValue3_notifications :
  let w1 := (BehaviorSubject_next 2 3 (VStr "value1") testClass.2).2 in
  let w2 := (BehaviorSubject_next 2 3 (VStr "value2") w1).2 in
  let w3 := (BehaviorSubject_next 2 3 (VStr "value3") w2).2 in
  current_value 3 testClass.2 = Some (VStr "emitionTestValue")
  /\ notifications 3 (events w3)
     = [VStr "emitionTestValue"; VStr "value1"; VStr "value2"; VStr "value3"].
Proof. split; by vm_compute. Qed.

(** Two instances of a decorated class read the same subject: what is
    published through one is the current value read through the other. *)
Example instances_share_the_value :
  let w := (BehaviorSubject_next 2 0 (VStr "newValue") two_instances).2 in
  Get two_instances 1 "localStorageValue" = Some 0%nat
  /\ Get w 2 "localStorageValue" = Some 0%nat
  /\ current_value 0 w = Some (VStr "newValue").
Proof. repeat split; by vm_compute. Qed.

Example toISOString_examples :
  of_text (toISOString 0) = "1970-01-01T00:00:00.000Z"
  /\ of_text (toISOString 1704067200000) = "2024-01-01T00:00:00.000Z"
  /\ of_text (toISOString 951782400000) = "2000-02-29T00:00:00.000Z"
  /\ of_text (toISOString (-1)) = "1969-12-31T23:59:59.999Z"
  /\ of_text (toISOString 253402300800000) = "+010000-01-01T00:00:00.000Z"
  /\ of_text (toISOString (-62198755200000)) = "-000001-01-01T00:00:00.000Z".
Proof. repeat split; by vm_compute. Qed.

Example JSON_stringify_examples :
  JSON_stringify (VObj [("date", VNum (Int 1704067200000)); ("skipped", VUndefined)])
  = Ok (Some (of_text ("{"%char :: dquote :: str "date" ++ dquote :: str ":1704067200000}")))
  /\ JSON_stringify (VArr [VNull; VUndefined; VNum NaN; VBool true; VNum (Int (-7))])
     = Ok (Some "[null,null,null,true,-7]")
  /\ JSON_stringify (VStr "a\b")
     = Ok (Some (of_text (dquote :: str "a\\b" ++ [dquote])))
  /\ JSON_stringify (VDate (Some 0))
     = Ok (Some (of_text (dquote :: str "1970-01-01T00:00:00.000Z" ++ [dquote])))
  /\ JSON_stringify VUndefined = Ok None
  /\ JSON_stringify (VNum (Int (2 ^ 70))) = Unmodelled.
Proof. repeat split; by vm_compute. Qed.

Example JSON_parse_examples :
  JSON_parse " [1, 2.0 , 3e2, 1500e-2, -7, 0 ] "
  = Ok (VArr [VNum (Int 1); VNum (Int 2); VNum (Int 300); VNum (Int 15);
              VNum (Int (-7)); VNum (Int 0)])
  /\ JSON_parse "01" = Throw SyntaxError
  /\ JSON_parse "1." = Throw SyntaxError
  /\ JSON_parse "[1,]" = Throw SyntaxError
  /\ JSON_parse "undefined" = Throw SyntaxError
  /\ JSON_parse "null x" = Throw SyntaxError
  /\ JSON_parse "1.5" = Unmodelled
  /\ JSON_parse "-0" = Unmodelled
  /\ JSON_parse "9007199254740991" = Ok (VNum (Int 9007199254740991))
  /\ JSON_parse "9007199254740992" = Unmodelled.
Proof. repeat split; by vm_compute. Qed.

(** ** Text *)

Lemma str_of_text (t : text) : str (of_text t) = t.
Proof. apply list_ascii_of_string_of_list_ascii. Qed.

Lemma of_text_str (s : string) : of_text (str s) = s.
Proof. apply string_of_list_ascii_of_string. Qed.

Lemma closes_not_digit rest : closes rest -> take_digits rest = (Decimal.Nil, rest).
Proof.
  destruct rest as [|c rest]; [done|].
  by intros [-> | [-> | ->]].
Qed.

(** ** Numerals *)

Lemma take_digits_uint_text d rest :
  take_digits rest = (Decimal.Nil, rest) ->
  take_digits (uint_text d ++ rest) = (d, rest).
Proof.
  intros Hrest. induction d; simpl; rewrite ?IHd; done.
Qed.

Lemma nzhead_not_D0 d d' : Decimal.nzhead d <> Decimal.D0 d'.
Proof. induction d; simpl; congruence. Qed.

Lemma leading_zero_to_uint n : leading_zero (N.to_uint n) = false.
Proof.
  pose proof (DecimalN.Unsigned.to_of (N.to_uint n)) as H.
  rewrite DecimalN.Unsigned.of_to in H.
  destruct (N.to_uint n) as [|d| | | | | | | | |] eqn:E; try done.
  destruct d; try done; exfalso.
  all: rewrite unorm_D0 in H; unfold Decimal.unorm in H; simpl in H.
  all: match type of H with
       | _ = match ?x with _ => _ end => destruct x eqn:E'; try discriminate
       end.
  all: try (by eapply nzhead_not_D0).
Qed.

Lemma to_uint_not_nil n : N.to_uint n <> Decimal.Nil.
Proof.
  destruct n; simpl; [done|]. apply DecimalPos.Unsigned.to_uint_nonnil.
Qed.

Lemma no_digits_to_uint n : no_digits (N.to_uint n) = false.
Proof.
  pose proof (to_uint_not_nil n). by destruct (N.to_uint n).
Qed.

Lemma parse_fraction_closes rest : closes rest -> parse_fraction rest = Ok (Decimal.Nil, rest).
Proof.
  destruct rest as [|c rest]; [done|].
  by intros [-> | [-> | ->]].
Qed.

Lemma parse_exponent_closes rest : closes rest -> parse_exponent rest = Ok (0, rest).
Proof.
  destruct rest as [|c rest]; [done|].
  by intros [-> | [-> | ->]].
Qed.

Lemma parse_magnitude_N_text (negative : bool) n rest :
  closes rest ->
  safe (Z.of_N n) = true ->
  (negative = true -> n <> 0%N) ->
  parse_magnitude negative (N_text n ++ rest)
  = Ok (VNum (Int (if negative then - Z.of_N n else Z.of_N n)), rest).
Proof.
  intros Hrest Hsafe Hzero. unfold parse_magnitude, N_text.
  rewrite take_digits_uint_text by by apply closes_not_digit.
  rewrite no_digits_to_uint, leading_zero_to_uint. simpl.
  rewrite parse_fraction_closes by done. simpl.
  rewrite parse_exponent_closes by done. simpl.
  rewrite DecimalFacts.app_nil_r, DecimalN.Unsigned.of_to.
  unfold scale. simpl. rewrite Z.mul_1_r, Hsafe.
  destruct negative; [|done].
  destruct (Z.eqb_spec (Z.of_N n) 0) as [E|E]; [|done].
  exfalso. apply Hzero; [done|]. lia.
Qed.

Lemma uint_text_head d :
  d <> Decimal.Nil -> exists c t, uint_text d = c :: t /\ is_digit c = true.
Proof. destruct d; [done|..]; intros _; simpl; eauto. Qed.

Lemma safe_spec z : safe z = true <-> - MAX_SAFE_INTEGER <= z <= MAX_SAFE_INTEGER.
Proof. unfold safe. rewrite andb_true_iff, !Z.leb_le. done. Qed.

Lemma parse_number_Z_text z rest :
  closes rest -> safe z = true ->
  parse_number (Z_text z ++ rest) = Ok (VNum (Int z), rest).
Proof.
  intros Hrest Hsafe. unfold parse_number, Z_text.
  destruct (Z.ltb_spec z 0) as [Hneg|Hpos].
  - simpl.
    rewrite (parse_magnitude_N_text true);
      [by rewrite Z2N.id, Z.opp_involutive by lia|done|..].
    + rewrite Z2N.id by lia. apply safe_spec. apply safe_spec in Hsafe. lia.
    + intros _ E. apply (f_equal Z.of_N) in E. rewrite Z2N.id in E; simpl in E; lia.
  - destruct (uint_text_head (N.to_uint (Z.to_N z)) (to_uint_not_nil _)) as (c & t & E & Hc).
    unfold N_text at 1. rewrite E. simpl.
    replace (Ascii.eqb c "-") with false; cycle 1.
    { destruct (Ascii.eqb_spec c "-") as [->|]; done. }
    replace (c :: t ++ rest) with (N_text (Z.to_N z) ++ rest) by (unfold N_text; by rewrite E).
    rewrite (parse_magnitude_N_text false); rewrite ?Z2N.id; done.
Qed.

(** ** Strings *)

Lemma parse_chars_escape c t :
  parse_chars (escape c ++ t) = '(s, rest) ← parse_chars t; Ok (c :: s, rest).
Proof. destruct c as [[] [] [] [] [] [] [] []]; reflexivity. Qed.

Lemma parse_chars_quoted (s rest : text) :
  parse_chars (concat (map escape s) ++ dquote :: rest) = Ok (s, rest).
Proof.
  induction s as [|c s IH]; [done|].
  simpl. rewrite <- app_assoc, parse_chars_escape, IH. done.
Qed.

(** ** Reading a value back from its text *)

Lemma number_dispatch fuel c r :
  c = "-"%char \/ is_digit c = true ->
  parse_value (S fuel) (c :: r) = parse_number (c :: r).
Proof.
  intros [->|Hc]; [done|].
  destruct c as [[] [] [] [] [] [] [] []]; try discriminate Hc; reflexivity.
Qed.

Lemma Z_text_head z :
  exists c t, Z_text z = c :: t /\ (c = "-"%char \/ is_digit c = true).
Proof.
  unfold Z_text. destruct (z <? 0); [by eauto|].
  destruct (uint_text_head (N.to_uint (Z.to_N z)) (to_uint_not_nil _)) as (c & t & E & Hc).
  unfold N_text. rewrite E. eauto.
Qed.

Lemma number_head c : c = "-"%char \/ is_digit c = true -> value_head [c].
Proof.
  intros [->|Hc]; [done|].
  destruct c as [[] [] [] [] [] [] [] []]; try discriminate Hc; done.
Qed.

Lemma serialize_arr l :
  serialize (VArr l) = Some ("["%char :: join_comma (map json_text l) ++ ["]"%char]).
Proof. reflexivity. Qed.

Lemma join_comma_cons p q ps :
  join_comma (p :: q :: ps) = p ++ ","%char :: join_comma (q :: ps).
Proof. reflexivity. Qed.

Lemma parse_elements_join l fuel rest :
  l <> [] -> Forall reads_back l ->
  (list_sum (map (fun v => S (nesting v)) l) <= fuel)%nat ->
  parse_elements fuel (join_comma (map json_text l) ++ "]"%char :: rest) = Ok (l, rest).
Proof.
  intros Hne Hall. revert fuel. induction Hall as [|v l Hv Hl IH]; [done|].
  intros fuel Hfuel. destruct fuel as [|fuel]; [simpl in Hfuel; lia|].
  destruct Hv as (_ & _ & Hparse).
  destruct l as [|v2 l].
  - simpl. rewrite app_nil_r. simpl in Hfuel.
    rewrite Hparse; [|lia|by right; left]. done.
  - rewrite map_cons, (map_cons _ v2), join_comma_cons, <- map_cons.
    simpl parse_elements. rewrite <- app_assoc. simpl in Hfuel.
    rewrite Hparse; [|lia|by left]. simpl.
    rewrite IH; [done|done|simpl; lia].
Qed.

Lemma serialize_obj ms :
  Forall (fun kv : string * value => serialize kv.2 = Some (json_text kv.2)) ms ->
  serialize (VObj ms) = Some ("{"%char :: join_comma (map member_text ms) ++ ["}"%char]).
Proof.
  intros H. simpl. do 4 f_equal.
  induction H as [|[k v] ms Hv _ IH]; [done|].
  simpl in *. rewrite IH, Hv. unfold member_text, json_text. simpl. by rewrite Hv.
Qed.

Lemma parse_members_join ms fuel rest :
  ms <> [] -> Forall (fun kv : string * value => reads_back kv.2) ms ->
  (list_sum (map (fun kv : string * value => S (nesting kv.2)) ms) <= fuel)%nat ->
  parse_members fuel (join_comma (map member_text ms) ++ "}"%char :: rest) = Ok (ms, rest).
Proof.
  intros Hne Hall. revert fuel. induction Hall as [|[k v] ms Hv Hl IH]; [done|].
  intros fuel Hfuel. destruct fuel as [|fuel]; [simpl in Hfuel; lia|].
  destruct Hv as (_ & _ & Hparse). simpl in Hparse.
  assert (Hmember : forall more,
    member_text (k, v) ++ more
    = dquote :: concat (map escape (str k)) ++ dquote :: ":"%char :: json_text v ++ more).
  { intros more. unfold member_text, quote. simpl. by rewrite <- !app_assoc. }
  destruct ms as [|kv2 ms].
  - simpl join_comma. rewrite app_nil_r, Hmember. simpl in Hfuel.
    simpl. rewrite parse_chars_quoted. simpl.
    rewrite Hparse; [|lia|by right; right]. simpl. by rewrite of_text_str.
  - rewrite map_cons, (map_cons _ kv2), join_comma_cons, <- map_cons.
    rewrite <- app_assoc, Hmember. simpl in Hfuel.
    simpl. rewrite parse_chars_quoted. simpl.
    rewrite Hparse; [|lia|by left]. simpl.
    rewrite IH; [|done|simpl; lia]. simpl. by rewrite of_text_str.
Qed.

Lemma define_property_fresh k v ms :
  k ∉ ms.*1 -> define_property k v ms = ms ++ [(k, v)].
Proof.
  induction ms as [|[k' v'] ms IH]; [done|].
  simpl. intros Hk. apply not_elem_of_cons in Hk as [Hne Hk].
  destruct (String.eqb_spec k k'); [done|]. by rewrite IH.
Qed.

Lemma fold_define_property ms acc :
  NoDup (acc.*1 ++ ms.*1) ->
  fold_left (fun obj (kv : string * value) => define_property kv.1 kv.2 obj) ms acc = acc ++ ms.
Proof.
  revert acc. induction ms as [|[k v] ms IH]; intros acc Hnd; simpl.
  - by rewrite app_nil_r.
  - rewrite define_property_fresh.
    + rewrite IH; [by rewrite <- app_assoc|].
      rewrite fmap_app. simpl. by rewrite <- app_assoc.
    + simpl in Hnd. apply NoDup_app in Hnd as (_ & Hnd & _).
      intros Hin. apply (Hnd k Hin). by left.
Qed.

Lemma build_object_distinct ms :
  forallb (fun kv : string * value => negb (integer_key kv.1)) ms = true ->
  NoDup ms.*1 ->
  build_object ms = Ok (VObj ms).
Proof.
  intros Hkeys Hnd. unfold build_object.
  replace (existsb _ ms) with false; cycle 1.
  { symmetry. apply not_true_is_false. intros H.
    apply existsb_exists in H as (kv & Hin & Hkv).
    rewrite forallb_forall in Hkeys. specialize (Hkeys kv Hin).
    by rewrite Hkv in Hkeys. }
  by rewrite fold_define_property.
Qed.

Lemma value_head_skip t more :
  value_head t -> skip_ws (t ++ more) = t ++ more /\ expect ["]"%char] (t ++ more) = None.
Proof.
  destruct t as [|c t]; [done|]. intros [Hws Hc].
  cbn [app skip_ws expect]. by rewrite Hws, Hc.
Qed.

Lemma parse_value_array fuel r :
  parse_value (S fuel) ("["%char :: r)
  = match expect ["]"%char] (skip_ws r) with
    | Some r' => Ok (VArr [], r')
    | None => '(elements, r') ← parse_elements fuel r; Ok (VArr elements, r')
    end.
Proof. reflexivity. Qed.

Lemma parse_value_object fuel r :
  parse_value (S fuel) ("{"%char :: r)
  = match expect ["}"%char] (skip_ws r) with
    | Some r' => Ok (VObj [], r')
    | None =>
        '(members, r') ← parse_members fuel r;
        obj ← build_object members; Ok (obj, r')
    end.
Proof. reflexivity. Qed.

Lemma member_text_head kv ms more :
  expect ["}"%char] (skip_ws (join_comma (map member_text (kv :: ms)) ++ more)) = None.
Proof. reflexivity. Qed.

Lemma encodable_reads_back v : encodable v = true -> reads_back v.
Proof.
  induction v as [| |b|n|s|t|l IH|ms IH] using value_ind; intros Henc; try discriminate Henc.
  - split; [done|]. split; [done|]. by intros [|fuel] rest Hfuel Hrest; [simpl in Hfuel; lia|].
  - destruct b; (split; [done|]; split; [done|]);
      by intros [|fuel] rest Hfuel Hrest; [simpl in Hfuel; lia|].
  - destruct n as [|z]; [done|]. simpl in Henc.
    destruct (Z_text_head z) as (c & t & E & Hc).
    split; [done|]. unfold json_text. simpl. rewrite E. split.
    { pose proof (number_head c Hc). done. }
    intros [|fuel] rest Hfuel Hrest; [simpl in Hfuel; lia|].
    rewrite <- app_comm_cons, number_dispatch by done.
    rewrite app_comm_cons, <- E. by apply parse_number_Z_text.
  - split; [done|]. split; [done|].
    intros [|fuel] rest Hfuel Hrest; [simpl in Hfuel; lia|].
    unfold json_text, quote. simpl. rewrite <- app_assoc. simpl.
    rewrite parse_chars_quoted. simpl. by rewrite of_text_str.
  - simpl in Henc. rewrite forallb_forall in Henc.
    assert (Hall : Forall reads_back l).
    { rewrite Forall_forall in IH. apply Forall_forall. intros v Hv.
      apply IH; [done|]. apply Henc. by apply list_elem_of_In. }
    split; [done|]. split; [done|].
    intros [|fuel] rest Hfuel Hrest; [simpl in Hfuel; lia|].
    unfold json_text. rewrite serialize_arr. simpl default. simpl in Hfuel.
    rewrite <- app_comm_cons, <- app_assoc. simpl app.
    rewrite parse_value_array.
    destruct l as [|v l]; [done|].
    assert (Hhead : value_head (json_text v)).
    { apply Forall_cons in Hall as [(_ & H & _) _]. done. }
    assert (Hj : exists more, join_comma (map json_text (v :: l)) ++ "]"%char :: rest
                              = json_text v ++ more).
    { simpl. rewrite <- app_assoc. eauto. }
    destruct Hj as (more & Hj).
    destruct (value_head_skip (json_text v) more Hhead) as [Hs He].
    rewrite Hj at 1. rewrite Hs, He.
    rewrite parse_elements_join; [done|done|done|lia].
  - simpl in Henc. apply andb_true_iff in Henc as [Henc Hnd].
    apply bool_decide_eq_true in Hnd. rewrite forallb_forall in Henc.
    assert (Hall : Forall (fun kv : string * value => reads_back kv.2) ms).
    { rewrite Forall_forall in IH. apply Forall_forall. intros kv Hkv.
      apply IH; [done|]. apply list_elem_of_In, Henc in Hkv.
      by apply andb_true_iff in Hkv as [_ ?]. }
    assert (Hser : serialize (VObj ms)
                   = Some ("{"%char :: join_comma (map member_text ms) ++ ["}"%char])).
    { apply serialize_obj. eapply Forall_impl; [exact Hall|]. by intros kv (? & _). }
    unfold reads_back, json_text. rewrite Hser. simpl default.
    split; [done|]. split; [done|].
    intros [|fuel] rest Hfuel Hrest; [simpl in Hfuel; lia|].
    simpl in Hfuel.
    rewrite <- app_comm_cons, <- app_assoc. simpl app.
    rewrite parse_value_object.
    destruct ms as [|kv ms]; [done|].
    rewrite member_text_head.
    rewrite parse_members_join; [|done|done|lia]. simpl.
    rewrite build_object_distinct; [done| |done].
    apply forallb_forall. intros kv' Hkv. apply Henc in Hkv.
    by apply andb_true_iff in Hkv as [? _].
Qed.

Lemma join_comma_length (ps : list text) :
  (list_sum (map (fun p => S (length p)) ps) <= S (length (join_comma ps)))%nat.
Proof.
  destruct ps as [|p ps]; [simpl; lia|].
  simpl. rewrite length_app.
  enough (list_sum (map (fun p => S (length p)) ps)
          = length (concat (map (fun q => ","%char :: q) ps))) by lia.
  induction ps as [|q ps IH]; [done|].
  simpl. rewrite length_app. lia.
Qed.

Lemma list_sum_double {A} (f g : A -> nat) (l : list A) :
  Forall (fun x => (f x <= 2 * g x)%nat) l ->
  (list_sum (map (fun x => S (f x)) l) <= 2 * list_sum (map (fun x => S (g x)) l))%nat.
Proof. induction 1; simpl in *; lia. Qed.

Lemma nesting_bound v :
  encodable v = true -> (nesting v <= 2 * length (json_text v))%nat.
Proof.
  induction v as [| |b|n|s|t|l IH|ms IH] using value_ind; intros Henc;
    try discriminate Henc.
  1-4: destruct (encodable_reads_back _ Henc) as (_ & Hhead & _);
       destruct (json_text _); [done|simpl; lia].
  - unfold json_text. rewrite serialize_arr. simpl default.
    simpl in Henc. rewrite forallb_forall in Henc.
    assert (Hall : Forall (fun v => (nesting v <= 2 * length (json_text v))%nat) l).
    { rewrite Forall_forall in IH. apply Forall_forall. intros v Hv.
      apply IH; [done|]. apply Henc. by apply list_elem_of_In. }
    apply list_sum_double in Hall.
    pose proof (join_comma_length (map json_text l)) as Hlen.
    rewrite map_map in Hlen.
    cbn [nesting length]. rewrite length_app. simpl length. lia.
  - assert (Hser : serialize (VObj ms)
                   = Some ("{"%char :: join_comma (map member_text ms) ++ ["}"%char])).
    { apply serialize_obj. simpl in Henc. apply andb_true_iff in Henc as [Henc _].
      rewrite forallb_forall in Henc. apply Forall_forall. intros kv Hkv.
      apply list_elem_of_In, Henc in Hkv. apply andb_true_iff in Hkv as [_ Hkv].
      by destruct (encodable_reads_back _ Hkv) as (? & _). }
    unfold json_text. rewrite Hser. simpl default.
    simpl in Henc. apply andb_true_iff in Henc as [Henc _].
    rewrite forallb_forall in Henc.
    assert (Hall : Forall (fun kv : string * value =>
                             (nesting kv.2 <= 2 * length (member_text kv))%nat) ms).
    { rewrite Forall_forall in IH. apply Forall_forall. intros kv Hkv.
      assert (encodable kv.2 = true) as Hv.
      { apply list_elem_of_In, Henc in Hkv. by apply andb_true_iff in Hkv as [_ ?]. }
      specialize (IH kv Hkv Hv). unfold member_text.
      rewrite length_app. simpl. lia. }
    apply (list_sum_double (fun kv : string * value => nesting kv.2)) in Hall.
    pose proof (join_comma_length (map member_text ms)) as Hlen.
    rewrite map_map in Hlen.
    cbn [nesting length]. rewrite length_app. simpl length. lia.
Qed.

Lemma encodable_in_model v : encodable v = true -> in_model v = true.
Proof.
  induction v as [| |b|n|s|t|l IH|ms IH] using value_ind; intros Henc;
    try discriminate Henc; try done.
  - by destruct n.
  - simpl in *. rewrite forallb_forall in Henc. apply forallb_forall.
    rewrite Forall_forall in IH. intros v Hv. apply IH; [by apply list_elem_of_In|].
    by apply Henc.
  - simpl in *. apply andb_true_iff in Henc as [Henc Hnd].
    apply andb_true_iff. split; [|done].
    rewrite forallb_forall in Henc. apply forallb_forall.
    rewrite Forall_forall in IH. intros kv Hkv.
    specialize (Henc kv Hkv). apply andb_true_iff in Henc as [Hk Hv].
    apply andb_true_iff. split; [done|]. apply IH; [by apply list_elem_of_In|done].
Qed.

Lemma JSON_parse_stringify v :
  encodable v = true ->
  exists s, JSON_stringify v = Ok (Some s) /\ s <> EmptyString /\ JSON_parse s = Ok v.
Proof.
  intros Henc. destruct (encodable_reads_back v Henc) as (Hser & Hhead & Hparse).
  exists (of_text (json_text v)). split; [|split].
  - unfold JSON_stringify, stringify. by rewrite encodable_in_model, Hser.
  - intros E. apply (f_equal str) in E. rewrite str_of_text in E.
    by rewrite E in Hhead.
  - unfold JSON_parse. rewrite str_of_text.
    rewrite <- (app_nil_r (json_text v)) at 2.
    rewrite Hparse; [done| |done].
    pose proof (nesting_bound v Henc). lia.
Qed.

Local Close Scope Z_scope.

(** ** The parser always ends *)

Lemma skip_ws_length t : length (skip_ws t) <= length t.
Proof. induction t as [|c t IH]; simpl; [lia|]. destruct (is_ws c); simpl; lia. Qed.

Lemma expect_length p t r : expect p t = Some r -> length r + length p = length t.
Proof.
  revert t. induction p as [|a p IH]; intros t; simpl.
  - intros [= ->]. lia.
  - destruct t as [|c t]; [done|]. destruct (Ascii.eqb a c); [|done].
    intros H. apply IH in H. simpl. lia.
Qed.

Lemma take_digits_length t d r :
  take_digits t = (d, r) ->
  length r <= length t /\ (no_digits d = false -> length r < length t).
Proof.
  revert d r. induction t as [|c t IH]; intros d r; simpl.
  - intros [= <- <-]. by split.
  - destruct (is_digit c).
    + destruct (take_digits t) as [d' r'] eqn:E. intros [= <- <-].
      destruct (IH _ _ eq_refl) as [H _]. split; intros; simpl; lia.
    + intros [= <- <-]. by split.
Qed.

Lemma parse_chars_ends t :
  parse_chars t <> OutOfFuel /\ forall s r, parse_chars t = Ok (s, r) -> length r < length t.
Proof.
  induction t as [t IH] using (induction_ltof1 _ (@length ascii)). unfold ltof in IH.
  assert (Hk : forall (c : ascii) r,
            length r < length t ->
            (parse_chars r ≫= (fun '(s, rest) => Ok (c :: s, rest))) <> OutOfFuel /\
            forall s r', (parse_chars r ≫= (fun '(s, rest) => Ok (c :: s, rest))) = Ok (s, r') ->
                         length r' < length t).
  { intros c r Hr. destruct (IH r Hr) as [H1 H2].
    destruct (parse_chars r) as [[s0 r0]| | |]; simpl; split; try done.
    intros s r' [= <- <-]. specialize (H2 _ _ eq_refl). lia. }
  destruct t as [|c r]; [done|]. cbn [parse_chars].
  destruct (Ascii.eqb c dquote).
  { split; [done|]. intros s r' [= <- <-]. simpl. lia. }
  destruct (Ascii.eqb c backslash).
  - destruct r as [|e r]; [done|].
    repeat match goal with
           | |- context [if Ascii.eqb e ?x then _ else _] =>
               destruct (Ascii.eqb e x); [apply Hk; simpl; lia|]
           end.
    destruct (Ascii.eqb e "u"); [|done].
    destruct r as [|h1 [|h2 [|h3 [|h4 r]]]]; try done.
    destruct (hex_val h1) as [a|]; [|done]. destruct (hex_val h2) as [b|]; [|done].
    destruct (hex_val h3) as [c'|]; [|done]. destruct (hex_val h4) as [d|]; [|done].
    destruct ((a =? 0)%N && (b =? 0)%N); [|done].
    apply Hk. simpl. lia.
  - destruct (code c <? 32)%N; [done|]. apply Hk. simpl. lia.
Qed.

Lemma parse_fraction_ends t :
  parse_fraction t <> OutOfFuel /\
  forall f r, parse_fraction t = Ok (f, r) -> length r <= length t.
Proof.
  unfold parse_fraction. destruct t as [|c t]; [split; [done|by intros ? ? [= <- <-]]|].
  destruct (Ascii.eqb c ".").
  - destruct (take_digits t) as [f r] eqn:E. apply take_digits_length in E as [E _].
    destruct (no_digits f); [done|]. split; [done|]. intros ? ? [= <- <-]. simpl. lia.
  - split; [done|]. by intros ? ? [= <- <-].
Qed.

Lemma parse_exponent_ends t :
  parse_exponent t <> OutOfFuel /\
  forall e r, parse_exponent t = Ok (e, r) -> length r <= length t.
Proof.
  unfold parse_exponent. destruct t as [|c t]; [split; [done|by intros ? ? [= <- <-]]|].
  destruct (Ascii.eqb c "e" || Ascii.eqb c "E").
  - assert (forall (m : bool) t', length t' <= length t ->
              (let '(digits, t'') := take_digits t' in
               if no_digits digits then Throw SyntaxError
               else Ok (if m then (- Z.of_N (N.of_uint digits))%Z
                        else Z.of_N (N.of_uint digits), t'')) <> OutOfFuel /\
              forall e r,
                (let '(digits, t'') := take_digits t' in
                 if no_digits digits then Throw SyntaxError
                 else Ok (if m then (- Z.of_N (N.of_uint digits))%Z
                          else Z.of_N (N.of_uint digits), t'')) = Ok (e, r) ->
                length r <= length (c :: t)) as Hk.
    { intros m t' Ht'. destruct (take_digits t') as [d r] eqn:E.
      apply take_digits_length in E as [E _].
      destruct (no_digits d); [done|]. split; [done|]. intros ? ? [= <- <-]. simpl. lia. }
    destruct t as [|s t']; [by apply (Hk false)|].
    destruct (Ascii.eqb s "-"); [apply (Hk true); simpl; lia|].
    destruct (Ascii.eqb s "+"); [apply (Hk false); simpl; lia|].
    by apply (Hk false).
  - split; [done|]. by intros ? ? [= <- <-].
Qed.

Lemma parse_magnitude_ends negative t :
  parse_magnitude negative t <> OutOfFuel /\
  forall v r, parse_magnitude negative t = Ok (v, r) -> length r < length t.
Proof.
  unfold parse_magnitude. destruct (take_digits t) as [int r0] eqn:E.
  apply take_digits_length in E as [_ E].
  destruct (no_digits int) eqn:En; [done|]. simpl.
  destruct (leading_zero int); [done|]. specialize (E eq_refl).
  destruct (parse_fraction_ends r0) as [F1 F2].
  destruct (parse_fraction r0) as [[frac r1]| | |]; try done. simpl.
  specialize (F2 _ _ eq_refl).
  destruct (parse_exponent_ends r1) as [X1 X2].
  destruct (parse_exponent r1) as [[exp r2]| | |]; try done. simpl.
  specialize (X2 _ _ eq_refl).
  destruct (scale _ _) as [z|]; [|done].
  destruct (negative && (z =? 0)%Z); [done|]. destruct (safe z); [|done].
  split; [done|]. intros ? ? [= <- <-]. lia.
Qed.

Lemma parse_number_ends t :
  parse_number t <> OutOfFuel /\
  forall v r, parse_number t = Ok (v, r) -> length r < length t.
Proof.
  unfold parse_number. destruct t as [|c t]; [apply parse_magnitude_ends|].
  destruct (Ascii.eqb c "-"); [|apply parse_magnitude_ends].
  destruct (parse_magnitude_ends true t) as [H1 H2]. split; [done|].
  intros v r H. apply H2 in H. simpl. lia.
Qed.

Lemma build_object_ends members : build_object members <> OutOfFuel.
Proof. unfold build_object. by destruct (existsb _ _). Qed.

Lemma parse_ends fuel :
  (forall t, 2 * length t + 1 <= fuel ->
     parse_value fuel t <> OutOfFuel /\
     forall v r, parse_value fuel t = Ok (v, r) -> length r < length t)
  /\ (forall t, 2 * length t + 2 <= fuel ->
     parse_elements fuel t <> OutOfFuel /\
     forall vs r, parse_elements fuel t = Ok (vs, r) -> length r < length t)
  /\ (forall t, 2 * length t + 2 <= fuel ->
     parse_members fuel t <> OutOfFuel /\
     forall ms r, parse_members fuel t = Ok (ms, r) -> length r < length t).
Proof.
  induction fuel as [|fuel (IHv & IHe & IHm)]; [repeat split; intros; lia|].
  split; [|split].
  - intros t Hfuel. cbn [parse_value].
    pose proof (skip_ws_length t) as Hws.
    destruct (skip_ws t) as [|c r]; [done|]. simpl in Hws.
    destruct (Ascii.eqb c "{").
    { pose proof (skip_ws_length r) as Hws'.
      destruct (expect ["}"%char] (skip_ws r)) as [r'|] eqn:Ex.
      - apply expect_length in Ex. simpl in Ex. split; [done|]. intros ? ? [= <- <-]. lia.
      - destruct (IHm r ltac:(lia)) as [H1 H2].
        destruct (parse_members fuel r) as [[ms r']| | |]; try done. cbn [mbind outcome_bind obind].
        specialize (H2 _ _ eq_refl). pose proof (build_object_ends ms).
        destruct (build_object ms); try done. cbn [mbind outcome_bind obind].
        split; [done|]. intros ? ? [= <- <-]. lia. }
    destruct (Ascii.eqb c "[").
    { pose proof (skip_ws_length r) as Hws'.
      destruct (expect ["]"%char] (skip_ws r)) as [r'|] eqn:Ex.
      - apply expect_length in Ex. simpl in Ex. split; [done|]. intros ? ? [= <- <-]. lia.
      - destruct (IHe r ltac:(lia)) as [H1 H2].
        destruct (parse_elements fuel r) as [[vs r']| | |]; try done. cbn [mbind outcome_bind obind].
        specialize (H2 _ _ eq_refl).
        split; [done|]. intros ? ? [= <- <-]. lia. }
    destruct (Ascii.eqb c dquote).
    { destruct (parse_chars_ends r) as [H1 H2].
      destruct (parse_chars r) as [[s r']| | |]; try done. cbn [mbind outcome_bind obind].
      specialize (H2 _ _ eq_refl). split; [done|]. intros ? ? [= <- <-]. lia. }
    assert (forall p (x : value),
              match expect p r with
              | Some r' => Ok (x, r')
              | None => Throw SyntaxError
              end <> OutOfFuel /\
              forall v r0, match expect p r with
                           | Some r' => Ok (x, r')
                           | None => Throw SyntaxError
                           end = Ok (v, r0) -> length r0 < length t) as Hlit.
    { intros p x. destruct (expect p r) as [r'|] eqn:Ex; [|done].
      apply expect_length in Ex. split; [done|]. intros ? ? [= <- <-]. lia. }
    destruct (Ascii.eqb c "n"); [apply Hlit|].
    destruct (Ascii.eqb c "t"); [apply Hlit|].
    destruct (Ascii.eqb c "f"); [apply Hlit|].
    destruct (parse_number_ends (c :: r)) as [H1 H2]. split; [done|].
    intros v r0 H. apply H2 in H. simpl in H. lia.
  - intros t Hfuel. cbn [parse_elements].
    destruct (IHv t ltac:(lia)) as [H1 H2].
    destruct (parse_value fuel t) as [[v r]| | |]; try done. cbn [mbind outcome_bind obind].
    specialize (H2 _ _ eq_refl). pose proof (skip_ws_length r) as Hws.
    destruct (skip_ws r) as [|c r']; [done|]. simpl in Hws.
    destruct (Ascii.eqb c ",").
    + destruct (IHe r' ltac:(lia)) as [E1 E2].
      destruct (parse_elements fuel r') as [[vs r'']| | |]; try done. cbn [mbind outcome_bind obind].
      specialize (E2 _ _ eq_refl). split; [done|]. intros ? ? [= <- <-]. lia.
    + destruct (Ascii.eqb c "]"); [|done]. split; [done|]. intros ? ? [= <- <-]. lia.
  - intros t Hfuel. cbn [parse_members].
    pose proof (skip_ws_length t) as Hws.
    destruct (expect [dquote] (skip_ws t)) as [r|] eqn:Ex; [|done].
    apply expect_length in Ex. simpl in Ex.
    destruct (parse_chars_ends r) as [C1 C2].
    destruct (parse_chars r) as [[k r1]| | |]; try done. cbn [mbind outcome_bind obind].
    specialize (C2 _ _ eq_refl). pose proof (skip_ws_length r1) as Hws1.
    destruct (expect [":"%char] (skip_ws r1)) as [r2|] eqn:Ex2; [|done].
    apply expect_length in Ex2. simpl in Ex2.
    destruct (IHv r2 ltac:(lia)) as [H1 H2].
    destruct (parse_value fuel r2) as [[v r3]| | |]; try done. cbn [mbind outcome_bind obind].
    specialize (H2 _ _ eq_refl). pose proof (skip_ws_length r3) as Hws3.
    destruct (skip_ws r3) as [|c r4]; [done|]. simpl in Hws3.
    destruct (Ascii.eqb c ",").
    + destruct (IHm r4 ltac:(lia)) as [E1 E2].
      destruct (parse_members fuel r4) as [[ms r5]| | |]; try done. cbn [mbind outcome_bind obind].
      specialize (E2 _ _ eq_refl). split; [done|]. intros ? ? [= <- <-]. lia.
    + destruct (Ascii.eqb c "}"); [|done]. split; [done|]. intros ? ? [= <- <-]. lia.
Qed.

(** [JSON.parse] returns or throws on every string (or leaves the
    model); it never runs out of fuel. *)
Lemma JSON_parse_ends s : JSON_parse s <> OutOfFuel.
Proof.
  unfold JSON_parse.
  destruct (proj1 (parse_ends (2 * length (str s) + 1)) (str s) ltac:(lia)) as [H _].
  destruct (parse_value _ _) as [[v r]| | |]; try done. simpl.
  by destruct (skip_ws r).
Qed.

(** ** What the parser returns is encodable *)

Lemma parse_magnitude_encodable negative t v r :
  parse_magnitude negative t = Ok (v, r) -> encodable v = true.
Proof.
  unfold parse_magnitude. destruct (take_digits t) as [int r0].
  destruct (no_digits int || leading_zero int); [done|].
  destruct (parse_fraction r0) as [[frac r1]| | |]; try done. simpl.
  destruct (parse_exponent r1) as [[exp r2]| | |]; try done. simpl.
  destruct (scale _ _) as [z|]; [|done].
  destruct (negative && (z =? 0)%Z); [done|]. destruct (safe z) eqn:Hz; [|done].
  intros [= <- <-]. simpl. destruct negative; [|done].
  apply safe_spec. apply safe_spec in Hz. lia.
Qed.

Lemma parse_number_encodable t v r : parse_number t = Ok (v, r) -> encodable v = true.
Proof.
  unfold parse_number. destruct t as [|c t]; [apply parse_magnitude_encodable|].
  destruct (Ascii.eqb c "-"); apply parse_magnitude_encodable.
Qed.

Lemma define_property_keys k v ms :
  (define_property k v ms).*1 = if bool_decide (k ∈ ms.*1) then ms.*1 else ms.*1 ++ [k].
Proof.
  induction ms as [|[k' v'] ms IH]; [done|].
  cbn [define_property]. rewrite fmap_cons. cbn [fst].
  destruct (String.eqb_spec k k') as [->|Hne].
  - rewrite bool_decide_eq_true_2; [done|by left].
  - rewrite fmap_cons, IH. cbn [fst]. destruct (bool_decide (k ∈ ms.*1)) eqn:E.
    + apply bool_decide_eq_true in E. rewrite bool_decide_eq_true_2; [done|by right].
    + apply bool_decide_eq_false in E. rewrite bool_decide_eq_false_2; [done|].
      by intros [?|?]%elem_of_cons.
Qed.

Lemma define_property_NoDup k v ms : NoDup ms.*1 -> NoDup (define_property k v ms).*1.
Proof.
  intros Hnd. rewrite define_property_keys. case_bool_decide; [done|].
  apply NoDup_app. split; [done|]. split; [|apply NoDup_singleton].
  intros x Hx ->%list_elem_of_singleton. done.
Qed.

Lemma define_property_Forall (P : string * value -> Prop) k v ms :
  P (k, v) -> Forall P ms -> Forall P (define_property k v ms).
Proof.
  intros Hkv. induction 1 as [|[k' v'] ms Hx Hms IH]; simpl.
  - by constructor.
  - destruct (String.eqb k k'); by constructor.
Qed.

Lemma build_object_encodable ms obj :
  Forall (fun kv : string * value => encodable kv.2 = true) ms ->
  build_object ms = Ok obj -> encodable obj = true.
Proof.
  intros Hms. unfold build_object.
  destruct (existsb _ ms) eqn:Hkeys; [done|]. intros [= <-].
  assert (Forall (fun kv : string * value =>
                    negb (integer_key kv.1) && encodable kv.2 = true) ms) as Hall.
  { apply Forall_forall. intros kv Hkv. rewrite Forall_forall in Hms.
    rewrite (Hms kv Hkv), andb_true_r. apply negb_true_iff, not_true_is_false.
    intros Hk. apply not_true_iff_false in Hkeys. apply Hkeys.
    apply existsb_exists. exists kv. split; [by apply list_elem_of_In|done]. }
  clear Hms Hkeys.
  assert (forall acc,
            Forall (fun kv : string * value =>
                      negb (integer_key kv.1) && encodable kv.2 = true) acc ->
            NoDup acc.*1 ->
            encodable (VObj (fold_left (fun obj (kv : string * value) =>
                                          define_property kv.1 kv.2 obj) ms acc)) = true) as H.
  { induction Hall as [|[k v] ms Hkv Hms IH]; intros acc Hacc Hnd.
    - simpl. apply andb_true_iff. split; [|by apply bool_decide_eq_true].
      apply forallb_forall. intros kv Hkv. rewrite Forall_forall in Hacc.
      apply Hacc. by apply list_elem_of_In.
    - simpl. apply IH; [by apply define_property_Forall|by apply define_property_NoDup]. }
  apply H; [done|constructor].
Qed.

Lemma parse_encodable fuel :
  (forall t v r, parse_value fuel t = Ok (v, r) -> encodable v = true)
  /\ (forall t vs r, parse_elements fuel t = Ok (vs, r) -> forallb encodable vs = true)
  /\ (forall t ms r, parse_members fuel t = Ok (ms, r) ->
        Forall (fun kv : string * value => encodable kv.2 = true) ms).
Proof.
  induction fuel as [|fuel (IHv & IHe & IHm)]; [by repeat split|].
  split; [|split].
  - intros t v r. cbn [parse_value].
    destruct (skip_ws t) as [|c t']; [done|].
    destruct (Ascii.eqb c "{").
    { destruct (expect ["}"%char] (skip_ws t')) as [r'|]; [by intros [= <- <-]|].
      destruct (parse_members fuel t') as [[ms r']| | |] eqn:E; try done.
      cbn [mbind outcome_bind obind].
      destruct (build_object ms) as [obj| | |] eqn:Eo; try done.
      cbn [mbind outcome_bind obind]. intros [= <- <-].
      eapply build_object_encodable; [|exact Eo]. by eapply IHm. }
    destruct (Ascii.eqb c "[").
    { destruct (expect ["]"%char] (skip_ws t')) as [r'|]; [by intros [= <- <-]|].
      destruct (parse_elements fuel t') as [[vs r']| | |] eqn:E; try done.
      cbn [mbind outcome_bind obind]. intros [= <- <-]. simpl. by eapply IHe. }
    destruct (Ascii.eqb c dquote).
    { destruct (parse_chars t') as [[s r']| | |]; try done.
      cbn [mbind outcome_bind obind]. by intros [= <- <-]. }
    destruct (Ascii.eqb c "n").
    { destruct (expect _ t'); [by intros [= <- <-]|done]. }
    destruct (Ascii.eqb c "t").
    { destruct (expect _ t'); [by intros [= <- <-]|done]. }
    destruct (Ascii.eqb c "f").
    { destruct (expect _ t'); [by intros [= <- <-]|done]. }
    apply parse_number_encodable.
  - intros t vs r. cbn [parse_elements].
    destruct (parse_value fuel t) as [[v r0]| | |] eqn:E; try done.
    cbn [mbind outcome_bind obind]. apply IHv in E.
    destruct (skip_ws r0) as [|c r1]; [done|].
    destruct (Ascii.eqb c ",").
    + destruct (parse_elements fuel r1) as [[vs' r2]| | |] eqn:E'; try done.
      cbn [mbind outcome_bind obind]. intros [= <- <-]. simpl.
      rewrite E. by eapply IHe.
    + destruct (Ascii.eqb c "]"); [|done]. intros [= <- <-]. simpl. by rewrite E.
  - intros t ms r. cbn [parse_members].
    destruct (expect [dquote] (skip_ws t)) as [r0|]; [|done].
    destruct (parse_chars r0) as [[k r1]| | |]; try done.
    cbn [mbind outcome_bind obind].
    destruct (expect [":"%char] (skip_ws r1)) as [r2|]; [|done].
    destruct (parse_value fuel r2) as [[v r3]| | |] eqn:E; try done.
    cbn [mbind outcome_bind obind]. apply IHv in E.
    destruct (skip_ws r3) as [|c r4]; [done|].
    destruct (Ascii.eqb c ",").
    + destruct (parse_members fuel r4) as [[ms' r5]| | |] eqn:E'; try done.
      cbn [mbind outcome_bind obind]. intros [= <- <-].
      constructor; [done|]. by eapply IHm.
    + destruct (Ascii.eqb c "}"); [|done]. intros [= <- <-]. by constructor.
Qed.

(** [JSON.parse] returns values that [JSON.stringify] gives back. *)
Lemma JSON_parse_encodable s v : JSON_parse s = Ok v -> encodable v = true.
Proof.
  unfold JSON_parse.
  destruct (parse_value _ _) as [[v' r]| | |] eqn:E; try done.
  cbn [mbind outcome_bind obind]. destruct (skip_ws r); [|done].
  intros [= <-]. by eapply (proj1 (parse_encodable _)).
Qed.

(** ** Delivery to the write-back observer *)

Lemma deliver_value next subject env v s w :
  nullish v = false -> stored (c_converter env) v = Ok s ->
  Subscriber_next next subject (WriteBack env) v w
  = (Ok (), set_item (c_storage env) (key_of env) s (log (Notified subject v) w)).
Proof.
  intros Hv Hst. unfold Subscriber_next, run_observer, writeBack. rewrite Hv.
  unfold stored in Hst. destruct (c_converter env) as [c|].
  - unfold mbind, M_bind, lift. destruct (toJson c v) as [j| | |]; try discriminate Hst.
    cbn in Hst. destruct (JSON_stringify j); try discriminate Hst.
    cbn in Hst. by injection Hst as <-.
  - unfold mbind, M_bind, lift. destruct (JSON_stringify v); try discriminate Hst.
    cbn in Hst. by injection Hst as <-.
Qed.

Lemma deliver_throw next subject env v c e w :
  nullish v = false -> c_converter env = Some c -> toJson c v = Throw e ->
  Subscriber_next next subject (WriteBack env) v w
  = (Ok (), report e (log (Notified subject v) w)).
Proof.
  intros Hv Hc He. unfold Subscriber_next, run_observer, writeBack.
  rewrite Hv, Hc. unfold mbind, M_bind, lift. by rewrite He.
Qed.

Lemma bound_lt subject env w : bound subject env w -> subject < length (subjects w).
Proof. intros [_ [v Hv]]. by apply lookup_lt_Some in Hv. Qed.

Lemma bound_assigned subject env v w :
  bound subject env w -> bound subject env (assigned subject env v w).
Proof.
  intros Hb. pose proof (bound_lt _ _ _ Hb). destruct Hb as [Hs _].
  split; [done|]. exists v. simpl. by apply list_lookup_insert_eq.
Qed.

Lemma bound_frame subject env w w' :
  subjects w' = subjects w -> bound subject env w -> bound subject env w'.
Proof. intros E [Hs Hv]. split; [done|]. by rewrite E. Qed.

Lemma next_unfold fuel subject env v w :
  bound subject env w ->
  BehaviorSubject_next (S fuel) subject v w
  = (Subscriber_next (BehaviorSubject_next fuel) subject (WriteBack env) v;; mret () : M unit)
      (assigned subject env v w).
Proof.
  intros [Hs [v0 Hb]]. cbn [BehaviorSubject_next].
  unfold mbind at 1, M_bind at 1, deref. rewrite Hb. reflexivity.
Qed.

Lemma next_value fuel subject env v s w :
  bound subject env w -> nullish v = false -> stored (c_converter env) v = Ok s ->
  BehaviorSubject_next (S fuel) subject v w
  = (Ok (), set_item (c_storage env) (key_of env) s
              (log (Notified subject v) (assigned subject env v w))).
Proof.
  intros Hb Hv Hst. rewrite (next_unfold _ _ env) by done.
  unfold mbind, M_bind. by rewrite (deliver_value _ _ _ _ s).
Qed.

Lemma deliver_null fuel subject env v s w :
  bound subject env w -> nullish v = true ->
  nullish (c_fallbackState env) = false ->
  stored (c_converter env) (c_fallbackState env) = Ok s ->
  Subscriber_next (BehaviorSubject_next (S fuel)) subject (WriteBack env) v w
  = (Ok (), set_item (c_storage env) (key_of env) s
              (log (Notified subject (c_fallbackState env))
                 (assigned subject env (c_fallbackState env)
                    (remove_item (c_storage env) (key_of env)
                       (log (Notified subject v) w))))).
Proof.
  intros Hb Hv Hf Hst. unfold Subscriber_next, run_observer, writeBack. rewrite Hv.
  unfold mbind, M_bind, Storage_removeItem, modify.
  destruct Hb as [Hs Hb]. rewrite Hs.
  rewrite (next_value _ _ env _ s); [done| |done|done].
  by apply (bound_frame _ _ w).
Qed.

Lemma next_null fuel subject env v s w :
  bound subject env w -> nullish v = true ->
  nullish (c_fallbackState env) = false ->
  stored (c_converter env) (c_fallbackState env) = Ok s ->
  BehaviorSubject_next (S (S fuel)) subject v w
  = (Ok (), set_item (c_storage env) (key_of env) s
              (log (Notified subject (c_fallbackState env))
                 (assigned subject env (c_fallbackState env)
                    (remove_item (c_storage env) (key_of env)
                       (log (Notified subject v) (assigned subject env v w)))))).
Proof.
  intros Hb Hv Hf Hst. rewrite (next_unfold _ _ env) by done.
  unfold mbind, M_bind.
  rewrite (deliver_null _ _ _ _ s); [done| |done..].
  by apply bound_assigned.
Qed.

(** With a nullish fallback the reset never settles. *)
Lemma deliver_diverges fuel subject env :
  nullish (c_fallbackState env) = true ->
  forall v w, bound subject env w -> nullish v = true ->
  (Subscriber_next (BehaviorSubject_next fuel) subject (WriteBack env) v w).1 = OutOfFuel.
Proof.
  intros Hf. induction fuel as [|fuel IH]; intros v w Hb Hv.
  - unfold Subscriber_next, run_observer, writeBack. rewrite Hv. reflexivity.
  - unfold Subscriber_next, run_observer, writeBack. rewrite Hv.
    unfold mbind, M_bind, Storage_removeItem, modify.
    pose proof Hb as [Hs _]. rewrite Hs.
    rewrite (next_unfold _ _ env); [|by apply (bound_frame _ _ w)].
    unfold mbind, M_bind.
    match goal with
    | |- context [Subscriber_next ?n ?s ?o ?x ?y] =>
        specialize (IH x y); destruct (Subscriber_next n s o x y) as [r w'] eqn:E
    end.
    simpl in IH. rewrite IH; [done| |done].
    apply bound_assigned. by apply (bound_frame _ _ w).
Qed.

Lemma next_diverges fuel subject env v w :
  bound subject env w -> nullish v = true -> nullish (c_fallbackState env) = true ->
  (BehaviorSubject_next fuel subject v w).1 = OutOfFuel.
Proof.
  intros Hb Hv Hf. destruct fuel as [|fuel]; [done|].
  rewrite (next_unfold _ _ env) by done. unfold mbind, M_bind.
  pose proof (deliver_diverges fuel subject env Hf v (assigned subject env v w)
                (bound_assigned _ _ _ _ Hb) Hv) as H.
  destruct (Subscriber_next _ _ _ _ _) as [r w']. simpl in H. by rewrite H.
Qed.

(** Whether or not it ends, a run of the observer leaves a history of
    values each followed by its one storage call. *)
Lemma deliver_history env fuel :
  storable env (c_fallbackState env) ->
  forall v w, bound (c_subject env) env w -> storable env v ->
  exists es,
    events (Subscriber_next (BehaviorSubject_next fuel) (c_subject env) (WriteBack env) v w).2
    = events w ++ es
    /\ one_operation_each env es.
Proof.
  intros Hf. induction fuel as [|fuel IH]; intros v w Hb Hv.
  - destruct (nullish v) eqn:En.
    + exists [Notified (c_subject env) v; RemoveItem (c_storage env) (key_of env)].
      split.
      * unfold Subscriber_next, run_observer, writeBack. rewrite En. simpl.
        by rewrite <- app_assoc.
      * right. by repeat split.
    + destruct Hv as [Hv|[s Hs]]; [congruence|].
      rewrite (deliver_value _ _ _ _ s) by done.
      exists [Notified (c_subject env) v; SetItem (c_storage env) (key_of env) s].
      split; [simpl; by rewrite <- app_assoc|].
      left. repeat split; eauto.
  - destruct (nullish v) eqn:En.
    + unfold Subscriber_next, run_observer, writeBack. rewrite En.
      unfold mbind, M_bind, Storage_removeItem, modify.
      rewrite (next_unfold _ _ env); [|by apply (bound_frame _ _ w)].
      unfold mbind, M_bind.
      match goal with
      | |- context [Subscriber_next ?n ?s ?o ?x ?y] =>
          destruct (IH x y) as (es & He & Hes);
          [ apply bound_assigned; by apply (bound_frame _ _ w) | done | ];
          destruct (Subscriber_next n s o x y) as [[[]| | |] w']
      end; simpl in He.
      all: exists ([Notified (c_subject env) v; RemoveItem (c_storage env) (key_of env)] ++ es).
      all: split; [simpl; rewrite He; simpl; by rewrite <- !app_assoc|].
      all: right; by repeat split.
    + destruct Hv as [Hv|[s Hs]]; [congruence|].
      rewrite (deliver_value _ _ _ _ s) by done.
      exists [Notified (c_subject env) v; SetItem (c_storage env) (key_of env) s].
      split; [simpl; by rewrite <- app_assoc|].
      left. repeat split; eauto.
Qed.

Lemma next_history env fuel v w :
  bound (c_subject env) env w ->
  storable env (c_fallbackState env) -> storable env v ->
  exists es,
    events (BehaviorSubject_next fuel (c_subject env) v w).2 = events w ++ es
    /\ one_operation_each env es.
Proof.
  intros Hb Hf Hv. destruct fuel as [|fuel].
  - exists []. by rewrite app_nil_r.
  - rewrite (next_unfold _ _ env) by done. unfold mbind, M_bind.
    destruct (deliver_history env fuel Hf v (assigned (c_subject env) env v w)
                (bound_assigned _ _ _ _ Hb) Hv) as (es & He & Hes).
    exists es. split; [|done].
    destruct (Subscriber_next _ _ _ _ _) as [[[]| | |] w']; exact He.
Qed.

Lemma for_each_never_throws {A} (l : list A) (f : A -> M unit) w e :
  (forall x w e, (f x w).1 <> Throw e) -> (for_each l f w).1 <> Throw e.
Proof.
  intros Hf. revert w. induction l as [|x l IH]; intros w; [done|].
  simpl. unfold mbind, M_bind. specialize (Hf x w).
  destruct (f x w) as [[[]| | |] w1]; simpl in *; [apply IH|by apply Hf|done|done].
Qed.

Lemma Subscriber_next_never_throws next subject o v w e :
  (Subscriber_next next subject o v w).1 <> Throw e.
Proof.
  unfold Subscriber_next. by destruct (run_observer _ _ _ _) as [[| | |] w1].
Qed.

Lemma next_never_throws fuel subject v w e :
  (BehaviorSubject_next fuel subject v w).1 <> Throw e.
Proof.
  destruct fuel as [|fuel]; [done|].
  cbn [BehaviorSubject_next]. unfold mbind at 1, M_bind at 1, deref.
  destruct (subjects w !! subject) as [s|]; [|done].
  unfold mbind, M_bind, assign, modify.
  apply for_each_never_throws. intros. apply Subscriber_next_never_throws.
Qed.

(** ** What a publish leaves alone *)

Lemma extends_refl w : extends w w.
Proof. repeat split. exists []. by rewrite app_nil_r. Qed.

Lemma extends_trans w1 w2 w3 : extends w1 w2 -> extends w2 w3 -> extends w1 w3.
Proof.
  intros (Hs1 & Ho1 & es1 & He1 & Hr1) (Hs2 & Ho2 & es2 & He2 & Hr2).
  split; [congruence|]. split; [congruence|].
  exists (es1 ++ es2). split; [by rewrite He2, He1, app_assoc|by apply Forall_app].
Qed.

Lemma extends_step w w' e :
  length (subjects w') = length (subjects w) -> objects w' = objects w ->
  events w' = events w ++ [e] -> is_read e = false -> extends w w'.
Proof. intros Hs Ho He Hr. repeat split; [done..|]. exists [e]. split; [done|]. by constructor. Qed.

Lemma extends_silent w w' :
  length (subjects w') = length (subjects w) -> objects w' = objects w ->
  events w' = events w -> extends w w'.
Proof. intros Hs Ho He. repeat split; [done..|]. exists []. by rewrite app_nil_r. Qed.

Lemma extends_remove_item storage key w : extends w (remove_item storage key w).
Proof. by apply (extends_step _ _ (RemoveItem storage key)). Qed.

Lemma extends_set_item storage key item w : extends w (set_item storage key item w).
Proof. by apply (extends_step _ _ (SetItem storage key item)). Qed.

Lemma extends_report e w : extends w (report e w).
Proof. by apply extends_silent. Qed.

Lemma deliver_extends (next : nat -> value -> M unit) subject o v w :
  (forall a x w, extends w (next a x w).2) ->
  extends w (Subscriber_next next subject o v w).2.
Proof.
  intros Hnext.
  apply (extends_trans _ (log (Notified subject v) w)).
  { by apply (extends_step _ _ (Notified subject v)). }
  unfold Subscriber_next. generalize (log (Notified subject v) w). clear w. intros w.
  destruct o as [env]. unfold run_observer, writeBack.
  destruct (nullish v).
  - unfold mbind, M_bind, Storage_removeItem, modify.
    match goal with
    | |- context [next ?a ?x ?y] =>
        specialize (Hnext a x y); destruct (next a x y) as [[[]|e| |] w1]
    end; simpl in *.
    all: eapply extends_trans; [apply extends_remove_item|].
    all: first [exact Hnext | eapply extends_trans; [exact Hnext|apply extends_report]].
  - destruct (c_converter env) as [c|]; unfold mbind, M_bind, lift.
    + destruct (toJson c v) as [j|e| |]; simpl;
        [destruct (JSON_stringify j) as [s|e| |]; simpl|..].
      all: first [apply extends_set_item | apply extends_report | apply extends_refl].
    + destruct (JSON_stringify v) as [s|e| |]; simpl.
      all: first [apply extends_set_item | apply extends_report | apply extends_refl].
Qed.

Lemma for_each_extends {A} (l : list A) (f : A -> M unit) w :
  (forall x w, extends w (f x w).2) -> extends w (for_each l f w).2.
Proof.
  intros Hf. revert w. induction l as [|x l IH]; intros w; [apply extends_refl|].
  simpl. unfold mbind, M_bind. specialize (Hf x w).
  destruct (f x w) as [[[]| | |] w1]; simpl in *; [|done..].
  eapply extends_trans; [exact Hf|apply IH].
Qed.

Lemma next_extends fuel : forall subject v w, extends w (BehaviorSubject_next fuel subject v w).2.
Proof.
  induction fuel as [|fuel IH]; intros subject v w; [apply extends_refl|].
  cbn [BehaviorSubject_next]. unfold mbind at 1, M_bind at 1, deref.
  destruct (subjects w !! subject) as [s|]; [|apply extends_refl].
  unfold mbind, M_bind, assign, modify.
  eapply extends_trans; [|apply for_each_extends; intros; by apply deliver_extends].
  apply extends_silent; [|done..]. simpl. by rewrite length_insert.
Qed.

(** ** Construction *)

Lemma key_not_empty storageKey :
  storageKey <> EmptyString -> String.eqb storageKey EmptyString = false.
Proof. by destruct storageKey. Qed.

Lemma construct_throw storage keyPrefix storageKey fallbackState converter w fuel e :
  storageKey <> EmptyString ->
  initial_value (items w storage !! (keyPrefix +:+ storageKey)) fallbackState converter
  = Throw e ->
  storageFactory storage keyPrefix storageKey fallbackState converter fuel w
  = (Throw e, log (GetItem storage (keyPrefix +:+ storageKey)) w).
Proof.
  intros Hk He. unfold storageFactory. rewrite key_not_empty by done.
  unfold mbind, M_bind, Storage_getItem, lift. simpl. by rewrite He.
Qed.

Lemma bound_created storage keyPrefix storageKey fallbackState converter w v :
  let env := closure storage keyPrefix storageKey fallbackState converter
               (length (subjects w)) in
  bound (length (subjects w)) env (created env v w).
Proof.
  split; [done|]. exists v. simpl. by apply list_lookup_middle.
Qed.

(** Once the key is accepted and the stored string decoded, what is
    left of the construction is the first run of the observer. *)
Lemma construct_deliver storage keyPrefix storageKey fallbackState converter w fuel v :
  let subject := length (subjects w) in
  let env := closure storage keyPrefix storageKey fallbackState converter subject in
  storageKey <> EmptyString ->
  initial_value (items w storage !! (keyPrefix +:+ storageKey)) fallbackState converter
  = Ok v ->
  storageFactory storage keyPrefix storageKey fallbackState converter fuel w
  = (Subscriber_next (BehaviorSubject_next fuel) subject (WriteBack env) v;;
     mret subject : M nat) (created env v w).
Proof.
  intros subject env Hk Hv. unfold storageFactory. rewrite key_not_empty by done.
  unfold mbind at 1, M_bind at 1, Storage_getItem.
  unfold mbind at 1, M_bind at 1, lift. simpl. rewrite Hv.
  unfold mbind at 1, M_bind at 1, new_BehaviorSubject.
  unfold BehaviorSubject_subscribe.
  unfold mbind at 1, M_bind at 1.
  unfold mbind at 1, M_bind at 1, deref. simpl.
  rewrite list_lookup_middle by done.
  unfold mbind at 1, M_bind at 1, assign, modify. simpl.
  rewrite insert_app_r_alt, Nat.sub_diag by done. simpl.
  reflexivity.
Qed.

(** With a key that is not empty, the first thing the construction
    does is to read the storage, whatever comes of it. *)
Lemma construct_reads storage keyPrefix storageKey fallbackState converter fuel w :
  storageKey <> EmptyString ->
  exists es,
    events (storageFactory storage keyPrefix storageKey fallbackState converter fuel w).2
    = events w ++ GetItem storage (keyPrefix +:+ storageKey) :: es
    /\ Forall (fun e => is_read e = false) es.
Proof.
  intros Hk.
  destruct (initial_value (items w storage !! (keyPrefix +:+ storageKey)) fallbackState converter)
    as [v|e| |] eqn:Hi.
  2: { rewrite (construct_throw _ _ _ _ _ _ _ e) by done. by exists []. }
  2,3: unfold storageFactory; rewrite key_not_empty by done;
       unfold mbind, M_bind, Storage_getItem, lift; simpl;
       rewrite Hi; by exists [].
  rewrite (construct_deliver _ _ _ _ _ _ _ v) by done.
  unfold mbind, M_bind.
  match goal with
  | |- context [Subscriber_next ?n ?s ?o ?x ?y] =>
      destruct (deliver_extends n s o x y (next_extends fuel)) as (_ & _ & es & He & Hr);
      destruct (Subscriber_next n s o x y) as [[[]| | |] w1]
  end; simpl in *.
  all: exists es; split; [|done]; rewrite He; by rewrite <- app_assoc.
Qed.

Lemma construct_succeeds storage keyPrefix storageKey fallbackState converter fuel w subject w' :
  storageFactory storage keyPrefix storageKey fallbackState converter fuel w = (Ok subject, w') ->
  subject = length (subjects w)
  /\ length (subjects w') = S (length (subjects w))
  /\ objects w' = objects w
  /\ exists es, events w' = events w ++ GetItem storage (keyPrefix +:+ storageKey) :: es
                /\ Forall (fun e => is_read e = false) es.
Proof.
  intros H.
  destruct (String.eqb_spec storageKey EmptyString) as [->|Hk]; [done|].
  destruct (initial_value (items w storage !! (keyPrefix +:+ storageKey)) fallbackState converter)
    as [v|e| |] eqn:Hi.
  2: { rewrite (construct_throw _ _ _ _ _ _ _ e) in H; done. }
  2,3: unfold storageFactory in H; rewrite key_not_empty in H by done;
       unfold mbind, M_bind, Storage_getItem, lift in H; simpl in H;
       rewrite Hi in H; done.
  rewrite (construct_deliver _ _ _ _ _ _ _ v) in H by done.
  unfold mbind, M_bind in H.
  match type of H with
  | context [Subscriber_next ?n ?s ?o ?x ?y] =>
      pose proof (deliver_extends n s o x y (next_extends fuel)) as He;
      destruct (Subscriber_next n s o x y) as [[[]| | |] w1]
  end; simpl in *; try done.
  injection H as <- <-. destruct He as (Hs & Ho & es & He & Hr).
  unfold created in *. simpl in *.
  split; [done|]. split; [|split; [done|]].
  - rewrite Hs, length_app. simpl. lia.
  - exists es. split; [|done]. rewrite He. by rewrite <- app_assoc.
Qed.

Lemma construct_diverges storage keyPrefix storageKey fallbackState converter fuel w v :
  storageKey <> EmptyString ->
  initial_value (items w storage !! (keyPrefix +:+ storageKey)) fallbackState converter = Ok v ->
  nullish v = true -> nullish fallbackState = true ->
  (storageFactory storage keyPrefix storageKey fallbackState converter fuel w).1 = OutOfFuel.
Proof.
  intros Hk Hi Hv Hf. rewrite (construct_deliver _ _ _ _ _ _ _ v) by done.
  unfold mbind, M_bind.
  match goal with
  | |- context [Subscriber_next ?n ?s (WriteBack ?e) ?x ?y] =>
      pose proof (deliver_diverges fuel s e Hf x y (bound_created _ _ _ _ _ _ _) Hv) as H;
      destruct (Subscriber_next n s (WriteBack e) x y) as [r w']
  end.
  simpl in H. by rewrite H.
Qed.

Lemma current_value_created env v w :
  current_value (length (subjects w)) (created env v w) = Some v.
Proof. unfold current_value. simpl. by rewrite list_lookup_middle. Qed.

Lemma current_value_assigned subject env v w :
  subject < length (subjects w) ->
  current_value subject (assigned subject env v w) = Some v.
Proof. intros H. unfold current_value. simpl. by rewrite list_lookup_insert_eq. Qed.

Lemma truthy_nonempty s : s <> EmptyString -> truthy (Some s) = Some s.
Proof. by destruct s. Qed.

(** A binding that publishes [v], storing [s], followed by the
    construction of a second binding that decodes [s] as [v']. *)
Lemma publish_then_construct storage keyPrefix storageKey fallbackState converter
    subject w v s fallbackState' converter' v' fuel fuel' :
  let env := closure storage keyPrefix storageKey fallbackState converter subject in
  bound subject env w ->
  storageKey <> EmptyString ->
  nullish v = false -> stored converter v = Ok s ->
  initial_value (Some s) fallbackState' converter' = Ok v' ->
  nullish v' = false -> (exists s', stored converter' v' = Ok s') ->
  exists w1 subject' w2,
    BehaviorSubject_next (S fuel) subject v w = (Ok (), w1)
    /\ storageFactory storage keyPrefix storageKey fallbackState' converter' fuel' w1
       = (Ok subject', w2)
    /\ current_value subject' w2 = Some v'.
Proof.
  intros env Hb Hk Hv Hs Hi Hv' [s' Hs'].
  eexists _, _, _. split; [by apply (next_value _ _ env _ s)|]. split.
  - rewrite (construct_deliver _ _ _ _ _ _ _ v'); [|done|].
    + unfold mbind, M_bind. by rewrite (deliver_value _ _ _ _ s').
    + simpl. rewrite fn_lookup_insert. unfold key_of. simpl.
      by rewrite lookup_insert_eq.
  - simpl. unfold current_value. simpl. by rewrite list_lookup_middle.
Qed.

Lemma scenario_bound : bound 0 scenario_env scenario_x.2.
Proof. split; [done|]. eexists. by vm_compute. Qed.

(** ** Construction over an empty store (C1) *)

(** C1, as amended. For a non-empty key and a fallback that is not
    nullish and can be stored, the construction of a binding over a
    store with no entry under the namespaced key returns a container
    whose current value is the fallback. The construction reads the
    store once and then writes the stored form of the fallback under
    the namespaced key: the subject hands its initial value to the
    write-back observer at subscription. *)
Theorem construct_on_absent_entry storage keyPrefix storageKey fallbackState converter fuel w s :
  storageKey <> EmptyString ->
  nullish fallbackState = false ->
  items w storage !! (keyPrefix +:+ storageKey) = None ->
  stored converter fallbackState = Ok s ->
  exists subject w',
    storageFactory storage keyPrefix storageKey fallbackState converter fuel w = (Ok subject, w')
    /\ current_value subject w' = Some fallbackState
    /\ events w' = events w ++ [GetItem storage (keyPrefix +:+ storageKey);
                                Notified subject fallbackState;
                                SetItem storage (keyPrefix +:+ storageKey) s]
    /\ items w' storage = <[keyPrefix +:+ storageKey := s]> (items w storage).
Proof.
  intros Hk Hf Habsent Hs.
  eexists _, _. split; [|split; [|split]].
  - rewrite (construct_deliver _ _ _ _ _ _ _ fallbackState); [|done|by rewrite Habsent].
    unfold mbind, M_bind. rewrite (deliver_value _ _ _ _ s); done.
  - apply current_value_created.
  - simpl. by rewrite <- !app_assoc.
  - simpl. by rewrite fn_lookup_insert.
Qed.

Lemma construct_on_absent_entry_witness :
  exists subject w',
    scenario_binding = (Ok subject, w')
    /\ current_value subject w' = Some (VStr "d")
    /\ events w' = events empty_world ++
         [GetItem localStorage (STORAGE_KEYS_PREFIX +:+ "k");
          Notified subject (VStr "d");
          SetItem localStorage (STORAGE_KEYS_PREFIX +:+ "k") (ToString (stringify (VStr "d")))]
    /\ items w' localStorage
       = <[STORAGE_KEYS_PREFIX +:+ "k" := ToString (stringify (VStr "d"))]>
           (items empty_world localStorage).
Proof.
  apply (construct_on_absent_entry localStorage STORAGE_KEYS_PREFIX "k" (VStr "d") None 2
           empty_world); [discriminate|reflexivity|reflexivity|reflexivity].
Defined.

(** C1 as stated fails: in the scenario of the specification (store
    empty, key [k], fallback [d]) the construction succeeds with the
    fallback as current value, and its history holds an update of the
    store. *)
Lemma construction_writes :
  scenario_binding.1 = Ok 0
  /\ items empty_world localStorage !! (STORAGE_KEYS_PREFIX +:+ "k") = None
  /\ current_value 0 scenario_binding.2 = Some (VStr "d")
  /\ ~ Forall (fun e => is_update e = false) (events scenario_binding.2).
Proof.
  split; [by vm_compute|]. split; [reflexivity|]. split; [by vm_compute|].
  intros H. apply Forall_forall with (x := SetItem localStorage (STORAGE_KEYS_PREFIX +:+ "k")
                                             (ToString (stringify (VStr "d")))) in H.
  - discriminate H.
  - vm_compute. do 2 right. left.
Qed.

(** ** Publishing null (C2, C9, C3) *)

(** C2, as amended. On a binding whose fallback is not nullish,
    publishing [null] (or [undefined]) resets the current value to the
    fallback; the entry is removed, and before the publish returns the
    re-published fallback is written back under the same key: when the
    publish has returned, the store holds the stored form of the
    fallback under the namespaced key. *)
Theorem publish_null_history subject env v s fuel w :
  bound subject env w ->
  nullish v = true ->
  nullish (c_fallbackState env) = false ->
  stored (c_converter env) (c_fallbackState env) = Ok s ->
  exists w',
    BehaviorSubject_next (S (S fuel)) subject v w = (Ok (), w')
    /\ current_value subject w' = Some (c_fallbackState env)
    /\ events w' = events w ++ [Notified subject v;
                                RemoveItem (c_storage env) (key_of env);
                                Notified subject (c_fallbackState env);
                                SetItem (c_storage env) (key_of env) s]
    /\ items w' (c_storage env) !! key_of env = Some s.
Proof.
  intros Hb Hv Hf Hs. eexists. split; [by apply (next_null _ _ env _ s)|].
  split; [|split].
  - apply (current_value_assigned subject env). simpl. rewrite length_insert.
    by apply (bound_lt _ env).
  - simpl. by rewrite <- !app_assoc.
  - simpl. rewrite !fn_lookup_insert. apply lookup_insert_eq.
Qed.

Lemma publish_null_history_witness :
  bound 0 scenario_env scenario_x.2 /\
  exists w',
    BehaviorSubject_next 2 0 VNull scenario_x.2 = (Ok (), w')
    /\ current_value 0 w' = Some (VStr "d")
    /\ events w' = events scenario_x.2 ++
         [Notified 0 VNull;
          RemoveItem localStorage (key_of scenario_env);
          Notified 0 (VStr "d");
          SetItem localStorage (key_of scenario_env) (ToString (stringify (VStr "d")))]
    /\ items w' localStorage !! key_of scenario_env = Some (ToString (stringify (VStr "d"))).
Proof.
  split; [exact scenario_bound|].
  apply (publish_null_history 0 scenario_env VNull _ 0 scenario_x.2);
    [exact scenario_bound|reflexivity|reflexivity|reflexivity].
Defined.

(** C2 as stated fails: in the scenario of the specification, after
    the publish of [null] has returned the store holds an entry under
    the namespaced key. *)
Lemma publish_null_leaves_entry :
  scenario_x.1 = Ok ()
  /\ scenario_null.1 = Ok ()
  /\ current_value 0 scenario_null.2 = Some (VStr "d")
  /\ items scenario_null.2 localStorage !! (STORAGE_KEYS_PREFIX +:+ "k") <> None.
Proof.
  split; [by vm_compute|]. split; [by vm_compute|]. split; [by vm_compute|].
  by vm_compute.
Qed.

(** C9. On a binding whose fallback is not nullish, after a publish of
    a nullish value has returned, the store holds the stored form of
    the fallback under the namespaced key (the removal is followed, in
    the same pass, by the write of the re-published fallback), and the
    current value is the fallback. *)
Theorem publish_null_stores_fallback subject env v s fuel w :
  bound subject env w ->
  nullish v = true ->
  nullish (c_fallbackState env) = false ->
  stored (c_converter env) (c_fallbackState env) = Ok s ->
  exists w',
    BehaviorSubject_next (S (S fuel)) subject v w = (Ok (), w')
    /\ items w' (c_storage env) !! key_of env = Some s
    /\ items w' (c_storage env) = <[key_of env := s]> (delete (key_of env) (items w (c_storage env)))
    /\ current_value subject w' = Some (c_fallbackState env).
Proof.
  intros Hb Hv Hf Hs. eexists. split; [by apply (next_null _ _ env _ s)|].
  assert (forall f : StorageRef -> gmap string string,
            <[c_storage env := <[key_of env := s]>
               (<[c_storage env := delete (key_of env) (f (c_storage env))]> f (c_storage env))]>
              (<[c_storage env := delete (key_of env) (f (c_storage env))]> f) (c_storage env)
            = <[key_of env := s]> (delete (key_of env) (f (c_storage env)))) as Hitems.
  { intros f. by rewrite !fn_lookup_insert. }
  split; [|split].
  - simpl. rewrite Hitems. apply lookup_insert_eq.
  - simpl. apply Hitems.
  - apply (current_value_assigned subject env). simpl. rewrite length_insert.
    by apply (bound_lt _ env).
Qed.

Lemma publish_null_stores_fallback_witness :
  bound 0 scenario_env scenario_x.2 /\
  exists w',
    BehaviorSubject_next 2 0 VNull scenario_x.2 = (Ok (), w')
    /\ items w' localStorage !! key_of scenario_env = Some (ToString (stringify (VStr "d")))
    /\ items w' localStorage
       = <[key_of scenario_env := ToString (stringify (VStr "d"))]>
           (delete (key_of scenario_env) (items scenario_x.2 localStorage))
    /\ current_value 0 w' = Some (VStr "d").
Proof.
  split; [exact scenario_bound|].
  apply (publish_null_stores_fallback 0 scenario_env VNull _ 0 scenario_x.2);
    [exact scenario_bound|reflexivity|reflexivity|reflexivity].
Defined.

(** C3 fails on the code. With a [null] fallback the reset publishes
    [null] again, without end: no amount of fuel lets the construction
    over an empty store return, nor the publish of [null] on a binding
    built over a store that holds [1]. *)
Theorem null_fallback_never_settles (fuel : nat) :
  (storageFactory localStorage STORAGE_KEYS_PREFIX "k" VNull None fuel empty_world).1 = OutOfFuel
  /\ null_fallback_binding.1 = Ok 0
  /\ current_value 0 null_fallback_binding.2 = Some (VNum (Int 1))
  /\ (BehaviorSubject_next fuel 0 VNull null_fallback_binding.2).1 = OutOfFuel.
Proof.
  split; [|split; [|split]].
  - by apply (construct_diverges _ _ _ _ _ _ _ VNull).
  - by vm_compute.
  - by vm_compute.
  - apply (next_diverges _ _ (closure localStorage STORAGE_KEYS_PREFIX "k" VNull None 0));
      [|done|done].
    split; [done|]. eexists. by vm_compute.
Qed.

(** ** One storage call for each value (C4) *)

Lemma next_throw fuel subject env c v e w :
  bound subject env w -> c_converter env = Some c -> nullish v = false ->
  toJson c v = Throw e ->
  BehaviorSubject_next (S fuel) subject v w
  = (Ok (), report e (log (Notified subject v) (assigned subject env v w))).
Proof.
  intros Hb Hc Hv He. rewrite (next_unfold _ _ env) by done.
  unfold mbind, M_bind. by rewrite (deliver_throw _ _ _ _ c e).
Qed.

Lemma date_bound : bound 0 date_env date_binding.2.
Proof. split; [reflexivity|]. eexists. reflexivity. Qed.

(** C4, as amended. Every value that reaches the container and on
    which the converter, if any, returns ([settles], [storable]) has
    exactly one storage call made for it: a removal for a nullish
    value, a write of its stored form otherwise. This holds for the
    value the subject is created with (after the one read of the
    construction), for every value published later, and for the
    fallback that replaces a nullish value; the calls are in the
    history when the construction or the publish returns. The third
    part states the same of every run of a publish, whether it ends or
    not. A value that is not nullish and on which [toJson] throws has
    no storage call made for it, neither at construction nor at a
    publish: the call returns, the exception is reported apart. *)
Theorem every_value_one_operation storage keyPrefix storageKey fallbackState converter :
  (forall w fuel v,
     let subject := length (subjects w) in
     let env := closure storage keyPrefix storageKey fallbackState converter subject in
     storageKey <> EmptyString ->
     initial_value (items w storage !! (keyPrefix +:+ storageKey)) fallbackState converter = Ok v ->
     settles env v ->
     exists w' es,
       storageFactory storage keyPrefix storageKey fallbackState converter (S fuel) w
       = (Ok subject, w')
       /\ events w' = events w ++ GetItem storage (keyPrefix +:+ storageKey) :: Notified subject v :: es
       /\ one_operation_each env (Notified subject v :: es))
  /\
  (forall subject w fuel v,
     let env := closure storage keyPrefix storageKey fallbackState converter subject in
     bound subject env w ->
     settles env v ->
     exists w' es,
       BehaviorSubject_next (S (S fuel)) subject v w = (Ok (), w')
       /\ events w' = events w ++ Notified subject v :: es
       /\ one_operation_each env (Notified subject v :: es))
  /\
  (forall subject w fuel v,
     let env := closure storage keyPrefix storageKey fallbackState converter subject in
     bound subject env w ->
     storable env fallbackState -> storable env v ->
     exists es,
       events (BehaviorSubject_next fuel subject v w).2 = events w ++ es
       /\ one_operation_each env es)
  /\
  (forall c w fuel v e,
     let subject := length (subjects w) in
     storageKey <> EmptyString ->
     initial_value (items w storage !! (keyPrefix +:+ storageKey)) fallbackState converter = Ok v ->
     converter = Some c -> nullish v = false -> toJson c v = Throw e ->
     exists w',
       storageFactory storage keyPrefix storageKey fallbackState converter fuel w
       = (Ok subject, w')
       /\ events w' = events w ++ [GetItem storage (keyPrefix +:+ storageKey); Notified subject v]
       /\ items w' = items w
       /\ unhandled w' = unhandled w ++ [e])
  /\
  (forall c subject w fuel v e,
     let env := closure storage keyPrefix storageKey fallbackState converter subject in
     bound subject env w ->
     converter = Some c -> nullish v = false -> toJson c v = Throw e ->
     exists w',
       BehaviorSubject_next (S fuel) subject v w = (Ok (), w')
       /\ events w' = events w ++ [Notified subject v]
       /\ items w' = items w
       /\ unhandled w' = unhandled w ++ [e]).
Proof.
  split; [|split; [|split; [|split]]].
  - intros w fuel v subject env Hk Hi Hv. unfold settles in Hv.
    rewrite (construct_deliver _ _ _ _ _ _ _ v) by done. fold subject env.
    unfold mbind, M_bind.
    destruct (nullish v) eqn:En.
    + destruct Hv as [Hf [s Hs]].
      rewrite (deliver_null _ _ _ _ s); [|by apply bound_created|done..].
      eexists _, [_; _; _]. split; [done|]. split.
      * simpl. by rewrite <- !app_assoc.
      * right. do 3 (split; [done|]). left. repeat split; eauto.
    + destruct Hv as [s Hs]. rewrite (deliver_value _ _ _ _ s) by done.
      eexists _, [_]. split; [done|]. split.
      * simpl. by rewrite <- !app_assoc.
      * left. repeat split; eauto.
  - intros subject w fuel v env Hb Hv. unfold settles in Hv.
    destruct (nullish v) eqn:En.
    + destruct Hv as [Hf [s Hs]].
      rewrite (next_null _ _ env _ s) by done.
      eexists _, [_; _; _]. split; [done|]. split.
      * simpl. by rewrite <- !app_assoc.
      * right. do 3 (split; [done|]). left. repeat split; eauto.
    + destruct Hv as [s Hs]. rewrite (next_value _ _ env _ s) by done.
      eexists _, [_]. split; [done|]. split.
      * simpl. by rewrite <- !app_assoc.
      * left. repeat split; eauto.
  - intros subject w fuel v env Hb Hf Hv.
    by apply (next_history env fuel v w).
  - intros c w fuel v e subject Hk Hi Hc Hv He.
    rewrite (construct_deliver _ _ _ _ _ _ _ v) by done. fold subject.
    unfold mbind, M_bind. rewrite (deliver_throw _ _ _ _ c e) by done.
    eexists. split; [done|]. split; [|done].
    simpl. by rewrite <- !app_assoc.
  - intros c subject w fuel v e env Hb Hc Hv He.
    rewrite (next_throw _ _ env c v e) by done.
    eexists. by split.
Qed.

Lemma every_value_one_operation_witness :
  (exists w' es,
     scenario_binding = (Ok 0, w')
     /\ events w' = events empty_world ++
          GetItem localStorage (STORAGE_KEYS_PREFIX +:+ "k") :: Notified 0 (VStr "d") :: es
     /\ one_operation_each scenario_env (Notified 0 (VStr "d") :: es))
  /\
  (exists w' es,
     scenario_null = (Ok (), w')
     /\ events w' = events scenario_x.2 ++ Notified 0 VNull :: es
     /\ one_operation_each scenario_env (Notified 0 VNull :: es))
  /\
  (exists w',
     BehaviorSubject_next 1 0 (VObj []) date_binding.2 = (Ok (), w')
     /\ events w' = events date_binding.2 ++ [Notified 0 (VObj [])]
     /\ items w' = items date_binding.2
     /\ unhandled w' = unhandled date_binding.2
                       ++ [TypeError "Cannot read properties of null or undefined"]).
Proof.
  destruct (every_value_one_operation localStorage STORAGE_KEYS_PREFIX "k" (VStr "d") None)
    as (Hconstruct & Hpublish & _).
  destruct (every_value_one_operation sessionStorage STORAGE_KEYS_PREFIX "testKey2"
              (VObj [("date", DEFAULT_DATE)]) (Some testkey2Converter))
    as (_ & _ & _ & _ & Hthrow).
  split; [|split].
  - apply (Hconstruct empty_world 1 (VStr "d")); [discriminate|reflexivity|].
    eexists. reflexivity.
  - apply (Hpublish 0 scenario_x.2 0 VNull); [exact scenario_bound|].
    split; [reflexivity|]. eexists. reflexivity.
  - apply (Hthrow testkey2Converter 0 date_binding.2 0 (VObj []));
      [exact date_bound|reflexivity|reflexivity|reflexivity].
Defined.

(** C4 as stated fails: on the binding of [sessionStorageValue2] of
    storage.spec.ts, the publish of an object without [date] returns
    and leaves a history in which the value is followed by no storage
    call at all ([toJson] throws on it). *)
Lemma value_without_operation :
  date_binding.1 = Ok 0
  /\ (BehaviorSubject_next 2 0 (VObj []) date_binding.2).1 = Ok ()
  /\ events (BehaviorSubject_next 2 0 (VObj []) date_binding.2).2
     = events date_binding.2 ++ [Notified 0 (VObj [])]
  /\ Forall (fun e => is_update e = false) [Notified 0 (VObj [])]
  /\ ~ one_operation_each date_env [Notified 0 (VObj [])].
Proof.
  assert (BehaviorSubject_next 2 0 (VObj []) date_binding.2
          = (Ok (), report (TypeError "Cannot read properties of null or undefined")
                      (log (Notified 0 (VObj [])) (assigned 0 date_env (VObj []) date_binding.2))))
    as E.
  { by apply (next_throw 1 0 date_env testkey2Converter); [exact date_bound|..]. }
  rewrite E. split; [reflexivity|]. split; [reflexivity|]. split; [reflexivity|].
  split; [by repeat constructor|]. intros [].
Qed.

(** ** Round trips (C5, C6) *)

(** C5. Without converter: publishing an encodable value that is not
    [null] through a binding, then constructing a fresh binding over
    the same store, prefix and key, gives a container whose current
    value is that value. *)
Theorem round_trip_without_converter storage keyPrefix storageKey fallbackState
    subject w v fallbackState' fuel fuel' :
  let env := closure storage keyPrefix storageKey fallbackState None subject in
  bound subject env w ->
  storageKey <> EmptyString ->
  encodable v = true ->
  nullish v = false ->
  exists w1 subject' w2,
    BehaviorSubject_next (S fuel) subject v w = (Ok (), w1)
    /\ storageFactory storage keyPrefix storageKey fallbackState' None fuel' w1
       = (Ok subject', w2)
    /\ current_value subject' w2 = Some v.
Proof.
  intros env Hb Hk Henc Hv.
  destruct (JSON_parse_stringify v Henc) as (s & Hs & Hne & Hp).
  apply (publish_then_construct storage keyPrefix storageKey fallbackState None
           subject w v s fallbackState' None v); try done.
  - simpl. by rewrite Hs.
  - unfold initial_value. by rewrite truthy_nonempty.
  - exists s. simpl. by rewrite Hs.
Qed.

Lemma round_trip_without_converter_witness :
  bound 0 scenario_env scenario_binding.2 /\
  exists w1 subject' w2,
    BehaviorSubject_next 1 0 (VStr "x") scenario_binding.2 = (Ok (), w1)
    /\ storageFactory localStorage STORAGE_KEYS_PREFIX "k" (VStr "other") None 0 w1
       = (Ok subject', w2)
    /\ current_value subject' w2 = Some (VStr "x").
Proof.
  assert (bound 0 scenario_env scenario_binding.2) as Hb.
  { split; [done|]. eexists. by vm_compute. }
  split; [exact Hb|].
  apply (round_trip_without_converter localStorage STORAGE_KEYS_PREFIX "k" (VStr "d") 0
           scenario_binding.2 (VStr "x") (VStr "other") 0 0);
    [exact Hb|discriminate|reflexivity|reflexivity].
Defined.

Local Open Scope Z_scope.

Lemma date_stored t :
  safe t = true ->
  stored (Some testkey2Converter) (VObj [("date", VDate (Some t))])
  = Ok (ToString (stringify (VObj [("date", VNum (Int t))]))).
Proof.
  intros Ht. unfold stored. cbn [toJson testkey2Converter Get_date]. simpl.
  unfold JSON_stringify. simpl. by rewrite Ht.
Qed.

Lemma time_value_safe t : Z.abs t <= MAX_TIME -> safe t = true.
Proof. intros Ht. apply safe_spec. unfold MAX_TIME, MAX_SAFE_INTEGER in *. lia. Qed.

Lemma date_encodable t : Z.abs t <= MAX_TIME -> encodable (VObj [("date", VNum (Int t))]) = true.
Proof. intros Ht. simpl. by rewrite time_value_safe. Qed.

(** C6. With the converter of storage.spec.ts: publishing
    [{date: D}] for a date [D] (a time value within the range of
    dates), then constructing a fresh binding with the same store,
    prefix, key and converter, gives a container whose current value is
    [{date: D}], to the millisecond. *)
Theorem round_trip_with_converter storage keyPrefix storageKey fallbackState
    subject w t fallbackState' fuel fuel' :
  let env := closure storage keyPrefix storageKey fallbackState (Some testkey2Converter) subject in
  bound subject env w ->
  storageKey <> EmptyString ->
  Z.abs t <= MAX_TIME ->
  exists w1 subject' w2,
    BehaviorSubject_next (S fuel) subject (VObj [("date", VDate (Some t))]) w = (Ok (), w1)
    /\ storageFactory storage keyPrefix storageKey fallbackState' (Some testkey2Converter) fuel' w1
       = (Ok subject', w2)
    /\ current_value subject' w2 = Some (VObj [("date", VDate (Some t))]).
Proof.
  intros env Hb Hk Ht.
  destruct (JSON_parse_stringify _ (date_encodable t Ht)) as (s & Hs & Hne & Hp).
  assert (stored (Some testkey2Converter) (VObj [("date", VDate (Some t))]) = Ok s) as Hst.
  { rewrite date_stored by by apply time_value_safe.
    unfold JSON_stringify in Hs. rewrite (encodable_in_model _ (date_encodable t Ht)) in Hs.
    replace (stringify (VObj [("date", VNum (Int t))])) with (Some s) by congruence.
    done. }
  apply (publish_then_construct storage keyPrefix storageKey fallbackState
           (Some testkey2Converter) subject w (VObj [("date", VDate (Some t))]) s
           fallbackState' (Some testkey2Converter) (VObj [("date", VDate (Some t))]));
    try done.
  - unfold initial_value. rewrite truthy_nonempty by done. rewrite Hp.
    simpl. unfold TimeClip. by destruct (Z.leb_spec (Z.abs t) MAX_TIME); [|lia].
  - by exists s.
Qed.

Lemma round_trip_with_converter_witness :
  bound 0 date_env date_binding.2 /\ Z.abs 1730609999123 <= MAX_TIME /\
  exists w1 subject' w2,
    BehaviorSubject_next 1 0 (VObj [("date", VDate (Some 1730609999123))]) date_binding.2
    = (Ok (), w1)
    /\ storageFactory sessionStorage STORAGE_KEYS_PREFIX "testKey2" (VObj [("date", DEFAULT_DATE)])
         (Some testkey2Converter) 0 w1
       = (Ok subject', w2)
    /\ current_value subject' w2 = Some (VObj [("date", VDate (Some 1730609999123))]).
Proof.
  assert (bound 0 date_env date_binding.2) as Hb.
  { split; [reflexivity|]. eexists. reflexivity. }
  assert (Z.abs 1730609999123 <= MAX_TIME) as Ht by (by vm_compute).
  split; [exact Hb|]. split; [exact Ht|].
  apply (round_trip_with_converter sessionStorage STORAGE_KEYS_PREFIX "testKey2"
           (VObj [("date", DEFAULT_DATE)]) 0 date_binding.2 1730609999123
           (VObj [("date", DEFAULT_DATE)]) 0 0); [exact Hb|discriminate|exact Ht].
Defined.

Local Close Scope Z_scope.

(** ** Errors at construction (C7, C8) *)

(** C7. The construction with an empty key throws the error whose
    message quotes the key, and leaves the world as it was: no storage
    call, no subject. The check is what keeps the storage untouched:
    with any other key the construction starts by reading it. *)
Theorem empty_key_is_rejected storage keyPrefix fallbackState converter fuel w :
  storageFactory storage keyPrefix EmptyString fallbackState converter fuel w
  = (Throw (key_error EmptyString), w)
  /\ forall storageKey,
       storageKey <> EmptyString ->
       exists es,
         events (storageFactory storage keyPrefix storageKey fallbackState converter fuel w).2
         = events w ++ GetItem storage (keyPrefix +:+ storageKey) :: es.
Proof.
  split; [reflexivity|].
  intros storageKey Hk.
  destruct (construct_reads storage keyPrefix storageKey fallbackState converter fuel w Hk)
    as (es & He & _).
  by exists es.
Qed.

(** C8, as amended. When the store holds a non-empty string under the
    namespaced key and that string does not parse, or the converter's
    [fromJson] throws on the parsed value, the construction throws
    that error to its caller: the one read is all that happened, no
    subject exists. An empty string under the key is treated as an
    absent entry, whatever the fallback and the converter: the
    subject starts with the fallback and the construction throws
    nothing; with a fallback that is not nullish and can be stored,
    it returns the container as over an absent entry, the fallback
    written under the key. A publish never throws, so a decode error
    arises at construction only. *)
Theorem decode_error_at_construction storage keyPrefix storageKey fallbackState converter
    fuel w :
  storageKey <> EmptyString ->
  (forall s e,
     items w storage !! (keyPrefix +:+ storageKey) = Some s ->
     s <> EmptyString ->
     (JSON_parse s = Throw e \/
      exists c parsedValue, converter = Some c /\ JSON_parse s = Ok parsedValue
                            /\ fromJson c parsedValue = Throw e) ->
     storageFactory storage keyPrefix storageKey fallbackState converter fuel w
     = (Throw e, log (GetItem storage (keyPrefix +:+ storageKey)) w))
  /\ (items w storage !! (keyPrefix +:+ storageKey) = Some EmptyString ->
        initial_value (items w storage !! (keyPrefix +:+ storageKey)) fallbackState converter
        = Ok fallbackState
        /\ (forall e,
              (storageFactory storage keyPrefix storageKey fallbackState converter fuel w).1
              <> Throw e)
        /\ (forall s',
              nullish fallbackState = false -> stored converter fallbackState = Ok s' ->
              exists subject w',
                storageFactory storage keyPrefix storageKey fallbackState converter fuel w
                = (Ok subject, w')
                /\ current_value subject w' = Some fallbackState
                /\ events w' = events w ++ [GetItem storage (keyPrefix +:+ storageKey);
                                            Notified subject fallbackState;
                                            SetItem storage (keyPrefix +:+ storageKey) s']
                /\ items w' storage = <[keyPrefix +:+ storageKey := s']> (items w storage)))
  /\ (forall fuel' subject v w' e', (BehaviorSubject_next fuel' subject v w').1 <> Throw e').
Proof.
  intros Hk. split; [|split; [|intros; apply next_never_throws]].
  - intros s e Hs Hne He.
    apply construct_throw; [done|]. rewrite Hs. unfold initial_value.
    rewrite truthy_nonempty by done.
    destruct He as [He|(c & p & -> & Hp & He)].
    + destruct converter; by rewrite He.
    + by rewrite Hp.
  - intros Hs.
    assert (initial_value (items w storage !! (keyPrefix +:+ storageKey)) fallbackState converter
            = Ok fallbackState) as Hi.
    { rewrite Hs. unfold initial_value. simpl. by destruct converter. }
    split; [exact Hi|]. split.
    + intros e. rewrite (construct_deliver _ _ _ _ _ _ _ fallbackState) by done.
      unfold mbind, M_bind.
      match goal with
      | |- context [Subscriber_next ?n ?a ?o ?x ?y] =>
          pose proof (fun e' => Subscriber_next_never_throws n a o x y e') as Hn;
          destruct (Subscriber_next n a o x y) as [[[]|e'| |] w1]
      end; [discriminate|exfalso; by apply (Hn e')|discriminate..].
    + intros s' Hf Hs'. eexists _, _. split; [|split; [|split]].
      * rewrite (construct_deliver _ _ _ _ _ _ _ fallbackState) by done.
        unfold mbind, M_bind. rewrite (deliver_value _ _ _ _ s'); done.
      * apply current_value_created.
      * simpl. by rewrite <- !app_assoc.
      * simpl. by rewrite fn_lookup_insert.
Qed.

Lemma decode_error_at_construction_witness :
  items malformed_world localStorage !! (STORAGE_KEYS_PREFIX +:+ "k") = Some "{oops"
  /\ storageFactory localStorage STORAGE_KEYS_PREFIX "k" (VStr "d") None 2 malformed_world
     = (Throw SyntaxError, log (GetItem localStorage (STORAGE_KEYS_PREFIX +:+ "k")) malformed_world)
  /\ items empty_string_world localStorage !! (STORAGE_KEYS_PREFIX +:+ "k") = Some EmptyString
  /\ (exists subject w',
        storageFactory localStorage STORAGE_KEYS_PREFIX "k" (VStr "d") None 2 empty_string_world
        = (Ok subject, w')
        /\ current_value subject w' = Some (VStr "d")
        /\ events w' = events empty_string_world ++
             [GetItem localStorage (STORAGE_KEYS_PREFIX +:+ "k");
              Notified subject (VStr "d");
              SetItem localStorage (STORAGE_KEYS_PREFIX +:+ "k") (ToString (stringify (VStr "d")))]
        /\ items w' localStorage
           = <[STORAGE_KEYS_PREFIX +:+ "k" := ToString (stringify (VStr "d"))]>
               (items empty_string_world localStorage))
  /\ forall fuel' subject v w' e', (BehaviorSubject_next fuel' subject v w').1 <> Throw e'.
Proof.
  assert ("k" <> EmptyString) as Hk by discriminate.
  destruct (decode_error_at_construction localStorage STORAGE_KEYS_PREFIX "k" (VStr "d") None 2
              malformed_world Hk) as (Hthrow & _ & Hnext).
  destruct (decode_error_at_construction localStorage STORAGE_KEYS_PREFIX "k" (VStr "d") None 2
              empty_string_world Hk) as (_ & Hempty & _).
  split; [reflexivity|]. split.
  { apply (Hthrow "{oops" SyntaxError); [reflexivity|discriminate|left; reflexivity]. }
  split; [reflexivity|]. split; [|exact Hnext].
  destruct (Hempty eq_refl) as (_ & _ & Hok).
  apply (Hok (ToString (stringify (VStr "d")))); reflexivity.
Defined.

(** C8 as stated fails: an empty string stored under the key does not
    parse, yet the construction succeeds and takes the fallback. *)
Lemma empty_string_is_not_decoded :
  items empty_string_world localStorage !! (STORAGE_KEYS_PREFIX +:+ "k") = Some EmptyString
  /\ JSON_parse EmptyString = Throw SyntaxError
  /\ (storageFactory localStorage STORAGE_KEYS_PREFIX "k" (VStr "d") None 2
        empty_string_world).1 = Ok 0%nat
  /\ current_value 0 (storageFactory localStorage STORAGE_KEYS_PREFIX "k" (VStr "d") None 2
                        empty_string_world).2 = Some (VStr "d").
Proof.
  split; [by vm_compute|]. split; [by vm_compute|]. split; [by vm_compute|].
  by vm_compute.
Qed.

(** ** Decorators (C10) *)





(** * Further properties of the code *)

(** ** Writing and loading *)

Lemma stored_encodable v :
  encodable v = true ->
  exists s, stored None v = Ok s /\ s <> EmptyString /\ JSON_parse s = Ok v.
Proof.
  intros Henc. destruct (JSON_parse_stringify v Henc) as (s & Hs & Hne & Hp).
  exists s. simpl. by rewrite Hs.
Qed.

(** The construction over a value that is not nullish: one read, then
    the first run of the observer, which writes the value. *)
Lemma construct_value storage keyPrefix storageKey fallbackState converter w fuel v s :
  let subject := length (subjects w) in
  let env := closure storage keyPrefix storageKey fallbackState converter subject in
  storageKey <> EmptyString ->
  initial_value (items w storage !! (keyPrefix +:+ storageKey)) fallbackState converter = Ok v ->
  nullish v = false -> stored converter v = Ok s ->
  storageFactory storage keyPrefix storageKey fallbackState converter fuel w
  = (Ok subject, set_item storage (keyPrefix +:+ storageKey) s
                   (log (Notified subject v) (created env v w))).
Proof.
  intros subject env Hk Hi Hv Hs.
  rewrite (construct_deliver _ _ _ _ _ _ _ v) by done.
  unfold mbind, M_bind. by rewrite (deliver_value _ _ _ _ s).
Qed.

(** X1. Write-through. A publish of a value that is not nullish makes it
    the current value and, before it returns, writes its stored form
    under the binding's key: one notification, one [setItem]. *)
Theorem publish_writes_through subject env v s fuel w :
  bound subject env w ->
  nullish v = false ->
  stored (c_converter env) v = Ok s ->
  exists w',
    BehaviorSubject_next (S fuel) subject v w = (Ok (), w')
    /\ current_value subject w' = Some v
    /\ items w' (c_storage env) !! key_of env = Some s
    /\ events w' = events w ++ [Notified subject v; SetItem (c_storage env) (key_of env) s]
    /\ unhandled w' = unhandled w.
Proof.
  intros Hb Hv Hs. eexists. split; [by apply (next_value _ _ env _ s)|].
  split; [|split; [|split]].
  - apply (current_value_assigned subject env). by apply (bound_lt _ env).
  - simpl. rewrite fn_lookup_insert. apply lookup_insert_eq.
  - simpl. by rewrite <- app_assoc.
  - done.
Qed.

Lemma publish_writes_through_witness :
  bound 0 scenario_env scenario_binding.2 /\
  exists w',
    BehaviorSubject_next 1 0 (VStr "x") scenario_binding.2 = (Ok (), w')
    /\ current_value 0 w' = Some (VStr "x")
    /\ items w' localStorage !! key_of scenario_env = Some (ToString (stringify (VStr "x")))
    /\ events w' = events scenario_binding.2 ++
         [Notified 0 (VStr "x");
          SetItem localStorage (key_of scenario_env) (ToString (stringify (VStr "x")))]
    /\ unhandled w' = unhandled scenario_binding.2.
Proof.
  assert (bound 0 scenario_env scenario_binding.2) as Hb.
  { split; [done|]. eexists. by vm_compute. }
  split; [exact Hb|].
  apply (publish_writes_through 0 scenario_env (VStr "x") _ 0 scenario_binding.2);
    [exact Hb|reflexivity|reflexivity].
Defined.

(** X2. Loading. Over an entry whose text parses to a value that is not
    null, the construction without converter takes the parsed value as
    current value and writes the entry again, with the text that
    [JSON.stringify] gives for that value; the new text parses to the
    same value. *)
Theorem construct_on_stored_entry storage keyPrefix storageKey fallbackState fuel w s v :
  storageKey <> EmptyString ->
  items w storage !! (keyPrefix +:+ storageKey) = Some s ->
  s <> EmptyString ->
  JSON_parse s = Ok v ->
  nullish v = false ->
  exists subject w' s',
    storageFactory storage keyPrefix storageKey fallbackState None fuel w = (Ok subject, w')
    /\ current_value subject w' = Some v
    /\ JSON_stringify v = Ok (Some s') /\ JSON_parse s' = Ok v
    /\ items w' storage !! (keyPrefix +:+ storageKey) = Some s'
    /\ events w' = events w ++ [GetItem storage (keyPrefix +:+ storageKey);
                                Notified subject v;
                                SetItem storage (keyPrefix +:+ storageKey) s'].
Proof.
  intros Hk Hs Hne Hp Hv.
  destruct (JSON_parse_stringify v (JSON_parse_encodable s v Hp)) as (s' & Hs' & _ & Hp').
  eexists _, _, s'. split; [|split; [|split; [|split; [|split]]]].
  - apply (construct_value _ _ _ _ _ _ _ v s'); [done| |done|].
    + rewrite Hs. unfold initial_value. by rewrite truthy_nonempty.
    + simpl. by rewrite Hs'.
  - apply current_value_created.
  - done.
  - done.
  - simpl. rewrite fn_lookup_insert. apply lookup_insert_eq.
  - simpl. by rewrite <- !app_assoc.
Qed.

Lemma construct_on_stored_entry_witness :
  exists subject w' s',
    storageFactory localStorage STORAGE_KEYS_PREFIX "k" (VStr "d") None 2 loose_world
    = (Ok subject, w')
    /\ current_value subject w' = Some (VArr [VNum (Int 100)])
    /\ JSON_stringify (VArr [VNum (Int 100)]) = Ok (Some s')
    /\ JSON_parse s' = Ok (VArr [VNum (Int 100)])
    /\ items w' localStorage !! (STORAGE_KEYS_PREFIX +:+ "k") = Some s'
    /\ events w' = events loose_world ++
         [GetItem localStorage (STORAGE_KEYS_PREFIX +:+ "k");
          Notified subject (VArr [VNum (Int 100)]);
          SetItem localStorage (STORAGE_KEYS_PREFIX +:+ "k") s'].
Proof.
  apply (construct_on_stored_entry localStorage STORAGE_KEYS_PREFIX "k" (VStr "d") 2
           loose_world " [ 1e2 ] " (VArr [VNum (Int 100)]));
    [discriminate|reflexivity|discriminate|by vm_compute|reflexivity].
Defined.

(** X3. A stored [null]. Over an entry whose text parses to [null], the
    construction without converter resets the binding at once: the
    entry is removed, the fallback becomes the current value and is
    written under the key. *)
Theorem construct_on_stored_null storage keyPrefix storageKey fallbackState fuel w s s' :
  storageKey <> EmptyString ->
  items w storage !! (keyPrefix +:+ storageKey) = Some s ->
  s <> EmptyString ->
  JSON_parse s = Ok VNull ->
  nullish fallbackState = false ->
  stored None fallbackState = Ok s' ->
  exists subject w',
    storageFactory storage keyPrefix storageKey fallbackState None (S fuel) w = (Ok subject, w')
    /\ current_value subject w' = Some fallbackState
    /\ items w' storage !! (keyPrefix +:+ storageKey) = Some s'
    /\ events w' = events w ++ [GetItem storage (keyPrefix +:+ storageKey);
                                Notified subject VNull;
                                RemoveItem storage (keyPrefix +:+ storageKey);
                                Notified subject fallbackState;
                                SetItem storage (keyPrefix +:+ storageKey) s'].
Proof.
  intros Hk Hs Hne Hp Hf Hs'.
  eexists _, _. split; [|split; [|split]].
  - rewrite (construct_deliver _ _ _ _ _ _ _ VNull); [|done|].
    + unfold mbind, M_bind.
      rewrite (deliver_null _ _ _ _ s'); [done|by apply bound_created|done..].
    + rewrite Hs. unfold initial_value. by rewrite truthy_nonempty.
  - apply (current_value_assigned _ (closure storage keyPrefix storageKey fallbackState None
                                        (length (subjects w)))).
    simpl. rewrite length_app. simpl. lia.
  - simpl. rewrite !fn_lookup_insert. apply lookup_insert_eq.
  - simpl. by rewrite <- !app_assoc.
Qed.

Lemma construct_on_stored_null_witness :
  exists subject w',
    storageFactory localStorage STORAGE_KEYS_PREFIX "k" (VStr "d") None 1 stored_null_world
    = (Ok subject, w')
    /\ current_value subject w' = Some (VStr "d")
    /\ items w' localStorage !! (STORAGE_KEYS_PREFIX +:+ "k")
       = Some (ToString (stringify (VStr "d")))
    /\ events w' = events stored_null_world ++
         [GetItem localStorage (STORAGE_KEYS_PREFIX +:+ "k");
          Notified subject VNull;
          RemoveItem localStorage (STORAGE_KEYS_PREFIX +:+ "k");
          Notified subject (VStr "d");
          SetItem localStorage (STORAGE_KEYS_PREFIX +:+ "k") (ToString (stringify (VStr "d")))].
Proof.
  apply (construct_on_stored_null localStorage STORAGE_KEYS_PREFIX "k" (VStr "d") 0
           stored_null_world "null");
    [discriminate|reflexivity|discriminate|by vm_compute|reflexivity|reflexivity].
Defined.

(** X4. The first fallback stays. A binding constructed without
    converter over an absent entry writes its fallback, here one that
    JSON carries unchanged and that is not [null]; a second binding
    constructed later over the same entry starts from that stored
    fallback, not from its own. *)
Theorem first_fallback_wins storage keyPrefix storageKey fallbackState fallbackState'
    fuel fuel' w :
  storageKey <> EmptyString ->
  items w storage !! (keyPrefix +:+ storageKey) = None ->
  encodable fallbackState = true ->
  nullish fallbackState = false ->
  exists first w1 second w2,
    storageFactory storage keyPrefix storageKey fallbackState None fuel w = (Ok first, w1)
    /\ storageFactory storage keyPrefix storageKey fallbackState' None fuel' w1 = (Ok second, w2)
    /\ second <> first
    /\ current_value first w2 = Some fallbackState
    /\ current_value second w2 = Some fallbackState.
Proof.
  intros Hk Habsent Henc Hf.
  destruct (stored_encodable fallbackState Henc) as (s & Hs & Hne & Hp).
  eexists _, _, _, _. split; [|split; [|split; [|split]]].
  - apply (construct_value _ _ _ _ _ _ _ fallbackState s); [done| |done..].
    by rewrite Habsent.
  - apply (construct_value _ _ _ _ _ _ _ fallbackState s); [done| |done..].
    simpl. rewrite fn_lookup_insert, lookup_insert_eq.
    unfold initial_value. by rewrite truthy_nonempty.
  - simpl. rewrite length_app. simpl. lia.
  - unfold current_value. simpl.
    rewrite lookup_app_l by (rewrite length_app; simpl; lia).
    by rewrite list_lookup_middle.
  - unfold current_value. simpl. by rewrite list_lookup_middle.
Qed.

Lemma first_fallback_wins_witness :
  exists first w1 second w2,
    storageFactory localStorage STORAGE_KEYS_PREFIX "k" (VStr "d") None 2 empty_world
    = (Ok first, w1)
    /\ storageFactory localStorage STORAGE_KEYS_PREFIX "k" (VStr "other") None 2 w1
       = (Ok second, w2)
    /\ second <> first
    /\ current_value first w2 = Some (VStr "d")
    /\ current_value second w2 = Some (VStr "d").
Proof.
  apply (first_fallback_wins localStorage STORAGE_KEYS_PREFIX "k" (VStr "d") (VStr "other")
           2 2 empty_world); [discriminate|reflexivity|reflexivity|reflexivity].
Defined.

(** ** What a binding leaves alone *)

Lemma frame_refl env w : bound (c_subject env) env w -> frame env w w.
Proof. by intros Hb. Qed.

Lemma frame_trans env w1 w2 w3 : frame env w1 w2 -> frame env w2 w3 -> frame env w1 w3.
Proof.
  intros (_ & He1 & Hs1 & Ho1) (Hb & He2 & Hs2 & Ho2).
  split; [done|]. split; [|split].
  - intros storage key H. by rewrite He2, He1.
  - intros other H. by rewrite Hs2, Hs1.
  - congruence.
Qed.

Lemma frame_remove_item env w :
  bound (c_subject env) env w ->
  frame env w (remove_item (c_storage env) (key_of env) w).
Proof.
  intros Hb. split; [by apply (bound_frame _ _ w)|]. split; [|done].
  intros storage key [H|H]; simpl.
  - by rewrite fn_lookup_insert_ne.
  - destruct (decide (storage = c_storage env)) as [->|Hne].
    + rewrite fn_lookup_insert. by rewrite lookup_delete_ne.
    + by rewrite fn_lookup_insert_ne.
Qed.

Lemma frame_set_item env s w :
  bound (c_subject env) env w ->
  frame env w (set_item (c_storage env) (key_of env) s w).
Proof.
  intros Hb. split; [by apply (bound_frame _ _ w)|]. split; [|done].
  intros storage key [H|H]; simpl.
  - by rewrite fn_lookup_insert_ne.
  - destruct (decide (storage = c_storage env)) as [->|Hne].
    + rewrite fn_lookup_insert. by rewrite lookup_insert_ne.
    + by rewrite fn_lookup_insert_ne.
Qed.

Lemma frame_silent env w w' :
  bound (c_subject env) env w ->
  items w' = items w -> subjects w' = subjects w -> objects w' = objects w ->
  frame env w w'.
Proof.
  intros Hb Hi Hs Ho. split; [by apply (bound_frame _ _ w)|]. split; [|split; [|done]].
  - intros storage key _. by rewrite Hi.
  - intros other _. by rewrite Hs.
Qed.

Lemma frame_assigned env v w :
  bound (c_subject env) env w ->
  frame env w (assigned (c_subject env) env v w).
Proof.
  intros Hb. split; [by apply bound_assigned|]. split; [done|]. split; [|done].
  intros other H. simpl. by rewrite list_lookup_insert_ne.
Qed.

Lemma deliver_frame env fuel :
  forall v w, bound (c_subject env) env w ->
  frame env w (Subscriber_next (BehaviorSubject_next fuel) (c_subject env) (WriteBack env) v w).2.
Proof.
  induction fuel as [|fuel IH]; intros v w Hb.
  all: apply (frame_trans _ _ (log (Notified (c_subject env) v) w));
         [by apply frame_silent|].
  all: assert (bound (c_subject env) env (log (Notified (c_subject env) v) w)) as Hb'
         by by apply (bound_frame _ _ w).
  all: unfold Subscriber_next; generalize dependent (log (Notified (c_subject env) v) w).
  all: clear w Hb; intros w Hb.
  all: unfold run_observer, writeBack; destruct (nullish v).
  - unfold mbind, M_bind, Storage_removeItem, modify. simpl.
    by apply frame_remove_item.
  - destruct (c_converter env) as [c|]; unfold mbind, M_bind, lift.
    + destruct (toJson c v) as [j|e| |]; simpl;
        [destruct (JSON_stringify j) as [s|e| |]; simpl|..].
      all: first [by apply frame_set_item | by apply frame_silent].
    + destruct (JSON_stringify v) as [s|e| |]; simpl.
      all: first [by apply frame_set_item | by apply frame_silent].
  - unfold mbind, M_bind, Storage_removeItem, modify.
    pose proof (frame_remove_item env w Hb) as Hr.
    set (w1 := remove_item _ _ w) in *.
    assert (bound (c_subject env) env w1) as Hb1 by apply Hr.
    rewrite (next_unfold _ _ env) by done. unfold mbind, M_bind.
    pose proof (frame_assigned env (c_fallbackState env) w1 Hb1) as Ha.
    specialize (IH (c_fallbackState env) _ (proj1 Ha)).
    destruct (Subscriber_next _ _ _ _ _) as [[[]|e| |] w2]; simpl in *.
    all: eapply frame_trans; [exact Hr|]; eapply frame_trans; [exact Ha|].
    all: first [exact IH | eapply frame_trans; [exact IH|]; apply frame_silent; [apply IH|done..]].
  - destruct (c_converter env) as [c|]; unfold mbind, M_bind, lift.
    + destruct (toJson c v) as [j|e| |]; simpl;
        [destruct (JSON_stringify j) as [s|e| |]; simpl|..].
      all: first [by apply frame_set_item | by apply frame_silent].
    + destruct (JSON_stringify v) as [s|e| |]; simpl.
      all: first [by apply frame_set_item | by apply frame_silent].
Qed.

Lemma next_frame env fuel v w :
  bound (c_subject env) env w ->
  frame env w (BehaviorSubject_next fuel (c_subject env) v w).2.
Proof.
  intros Hb. destruct fuel as [|fuel]; [by apply frame_refl|].
  rewrite (next_unfold _ _ env) by done. unfold mbind, M_bind.
  pose proof (frame_assigned env v w Hb) as Ha.
  pose proof (deliver_frame env fuel v _ (proj1 Ha)) as Hd.
  destruct (Subscriber_next _ _ _ _ _) as [[[]|e| |] w2]; simpl in *.
  all: by eapply frame_trans.
Qed.

Lemma construct_bound storage keyPrefix storageKey fallbackState converter fuel w subject w' :
  storageFactory storage keyPrefix storageKey fallbackState converter fuel w = (Ok subject, w') ->
  bound subject (closure storage keyPrefix storageKey fallbackState converter subject) w'.
Proof.
  intros H.
  destruct (construct_succeeds _ _ _ _ _ _ _ _ _ H) as (-> & _).
  destruct (String.eqb_spec storageKey EmptyString) as [->|Hk]; [done|].
  destruct (initial_value (items w storage !! (keyPrefix +:+ storageKey)) fallbackState converter)
    as [v|e| |] eqn:Hi.
  2: { rewrite (construct_throw _ _ _ _ _ _ _ e) in H; done. }
  2,3: unfold storageFactory in H; rewrite key_not_empty in H by done;
       unfold mbind, M_bind, Storage_getItem, lift in H; simpl in H;
       rewrite Hi in H; done.
  rewrite (construct_deliver _ _ _ _ _ _ _ v) in H by done.
  unfold mbind, M_bind in H.
  set (env := closure storage keyPrefix storageKey fallbackState converter
                (length (subjects w))) in *.
  pose proof (deliver_frame env fuel v (created env v w) (bound_created _ _ _ _ _ _ _)) as Hf.
  simpl in Hf.
  destruct (Subscriber_next _ _ _ _ _) as [[[]| | |] w1]; try done.
  injection H as <-. apply Hf.
Qed.

Lemma construct_frame storage keyPrefix storageKey fallbackState converter fuel w :
  let env := closure storage keyPrefix storageKey fallbackState converter (length (subjects w)) in
  let w' := (storageFactory storage keyPrefix storageKey fallbackState converter fuel w).2 in
  other_entries_kept env w w'
  /\ (forall i, i < length (subjects w) -> subjects w' !! i = subjects w !! i)
  /\ objects w' = objects w.
Proof.
  intros env w'. subst w'.
  destruct (String.eqb_spec storageKey EmptyString) as [->|Hk]; [done|].
  destruct (initial_value (items w storage !! (keyPrefix +:+ storageKey)) fallbackState converter)
    as [v|e| |] eqn:Hi.
  2: { by rewrite (construct_throw _ _ _ _ _ _ _ e). }
  2,3: unfold storageFactory; rewrite key_not_empty by done;
       unfold mbind, M_bind, Storage_getItem, lift; simpl;
       by rewrite Hi.
  rewrite (construct_deliver _ _ _ _ _ _ _ v) by done.
  unfold mbind, M_bind. fold env.
  pose proof (deliver_frame env fuel v (created env v w) (bound_created _ _ _ _ _ _ _)) as Hf.
  simpl in Hf.
  assert (forall w1, frame env (created env v w) w1 ->
            other_entries_kept env w w1
            /\ (forall i, i < length (subjects w) -> subjects w1 !! i = subjects w !! i)
            /\ objects w1 = objects w) as Hgo.
  { intros w1 (_ & He & Hs & Ho). split; [|split].
    - intros s k H. by rewrite He.
    - intros i Hi'. rewrite Hs by (simpl; lia). simpl. by rewrite lookup_app_l.
    - by rewrite Ho. }
  destruct (Subscriber_next _ _ _ _ _) as [[[]| | |] w1]; by apply Hgo.
Qed.

Lemma publish_all_frame env fuel vs : forall w,
  bound (c_subject env) env w ->
  frame env w (publish_all fuel (c_subject env) vs w).2.
Proof.
  induction vs as [|v vs IH]; intros w Hb; [by apply frame_refl|].
  unfold publish_all. simpl. unfold mbind, M_bind.
  pose proof (next_frame env fuel v w Hb) as Hf.
  destruct (BehaviorSubject_next _ _ _ _) as [[[]| | |] w1]; simpl in *; try done.
  eapply frame_trans; [exact Hf|]. apply IH. apply Hf.
Qed.

(** X5. A publish through a binding touches the binding's own entry and
    its own subject, nothing else: every other entry of either
    storage, every other subject and every object is left as it was,
    whatever the published value and however the publish ends. *)
Theorem publish_touches_own_entry_only subject env fuel v w :
  bound subject env w ->
  let w' := (BehaviorSubject_next fuel subject v w).2 in
  (forall storage key,
     storage <> c_storage env \/ key <> key_of env ->
     items w' storage !! key = items w storage !! key)
  /\ (forall other, other <> subject -> current_value other w' = current_value other w)
  /\ objects w' = objects w.
Proof.
  intros Hb w'. pose proof Hb as [<- _].
  destruct (next_frame env fuel v w Hb) as (_ & He & Hs & Ho).
  split; [exact He|]. split; [|exact Ho].
  intros other H. unfold current_value. subst w'. by rewrite Hs.
Qed.

Lemma publish_touches_own_entry_only_witness :
  bound 0 scenario_env scenario_binding.2 /\
  let w' := (BehaviorSubject_next 2 0 VNull scenario_binding.2).2 in
  (forall storage key,
     storage <> c_storage scenario_env \/ key <> key_of scenario_env ->
     items w' storage !! key = items scenario_binding.2 storage !! key)
  /\ (forall other, other <> 0 -> current_value other w' = current_value other scenario_binding.2)
  /\ objects w' = objects scenario_binding.2.
Proof.
  assert (bound 0 scenario_env scenario_binding.2) as Hb.
  { split; [done|]. eexists. by vm_compute. }
  split; [exact Hb|].
  exact (publish_touches_own_entry_only 0 scenario_env 2 VNull scenario_binding.2 Hb).
Defined.

(** X6. Two bindings over one entry are not kept in step. A publish
    through one of them writes the shared entry and leaves the other
    container, which stays bound to the entry, with the value it had:
    from then on that container and the entry disagree. *)
Theorem bindings_over_one_entry_drift subject env subject' env' v s fuel w :
  bound subject env w ->
  bound subject' env' w ->
  subject' <> subject ->
  c_storage env' = c_storage env ->
  key_of env' = key_of env ->
  nullish v = false ->
  stored (c_converter env) v = Ok s ->
  exists w',
    BehaviorSubject_next (S fuel) subject v w = (Ok (), w')
    /\ current_value subject w' = Some v
    /\ items w' (c_storage env') !! key_of env' = Some s
    /\ current_value subject' w' = current_value subject' w
    /\ bound subject' env' w'.
Proof.
  intros Hb Hb' Hne Hst Hkey Hv Hs.
  eexists. split; [by apply (next_value _ _ env _ s)|].
  split; [|split; [|split]].
  - apply (current_value_assigned subject env). by apply (bound_lt _ env).
  - rewrite Hst, Hkey. simpl. rewrite fn_lookup_insert. apply lookup_insert_eq.
  - unfold current_value. simpl. by rewrite list_lookup_insert_ne.
  - destruct Hb' as [Hc [v' Hv']]. split; [done|]. exists v'.
    simpl. by rewrite list_lookup_insert_ne.
Qed.

Lemma bindings_over_one_entry_drift_witness :
  bound 0 scenario_env twin_bindings.2 /\ bound 1 twin_env twin_bindings.2 /\
  exists w',
    BehaviorSubject_next 1 0 (VStr "x") twin_bindings.2 = (Ok (), w')
    /\ current_value 0 w' = Some (VStr "x")
    /\ items w' (c_storage twin_env) !! key_of twin_env = Some (ToString (stringify (VStr "x")))
    /\ current_value 1 w' = current_value 1 twin_bindings.2
    /\ bound 1 twin_env w'.
Proof.
  assert (bound 0 scenario_env twin_bindings.2) as Hb.
  { split; [reflexivity|]. eexists. by vm_compute. }
  assert (bound 1 twin_env twin_bindings.2) as Hb'.
  { split; [reflexivity|]. eexists. by vm_compute. }
  split; [exact Hb|]. split; [exact Hb'|].
  apply (bindings_over_one_entry_drift 0 scenario_env 1 twin_env (VStr "x") _ 0
           twin_bindings.2 Hb Hb'); [discriminate|reflexivity..].
Defined.

(** X7. The construction of a binding touches the binding's own entry
    only, and none of the subjects and objects that exist. *)
Theorem construction_touches_own_entry_only storage keyPrefix storageKey fallbackState
    converter fuel w :
  let w' := (storageFactory storage keyPrefix storageKey fallbackState converter fuel w).2 in
  (forall storage' key,
     storage' <> storage \/ key <> keyPrefix +:+ storageKey ->
     items w' storage' !! key = items w storage' !! key)
  /\ (forall other, other < length (subjects w) -> subjects w' !! other = subjects w !! other)
  /\ objects w' = objects w.
Proof. apply construct_frame. Qed.

Lemma Object_defineProperty_frame target p descriptor w :
  let w' := (Object_defineProperty target p descriptor w).2 in
  items w' = items w /\ subjects w' = subjects w.
Proof.
  unfold Object_defineProperty.
  destruct (objects w !! target) as [o|]; [|done].
  by destruct (properties o !! p) as [[g e []]|].
Qed.

(** X8. The decorators keep to their storage and to the prefixed key:
    [LocalStorage(key, ...)] touches the entry [rca_key] of
    [localStorage] and nothing else, [SessionStorage(key, ...)] the
    entry [rca_key] of [sessionStorage]; the subjects that exist are
    left alone. *)
Theorem decorator_touches_own_entry_only storage storageKey fallbackState converter fuel
    target propertyKey w :
  let w' := (decorator storage storageKey fallbackState converter fuel target propertyKey w).2 in
  (forall storage' key,
     storage' <> storage \/ key <> "rca_" +:+ storageKey ->
     items w' storage' !! key = items w storage' !! key)
  /\ (forall other, other < length (subjects w) -> subjects w' !! other = subjects w !! other).
Proof.
  intros w'.
  destruct (construct_frame storage STORAGE_KEYS_PREFIX storageKey fallbackState converter fuel w)
    as (He & Hs & _).
  assert (w' = (storageFactory storage STORAGE_KEYS_PREFIX storageKey fallbackState converter
                  fuel w).2
          \/ exists subject w1,
               storageFactory storage STORAGE_KEYS_PREFIX storageKey fallbackState converter fuel w
               = (Ok subject, w1)
               /\ w' = (Object_defineProperty target propertyKey
                          {| get := subject; enumerable := true; configurable := true |} w1).2)
    as [->|(subject & w1 & E & ->)].
  { subst w'. destruct storage; unfold decorator, LocalStorage, SessionStorage, mbind, M_bind.
    all: destruct (storageFactory _ _ _ _ _ _ _) as [[subject| | |] w1]; eauto. }
  - split; [exact He|exact Hs].
  - rewrite E in He, Hs. simpl in He, Hs.
    destruct (Object_defineProperty_frame target propertyKey
                {| get := subject; enumerable := true; configurable := true |} w1) as [Hi Hsub].
    simpl in Hi, Hsub. split.
    + intros storage' key H. rewrite Hi. by apply He.
    + intros other H. rewrite Hsub. by apply Hs.
Qed.

(** X9. The write-back observer is subscribed for good. A subject returned
    by [storageFactory] has the write-back observer as its one
    observer, and keeps it through any sequence of publishes: nothing
    in the code unsubscribes it. *)
Theorem write_back_stays_subscribed storage keyPrefix storageKey fallbackState converter
    fuel w subject w' :
  storageFactory storage keyPrefix storageKey fallbackState converter fuel w = (Ok subject, w') ->
  let env := closure storage keyPrefix storageKey fallbackState converter subject in
  bound subject env w'
  /\ forall fuel' vs, bound subject env (publish_all fuel' subject vs w').2.
Proof.
  intros H env. pose proof (construct_bound _ _ _ _ _ _ _ _ _ H) as Hb.
  split; [exact Hb|]. intros fuel' vs.
  by apply (publish_all_frame env fuel' vs w').
Qed.

Lemma write_back_stays_subscribed_witness :
  bound 0 scenario_env scenario_binding.2
  /\ forall fuel' vs, bound 0 scenario_env (publish_all fuel' 0 vs scenario_binding.2).2.
Proof.
  apply (write_back_stays_subscribed localStorage STORAGE_KEYS_PREFIX "k" (VStr "d") None 2
           empty_world 0 scenario_binding.2).
  reflexivity.
Defined.

(** ** The store is written, never read again *)

Lemma for_each_ignores {A} (l : list A) (f : A -> M unit) :
  (forall x w1 w2, same_but_store w1 w2 ->
     (f x w1).1 = (f x w2).1 /\ same_but_store (f x w1).2 (f x w2).2) ->
  forall w1 w2, same_but_store w1 w2 ->
    (for_each l f w1).1 = (for_each l f w2).1
    /\ same_but_store (for_each l f w1).2 (for_each l f w2).2.
Proof.
  intros Hf. induction l as [|x l IH]; intros w1 w2 H; [done|].
  simpl. unfold mbind, M_bind.
  destruct (Hf x w1 w2 H) as [H1 H2].
  destruct (f x w1) as [r1 u1], (f x w2) as [r2 u2]. simpl in *. subst r2.
  destruct r1 as [[]| | |]; [by apply IH|done..].
Qed.

Lemma deliver_ignores (next : nat -> value -> M unit) subject o v :
  (forall a x w1 w2, same_but_store w1 w2 ->
     (next a x w1).1 = (next a x w2).1 /\ same_but_store (next a x w1).2 (next a x w2).2) ->
  forall w1 w2, same_but_store w1 w2 ->
    (Subscriber_next next subject o v w1).1 = (Subscriber_next next subject o v w2).1
    /\ same_but_store (Subscriber_next next subject o v w1).2
                      (Subscriber_next next subject o v w2).2.
Proof.
  intros Hnext w1 w2 H. unfold Subscriber_next.
  assert (same_but_store (log (Notified subject v) w1) (log (Notified subject v) w2)) as H'.
  { destruct H as (?&?&?&?). repeat split; simpl; congruence. }
  generalize dependent (log (Notified subject v) w2).
  generalize dependent (log (Notified subject v) w1).
  clear w1 w2 H. intros w1 w2 H.
  destruct o as [env]. unfold run_observer, writeBack.
  assert (forall e, same_but_store w1 w2 -> same_but_store (report e w1) (report e w2)) as Hrep.
  { intros e (?&?&?&?). repeat split; simpl; congruence. }
  assert (forall s k x, same_but_store (set_item s k x w1) (set_item s k x w2)) as Hset.
  { intros s k x. destruct H as (?&?&?&?). repeat split; simpl; congruence. }
  destruct (nullish v).
  - unfold mbind, M_bind, Storage_removeItem, modify.
    match goal with
    | |- context [next ?a ?x (remove_item ?s ?k w1)] =>
        destruct (Hnext a x (remove_item s k w1) (remove_item s k w2)) as [H1 H2]
    end.
    { destruct H as (?&?&?&?). repeat split; simpl; congruence. }
    destruct (next _ _ (remove_item _ _ w1)) as [r1 u1], (next _ _ (remove_item _ _ w2)) as [r2 u2].
    simpl in *. subst r2. destruct r1 as [[]|e| |]; try done.
    split; [done|]. destruct H2 as (?&?&?&?). repeat split; simpl; congruence.
  - destruct (c_converter env) as [c|]; unfold mbind, M_bind, lift.
    + destruct (toJson c v) as [j|e| |]; simpl;
        [destruct (JSON_stringify j) as [s|e| |]; simpl|..]; auto.
    + destruct (JSON_stringify v) as [s|e| |]; simpl; auto.
Qed.

(** X10. Once constructed, a binding never looks at the storage again: in
    two worlds that differ only in what the storages hold, a publish
    ends alike, leaves the subjects with the same values and makes the
    same storage calls. A change made to the entry by other code is
    never picked up by the container. *)
Theorem publish_ignores_the_store fuel subject v w1 w2 :
  same_but_store w1 w2 ->
  (BehaviorSubject_next fuel subject v w1).1 = (BehaviorSubject_next fuel subject v w2).1
  /\ same_but_store (BehaviorSubject_next fuel subject v w1).2
                    (BehaviorSubject_next fuel subject v w2).2.
Proof.
  revert subject v w1 w2. induction fuel as [|fuel IH]; intros subject v w1 w2 H; [done|].
  cbn [BehaviorSubject_next]. unfold mbind at 1 3 5 7, M_bind at 1 3 5 7, deref.
  pose proof H as (Hs & _). rewrite <- Hs.
  destruct (subjects w1 !! subject) as [s|]; [|done].
  unfold mbind, M_bind, assign, modify.
  apply for_each_ignores.
  - intros o u1 u2 Hu. by apply deliver_ignores.
  - destruct H as (?&?&?&?). repeat split; simpl; congruence.
Qed.

Lemma publish_ignores_the_store_witness :
  let w2 := with_items (fun _ => {[ "rca_k" := "changed elsewhere" ]}) scenario_binding.2 in
  same_but_store scenario_binding.2 w2 /\
  (BehaviorSubject_next 2 0 VNull scenario_binding.2).1 = (BehaviorSubject_next 2 0 VNull w2).1
  /\ same_but_store (BehaviorSubject_next 2 0 VNull scenario_binding.2).2
                    (BehaviorSubject_next 2 0 VNull w2).2.
Proof.
  intros w2.
  assert (same_but_store scenario_binding.2 w2) as H by done.
  split; [exact H|].
  exact (publish_ignores_the_store 2 0 VNull scenario_binding.2 w2 H).
Defined.

(** ** Termination *)

Lemma stringify_ends v : JSON_stringify v <> OutOfFuel.
Proof. unfold JSON_stringify. by destruct (in_model v). Qed.

Lemma deliver_value_ends next subject env v w :
  nullish v = false -> ends (c_converter env) ->
  (Subscriber_next next subject (WriteBack env) v w).1 <> OutOfFuel.
Proof.
  intros Hv Hc. unfold Subscriber_next, run_observer, writeBack. rewrite Hv.
  pose proof stringify_ends as Hs.
  destruct (c_converter env) as [c|] eqn:E; unfold mbind, M_bind, lift.
  - destruct (Hc c eq_refl v) as [Ht _].
    destruct (toJson c v) as [j|e| |]; simpl; try done.
    specialize (Hs j). by destruct (JSON_stringify j).
  - specialize (Hs v). by destruct (JSON_stringify v).
Qed.

Lemma next_value_ends fuel subject env v w :
  bound subject env w -> nullish v = false -> ends (c_converter env) ->
  (BehaviorSubject_next (S fuel) subject v w).1 <> OutOfFuel.
Proof.
  intros Hb Hv Hc. rewrite (next_unfold _ _ env) by done. unfold mbind, M_bind.
  pose proof (deliver_value_ends (BehaviorSubject_next fuel) subject env v
                (assigned subject env v w) Hv Hc) as H.
  by destruct (Subscriber_next _ _ _ _ _) as [[[]| | |] w1].
Qed.

Lemma deliver_ends fuel subject env v w :
  bound subject env w -> nullish (c_fallbackState env) = false -> ends (c_converter env) ->
  (Subscriber_next (BehaviorSubject_next (S fuel)) subject (WriteBack env) v w).1 <> OutOfFuel.
Proof.
  intros Hb Hf Hc. destruct (nullish v) eqn:Hv; [|by apply deliver_value_ends].
  unfold Subscriber_next, run_observer, writeBack. rewrite Hv.
  unfold mbind, M_bind, Storage_removeItem, modify.
  pose proof Hb as [Hs _]. rewrite Hs.
  match goal with
  | |- context [BehaviorSubject_next (S fuel) subject ?x ?y] =>
      pose proof (next_value_ends fuel subject env x y) as H;
      destruct (BehaviorSubject_next (S fuel) subject x y) as [[[]| | |] w1]
  end; try done.
  simpl in H. apply H; [|done..]. by apply (bound_frame _ _ w).
Qed.

Lemma initial_value_ends storedString fallbackState converter :
  ends converter -> initial_value storedString fallbackState converter <> OutOfFuel.
Proof.
  intros Hc. unfold initial_value.
  destruct (truthy storedString) as [s|]; [|by destruct converter].
  pose proof (JSON_parse_ends s) as Hp.
  destruct converter as [c|]; [|done].
  destruct (JSON_parse s) as [p| | |]; try done. simpl.
  by destruct (Hc c eq_refl p).
Qed.

(** X11. With a fallback that is not nullish the binding always settles:
    neither the construction nor a publish, of whatever value, goes on
    without end. The observer re-enters [next] once at most, for the
    fallback. *)
Theorem non_null_fallback_settles storage keyPrefix storageKey fallbackState converter :
  nullish fallbackState = false ->
  ends converter ->
  (forall fuel w,
     (storageFactory storage keyPrefix storageKey fallbackState converter (S fuel) w).1
     <> OutOfFuel)
  /\ (forall fuel subject v w,
        bound subject (closure storage keyPrefix storageKey fallbackState converter subject) w ->
        (BehaviorSubject_next (S (S fuel)) subject v w).1 <> OutOfFuel).
Proof.
  intros Hf Hc. split.
  - intros fuel w.
    destruct (String.eqb_spec storageKey EmptyString) as [->|Hk]; [done|].
    pose proof (initial_value_ends (items w storage !! (keyPrefix +:+ storageKey))
                  fallbackState converter Hc) as Hi.
    destruct (initial_value (items w storage !! (keyPrefix +:+ storageKey)) fallbackState converter)
      as [v|e| |] eqn:E; [|by rewrite (construct_throw _ _ _ _ _ _ _ e)|done|].
    + rewrite (construct_deliver _ _ _ _ _ _ _ v) by done.
      unfold mbind, M_bind.
      match goal with
      | |- context [Subscriber_next ?n ?s (WriteBack ?e) ?x ?y] =>
          pose proof (deliver_ends fuel s e x y (bound_created _ _ _ _ _ _ _) Hf Hc) as H;
          destruct (Subscriber_next n s (WriteBack e) x y) as [[[]| | |] w1]
      end; done.
    + unfold storageFactory. rewrite key_not_empty by done.
      unfold mbind, M_bind, Storage_getItem, lift. simpl. by rewrite E.
  - intros fuel subject v w Hb.
    rewrite (next_unfold _ _ _) by exact Hb. unfold mbind, M_bind.
    match goal with
    | |- context [Subscriber_next ?n ?s (WriteBack ?e) ?x ?y] =>
        pose proof (deliver_ends fuel s e x y (bound_assigned _ _ _ _ Hb) Hf Hc) as H;
        destruct (Subscriber_next n s (WriteBack e) x y) as [[[]| | |] w1]
    end; done.
Qed.

Lemma non_null_fallback_settles_witness :
  nullish (VStr "d") = false /\ ends None /\
  (forall fuel w,
     (storageFactory localStorage STORAGE_KEYS_PREFIX "k" (VStr "d") None (S fuel) w).1
     <> OutOfFuel)
  /\ (forall fuel subject v w,
        bound subject (closure localStorage STORAGE_KEYS_PREFIX "k" (VStr "d") None subject) w ->
        (BehaviorSubject_next (S (S fuel)) subject v w).1 <> OutOfFuel).
Proof.
  assert (ends None) as Hc by (intros c Hc; discriminate Hc).
  split; [reflexivity|]. split; [exact Hc|].
  exact (non_null_fallback_settles localStorage STORAGE_KEYS_PREFIX "k" (VStr "d") None
           eq_refl Hc).
Defined.

(** ** Publishing in sequence *)

Lemma notifications_app subject es es' :
  notifications subject (es ++ es') = notifications subject es ++ notifications subject es'.
Proof. apply omap_app. Qed.

(** X12. Values that are not nullish, published one after the other, reach
    the observer in that order, each once; when the last publish has
    returned, the last value is the current value and its stored form
    is what the entry holds. *)
Theorem publishes_arrive_in_order subject env fuel vs : forall w,
  bound subject env w ->
  Forall (fun v => nullish v = false /\ exists s, stored (c_converter env) v = Ok s) vs ->
  exists w',
    publish_all (S fuel) subject vs w = (Ok (), w')
    /\ notifications subject (events w') = notifications subject (events w) ++ vs
    /\ forall v, last vs = Some v ->
         current_value subject w' = Some v
         /\ exists s, stored (c_converter env) v = Ok s
                      /\ items w' (c_storage env) !! key_of env = Some s.
Proof.
  induction vs as [|v vs IH]; intros w Hb Hvs.
  - exists w. split; [done|]. split; [by rewrite app_nil_r|done].
  - apply Forall_cons in Hvs as [[Hv [s Hs]] Hvs].
    pose proof (next_value fuel subject env v s w Hb Hv Hs) as Hn.
    set (w1 := set_item _ _ _ _) in Hn.
    assert (bound subject env w1) as Hb1.
    { apply (bound_frame _ _ (assigned subject env v w)); [done|]. by apply bound_assigned. }
    destruct (IH w1 Hb1 Hvs) as (w' & Hp & Hnot & Hlast).
    exists w'. split; [|split].
    + unfold publish_all in *. cbn [for_each]. unfold mbind at 1, M_bind at 1. by rewrite Hn.
    + rewrite Hnot. subst w1. simpl. rewrite !notifications_app. simpl.
      rewrite decide_True by done. by rewrite app_nil_r, <- app_assoc.
    + intros v' Hv'. destruct vs as [|v2 vs].
      * injection Hv' as <-. unfold publish_all in Hp. cbn [for_each] in Hp. injection Hp as <-.
        split.
        -- subst w1. apply (current_value_assigned subject env). by apply (bound_lt _ env).
        -- exists s. split; [done|]. subst w1. simpl. rewrite fn_lookup_insert.
           apply lookup_insert_eq.
      * apply Hlast. by rewrite last_cons_cons in Hv'.
Qed.

Lemma publishes_arrive_in_order_witness :
  bound 0 scenario_env scenario_binding.2 /\
  exists w',
    publish_all 1 0 [VStr "value1"; VStr "value2"; VStr "value3"] scenario_binding.2 = (Ok (), w')
    /\ notifications 0 (events w')
       = notifications 0 (events scenario_binding.2)
         ++ [VStr "value1"; VStr "value2"; VStr "value3"]
    /\ forall v, last [VStr "value1"; VStr "value2"; VStr "value3"] = Some v ->
         current_value 0 w' = Some v
         /\ exists s, stored (c_converter scenario_env) v = Ok s
                      /\ items w' (c_storage scenario_env) !! key_of scenario_env = Some s.
Proof.
  assert (bound 0 scenario_env scenario_binding.2) as Hb.
  { split; [done|]. eexists. by vm_compute. }
  split; [exact Hb|].
  apply (publishes_arrive_in_order 0 scenario_env 0 _ scenario_binding.2 Hb).
  repeat constructor; eexists; reflexivity.
Defined.

(** ** Converters *)

(** X13. A converter whose [toJson] returns [undefined] spoils the entry.
    [JSON.stringify(undefined)] is [undefined], which [setItem] stores
    as the text [undefined]; that text is not JSON, so every later
    construction over the key throws a [SyntaxError], whatever its
    fallback and converter. *)
Theorem undefined_json_spoils_entry subject env c v fuel w :
  bound subject env w ->
  c_storageKey env <> EmptyString ->
  c_converter env = Some c ->
  nullish v = false ->
  toJson c v = Ok VUndefined ->
  exists w',
    BehaviorSubject_next (S fuel) subject v w = (Ok (), w')
    /\ current_value subject w' = Some v
    /\ items w' (c_storage env) !! key_of env = Some "undefined"
    /\ forall fallbackState' converter' fuel',
         storageFactory (c_storage env) (c_keyPrefix env) (c_storageKey env)
           fallbackState' converter' fuel' w'
         = (Throw SyntaxError, log (GetItem (c_storage env) (key_of env)) w').
Proof.
  intros Hb Hk Hc Hv Ht.
  assert (stored (c_converter env) v = Ok "undefined") as Hs.
  { rewrite Hc. simpl. by rewrite Ht. }
  eexists. split; [by apply (next_value _ _ env _ "undefined")|].
  split; [|split].
  - apply (current_value_assigned subject env). by apply (bound_lt _ env).
  - simpl. rewrite fn_lookup_insert. apply lookup_insert_eq.
  - intros fallbackState' converter' fuel'.
    apply construct_throw; [done|].
    simpl. rewrite fn_lookup_insert. unfold key_of. rewrite lookup_insert_eq.
    by destruct converter'.
Qed.

Lemma undefined_json_spoils_entry_witness :
  bound 0 forgetful_env forgetful_binding.2 /\
  exists w',
    BehaviorSubject_next 1 0 (VStr "x") forgetful_binding.2 = (Ok (), w')
    /\ current_value 0 w' = Some (VStr "x")
    /\ items w' localStorage !! key_of forgetful_env = Some "undefined"
    /\ forall fallbackState' converter' fuel',
         storageFactory localStorage STORAGE_KEYS_PREFIX "k" fallbackState' converter' fuel' w'
         = (Throw SyntaxError, log (GetItem localStorage (key_of forgetful_env)) w').
Proof.
  assert (bound 0 forgetful_env forgetful_binding.2) as Hb.
  { split; [reflexivity|]. eexists. reflexivity. }
  split; [exact Hb|].
  apply (undefined_json_spoils_entry 0 forgetful_env forgetful (VStr "x") 0 forgetful_binding.2);
    [exact Hb|discriminate|reflexivity|reflexivity|reflexivity].
Defined.

(** X14. An exception of the converter does not reach the publisher. When
    [toJson] throws on a published value, [next] returns normally: the
    value is the current value of the container, the store is left as
    it was, and the exception is reported apart. The container and the
    store then disagree. *)
Theorem converter_exception_is_swallowed subject env c v e fuel w :
  bound subject env w ->
  c_converter env = Some c ->
  nullish v = false ->
  toJson c v = Throw e ->
  exists w',
    BehaviorSubject_next (S fuel) subject v w = (Ok (), w')
    /\ current_value subject w' = Some v
    /\ items w' = items w
    /\ events w' = events w ++ [Notified subject v]
    /\ unhandled w' = unhandled w ++ [e].
Proof.
  intros Hb Hc Hv He. eexists. split.
  - rewrite (next_unfold _ _ env) by done. unfold mbind, M_bind.
    by rewrite (deliver_throw _ _ _ _ c e).
  - split; [|done].
    apply (current_value_assigned subject env). by apply (bound_lt _ env).
Qed.

Lemma converter_exception_is_swallowed_witness :
  bound 0 date_env date_binding.2 /\
  exists w',
    BehaviorSubject_next 1 0 (VObj []) date_binding.2 = (Ok (), w')
    /\ current_value 0 w' = Some (VObj [])
    /\ items w' = items date_binding.2
    /\ events w' = events date_binding.2 ++ [Notified 0 (VObj [])]
    /\ unhandled w' = unhandled date_binding.2
                      ++ [TypeError "Cannot read properties of null or undefined"].
Proof.
  assert (bound 0 date_env date_binding.2) as Hb.
  { split; [reflexivity|]. eexists. reflexivity. }
  split; [exact Hb|].
  apply (converter_exception_is_swallowed 0 date_env testkey2Converter (VObj []) _ 0
           date_binding.2); [exact Hb|reflexivity|reflexivity|reflexivity].
Defined.

Local Open Scope Z_scope.

(** X15. The converter of storage.spec.ts brings back the date it is given,
    an Invalid Date included, and nothing but the date: the other
    properties of the object are dropped. *)
Theorem converter_restores_the_date object d :
  Get_date object = Ok (VDate d) ->
  in_model (VDate d) = true ->
  (jsonValue ← toJson testkey2Converter object; fromJson testkey2Converter jsonValue)
  = Ok (VObj [("date", VDate d)]).
Proof.
  intros Hd Hm. cbn [toJson fromJson testkey2Converter]. rewrite Hd.
  destruct d as [t|]; [|done].
  simpl in *. unfold TimeClip. by rewrite Hm.
Qed.

Lemma converter_restores_the_date_witness :
  Get_date (VObj [("name", VStr "n"); ("date", DEFAULT_DATE)]) = Ok DEFAULT_DATE /\
  (jsonValue ← toJson testkey2Converter (VObj [("name", VStr "n"); ("date", DEFAULT_DATE)]);
   fromJson testkey2Converter jsonValue)
  = Ok (VObj [("date", DEFAULT_DATE)]).
Proof.
  split; [reflexivity|].
  apply (converter_restores_the_date (VObj [("name", VStr "n"); ("date", DEFAULT_DATE)])
           (Some 1704067200000)); reflexivity.
Defined.

(** X16. An Invalid Date does not survive the store. Published through a
    binding with the converter of storage.spec.ts, [{date: Invalid
    Date}] is stored as [{date: null}] ([getTime] gives [NaN], which
    JSON writes as [null]); a binding constructed later over the entry
    reads [{date: new Date(null)}], the first instant of 1970. *)
Theorem invalid_date_comes_back_as_epoch storage keyPrefix storageKey fallbackState
    subject w fallbackState' fuel fuel' :
  let env := closure storage keyPrefix storageKey fallbackState (Some testkey2Converter) subject in
  bound subject env w ->
  storageKey <> EmptyString ->
  exists w1 subject' w2,
    BehaviorSubject_next (S fuel) subject (VObj [("date", VDate None)]) w = (Ok (), w1)
    /\ items w1 storage !! (keyPrefix +:+ storageKey)
       = stringify (VObj [("date", VNull)])
    /\ storageFactory storage keyPrefix storageKey fallbackState' (Some testkey2Converter) fuel' w1
       = (Ok subject', w2)
    /\ current_value subject' w2 = Some (VObj [("date", VDate (Some 0))]).
Proof.
  intros env Hb Hk.
  destruct (JSON_parse_stringify (VObj [("date", VNull)]) eq_refl) as (s & Hs & Hne & Hp).
  assert (stored (Some testkey2Converter) (VObj [("date", VDate None)]) = Ok s) as Hst.
  { unfold JSON_stringify in Hs. simpl in Hs. injection Hs as <-. reflexivity. }
  assert (stringify (VObj [("date", VNull)]) = Some s) as Hs'.
  { unfold JSON_stringify in Hs. simpl in Hs. by injection Hs as <-. }
  eexists _, _, _. split; [by apply (next_value _ _ env _ s)|]. split; [|split].
  - simpl. rewrite fn_lookup_insert. unfold key_of. simpl. rewrite lookup_insert_eq.
    by rewrite Hs'.
  - apply (construct_value _ _ _ _ _ _ _ (VObj [("date", VDate (Some 0))])
             (ToString (stringify (VObj [("date", VNum (Int 0))])))); [done| |done|done].
    simpl. rewrite fn_lookup_insert. unfold key_of. simpl. rewrite lookup_insert_eq.
    unfold initial_value. rewrite truthy_nonempty by done. by rewrite Hp.
  - unfold current_value. simpl. by rewrite list_lookup_middle.
Qed.

Lemma invalid_date_comes_back_as_epoch_witness :
  bound 0 date_env date_binding.2 /\
  exists w1 subject' w2,
    BehaviorSubject_next 1 0 (VObj [("date", VDate None)]) date_binding.2 = (Ok (), w1)
    /\ items w1 sessionStorage !! (STORAGE_KEYS_PREFIX +:+ "testKey2")
       = stringify (VObj [("date", VNull)])
    /\ storageFactory sessionStorage STORAGE_KEYS_PREFIX "testKey2" (VObj [("date", DEFAULT_DATE)])
         (Some testkey2Converter) 0 w1
       = (Ok subject', w2)
    /\ current_value subject' w2 = Some (VObj [("date", VDate (Some 0))]).
Proof.
  assert (bound 0 date_env date_binding.2) as Hb.
  { split; [reflexivity|]. eexists. reflexivity. }
  split; [exact Hb|].
  apply (invalid_date_comes_back_as_epoch sessionStorage STORAGE_KEYS_PREFIX "testKey2"
           (VObj [("date", DEFAULT_DATE)]) 0 date_binding.2 (VObj [("date", DEFAULT_DATE)]) 0 0);
    [exact Hb|discriminate].
Defined.

Local Close Scope Z_scope.

(** ** What JSON makes of a value *)

Lemma plain_text t : Forall plain t -> concat (map escape t) = t.
Proof. induction 1 as [|c t Hc _ IH]; [done|]. simpl. by rewrite Hc, IH. Qed.

Lemma uint_text_plain d : Forall plain (uint_text d).
Proof. induction d; simpl; constructor; done. Qed.

Lemma N_text_plain n : Forall plain (N_text n).
Proof. apply uint_text_plain. Qed.

Lemma Z_text_plain z : Forall plain (Z_text z).
Proof.
  unfold Z_text. destruct (z <? 0)%Z; [constructor; [done|]|]; apply N_text_plain.
Qed.

Lemma pad_plain width t : Forall plain t -> Forall plain (pad width t).
Proof.
  intros Ht. unfold pad. apply Forall_app. split; [|done].
  apply Forall_forall. intros c Hc. apply list_elem_of_In, repeat_spec in Hc. by subst c.
Qed.

Lemma year_text_plain y : Forall plain (year_text y).
Proof.
  unfold year_text. destruct (_ && _).
  - apply pad_plain, Z_text_plain.
  - constructor; [by destruct (y <? 0)%Z|]. apply pad_plain, N_text_plain.
Qed.

Lemma toISOString_plain t : Forall plain (toISOString t).
Proof.
  unfold toISOString. destruct (civil_from_days _) as [[y m] d].
  repeat first [ apply year_text_plain
               | apply pad_plain, Z_text_plain
               | apply Forall_app; split
               | apply Forall_cons; split; [done|]
               | apply Forall_nil_2 ].
Qed.

Lemma serialize_None v : serialize v = None -> v = VUndefined.
Proof. destruct v as [| |[]|[]| |[]| |]; done. Qed.

Lemma serialize_json_text v : v <> VUndefined -> serialize v = Some (json_text v).
Proof.
  intros Hv. unfold json_text. destruct (serialize v) eqn:E; [done|].
  by apply serialize_None in E.
Qed.

Lemma omap_keys_sublist {A B} (f : string * A -> option (string * B)) ms :
  (forall kv kv', f kv = Some kv' -> kv'.1 = kv.1) ->
  sublist (omap f ms).*1 ms.*1.
Proof.
  intros Hf. induction ms as [|kv ms IH]; [done|].
  simpl. destruct (f kv) as [kv'|] eqn:E; simpl.
  - rewrite (Hf _ _ E). by apply sublist_skip.
  - by apply sublist_cons.
Qed.

Lemma image_text v :
  in_model v = true ->
  encodable (JSON_image v) = true /\ json_text (JSON_image v) = json_text v.
Proof.
  induction v as [| |b|n|s|t|l IH|ms IH] using value_ind; intros Hm; try done.
  - by destruct n.
  - destruct t as [t|]; [|done]. split; [done|].
    unfold json_text. simpl. unfold quote. rewrite str_of_text.
    by rewrite (plain_text _ (toISOString_plain t)).
  - simpl in Hm. rewrite forallb_forall in Hm.
    assert (Forall (fun v => encodable (JSON_image v) = true
                             /\ json_text (JSON_image v) = json_text v) l) as Hall.
    { rewrite Forall_forall in IH. apply Forall_forall. intros v Hv.
      apply IH; [done|]. apply Hm. by apply list_elem_of_In. }
    split.
    + simpl. apply forallb_forall. intros v Hv. apply in_map_iff in Hv as (u & <- & Hu).
      rewrite Forall_forall in Hall. apply Hall. by apply list_elem_of_In.
    + unfold json_text. cbn [JSON_image]. rewrite !serialize_arr. simpl. do 3 f_equal.
      rewrite map_map. apply map_ext_Forall. eapply Forall_impl; [exact Hall|]. by intros v [_ ?].
  - simpl in Hm. apply andb_true_iff in Hm as [Hm Hnd].
    apply bool_decide_eq_true in Hnd. rewrite forallb_forall in Hm.
    set (f := fun kv : string * value =>
                match kv.2 with
                | VUndefined => None
                | _ => Some (kv.1, JSON_image kv.2)
                end).
    assert (Forall (fun kv : string * value =>
                      negb (integer_key kv.1) = true
                      /\ encodable (JSON_image kv.2) = true
                      /\ json_text (JSON_image kv.2) = json_text kv.2) ms) as Hall.
    { rewrite Forall_forall in IH. apply Forall_forall. intros kv Hkv.
      specialize (Hm kv (proj1 (list_elem_of_In _ _) Hkv)).
      apply andb_true_iff in Hm as [Hk Hv]. split; [done|]. by apply IH. }
    clear IH Hm.
    assert (forall kv kv', f kv = Some kv' -> kv'.1 = kv.1) as Hf.
    { intros [k v] kv'. unfold f. simpl. by destruct v; intros [= <-]. }
    split.
    + change (JSON_image (VObj ms)) with (VObj (omap f ms)). cbn [encodable].
      apply andb_true_iff. split.
      * apply forallb_forall. intros kv' Hkv'.
        apply list_elem_of_In, list_elem_of_omap in Hkv' as (kv & Hkv & E).
        rewrite Forall_forall in Hall. destruct (Hall kv Hkv) as (Hk & He & _).
        destruct kv as [k v].
        assert (kv' = (k, JSON_image v)) as ->.
        { unfold f in E. destruct v; simpl in *; congruence. }
        cbn [fst snd] in *. by rewrite Hk, He.
      * apply bool_decide_eq_true. eapply sublist_NoDup; [exact Hnd|].
        by apply omap_keys_sublist.
    + unfold json_text. change (JSON_image (VObj ms)) with (VObj (omap f ms)).
      cbn [serialize default]. do 4 f_equal.
      clear Hnd. induction Hall as [|[k v] ms (Hk & He & Ht) _ IHms]; [done|].
      cbn [fst snd] in *.
      cbn [omap list_omap map concat]. fold (omap f ms).
      assert (v = VUndefined \/ v <> VUndefined) as [->|Hv]
        by (destruct v; first [by left|by right]).
      { exact IHms. }
      assert (f (k, v) = Some (k, JSON_image v)) as -> by (unfold f; simpl; by destruct v).
      cbn [map concat]. rewrite IHms. f_equal. cbn [fst snd].
      rewrite (serialize_json_text v Hv).
      assert (JSON_image v <> VUndefined) as Hi by (intros E; by rewrite E in He).
      by rewrite (serialize_json_text _ Hi), Ht.
Qed.

Lemma image_of_encodable v : encodable v = true -> JSON_image v = v.
Proof.
  induction v as [| |b|n|s|t|l IH|ms IH] using value_ind; intros Henc;
    try discriminate Henc; try done.
  - by destruct n.
  - simpl in *. f_equal. rewrite forallb_forall in Henc.
    rewrite <- (map_id l) at 2. apply map_ext_Forall.
    rewrite Forall_forall in IH. apply Forall_forall. intros v Hv.
    apply IH; [done|]. apply Henc. by apply list_elem_of_In.
  - simpl in *. f_equal. apply andb_true_iff in Henc as [Henc _].
    rewrite forallb_forall in Henc.
    induction ms as [|[k v] ms IHms]; [done|].
    apply Forall_cons in IH as [Hv IH].
    assert (encodable v = true) as He.
    { specialize (Henc (k, v) (or_introl eq_refl)). by apply andb_true_iff in Henc as [_ ?]. }
    cbn [omap list_omap]. simpl in *.
    rewrite (Hv He). rewrite IHms; [by destruct v|done|].
    intros kv Hkv. apply Henc. by right.
Qed.

(** The text written for a value of the model parses to its image. *)
Lemma stored_image v :
  in_model v = true -> v <> VUndefined ->
  exists s, stored None v = Ok s /\ s <> EmptyString /\ JSON_parse s = Ok (JSON_image v).
Proof.
  intros Hm Hv. destruct (image_text v Hm) as [Henc Ht].
  destruct (JSON_parse_stringify _ Henc) as (s & Hs & Hne & Hp).
  exists s. split; [|done].
  unfold stored, JSON_stringify in *. rewrite Hm. rewrite (encodable_in_model _ Henc) in Hs.
  simpl in *. unfold stringify in *.
  rewrite (serialize_json_text v Hv).
  assert (JSON_image v <> VUndefined) as Hi by (intros E; by rewrite E in Henc).
  rewrite (serialize_json_text _ Hi), Ht in Hs. simpl in *. by injection Hs as <-.
Qed.

Lemma publish_then_read storage keyPrefix storageKey fallbackState subject w v
    fallbackState' fuel fuel' :
  let env := closure storage keyPrefix storageKey fallbackState None subject in
  bound subject env w ->
  storageKey <> EmptyString ->
  in_model v = true ->
  nullish v = false ->
  nullish (JSON_image v) = false ->
  exists w1 subject' w2,
    BehaviorSubject_next (S fuel) subject v w = (Ok (), w1)
    /\ storageFactory storage keyPrefix storageKey fallbackState' None fuel' w1
       = (Ok subject', w2)
    /\ current_value subject' w2 = Some (JSON_image v).
Proof.
  intros env Hb Hk Hm Hv Hi.
  destruct (stored_image v Hm) as (s & Hs & Hne & Hp); [by destruct v|].
  destruct (image_text v Hm) as [Henc _].
  apply (publish_then_construct storage keyPrefix storageKey fallbackState None
           subject w v s fallbackState' None (JSON_image v)); try done.
  - unfold initial_value. by rewrite truthy_nonempty.
  - destruct (stored_encodable _ Henc) as (s' & Hs' & _). by exists s'.
Qed.

Local Open Scope Z_scope.

(** X17. Without converter a published value comes back as its JSON image.
    Publishing a value of the model that is not nullish and whose
    image is not [null] through a binding, then constructing a fresh
    binding over the same entry, gives a container whose current
    value is what JSON makes of the value: dates have become strings,
    [NaN] inside an array or an object has become [null], the
    properties that were [undefined] are gone. The values that JSON
    carries unchanged are their own image. (A value whose image is
    [null], a [NaN] or an Invalid Date by itself, is stored as [null]:
    the fresh binding then resets to its fallback.) *)
Theorem published_value_comes_back_as_image storage keyPrefix storageKey fallbackState
    subject w v fallbackState' fuel fuel' :
  let env := closure storage keyPrefix storageKey fallbackState None subject in
  bound subject env w ->
  storageKey <> EmptyString ->
  in_model v = true ->
  nullish v = false ->
  nullish (JSON_image v) = false ->
  (exists w1 subject' w2,
     BehaviorSubject_next (S fuel) subject v w = (Ok (), w1)
     /\ storageFactory storage keyPrefix storageKey fallbackState' None fuel' w1
        = (Ok subject', w2)
     /\ current_value subject' w2 = Some (JSON_image v))
  /\ (encodable v = true -> JSON_image v = v).
Proof.
  intros env Hb Hk Hm Hv Hi. split; [|apply image_of_encodable].
  by apply (publish_then_read storage keyPrefix storageKey fallbackState).
Qed.

Lemma published_value_comes_back_as_image_witness :
  let v := VObj [("n", VNum NaN); ("u", VUndefined); ("l", VArr [VUndefined; VNum (Int 1)])] in
  bound 0 scenario_env scenario_binding.2 /\
  JSON_image v = VObj [("n", VNull); ("l", VArr [VNull; VNum (Int 1)])] /\
  (exists w1 subject' w2,
     BehaviorSubject_next 1 0 v scenario_binding.2 = (Ok (), w1)
     /\ storageFactory localStorage STORAGE_KEYS_PREFIX "k" (VStr "d") None 0 w1
        = (Ok subject', w2)
     /\ current_value subject' w2 = Some (JSON_image v))
  /\ (encodable v = true -> JSON_image v = v).
Proof.
  intros v.
  assert (bound 0 scenario_env scenario_binding.2) as Hb.
  { split; [done|]. eexists. by vm_compute. }
  split; [exact Hb|]. split; [reflexivity|].
  apply (published_value_comes_back_as_image localStorage STORAGE_KEYS_PREFIX "k" (VStr "d") 0
           scenario_binding.2 v (VStr "d") 0 0);
    [exact Hb|discriminate|reflexivity|reflexivity|reflexivity].
Defined.

(** X18. The example of the documentation of [LocalStorage],
    [@LocalStorage('key', { date: new Date() })]: without converter a
    date is stored as its ISO string and comes back as that string,
    not as a date. *)
Theorem date_comes_back_as_string storage keyPrefix storageKey fallbackState
    subject w t fallbackState' fuel fuel' :
  let env := closure storage keyPrefix storageKey fallbackState None subject in
  bound subject env w ->
  storageKey <> EmptyString ->
  Z.abs t <= MAX_TIME ->
  exists w1 subject' w2,
    BehaviorSubject_next (S fuel) subject (VObj [("date", VDate (Some t))]) w = (Ok (), w1)
    /\ storageFactory storage keyPrefix storageKey fallbackState' None fuel' w1
       = (Ok subject', w2)
    /\ current_value subject' w2 = Some (VObj [("date", VStr (of_text (toISOString t)))]).
Proof.
  intros env Hb Hk Ht.
  apply (publish_then_read storage keyPrefix storageKey fallbackState subject w
           (VObj [("date", VDate (Some t))])); try done.
  simpl. by destruct (Z.leb_spec (Z.abs t) MAX_TIME); [|lia].
Qed.

Lemma date_comes_back_as_string_witness :
  bound 0 scenario_env scenario_binding.2 /\ Z.abs 1704067200000 <= MAX_TIME /\
  of_text (toISOString 1704067200000) = "2024-01-01T00:00:00.000Z" /\
  exists w1 subject' w2,
    BehaviorSubject_next 1 0 (VObj [("date", DEFAULT_DATE)]) scenario_binding.2 = (Ok (), w1)
    /\ storageFactory localStorage STORAGE_KEYS_PREFIX "k" (VStr "d") None 0 w1
       = (Ok subject', w2)
    /\ current_value subject' w2
       = Some (VObj [("date", VStr (of_text (toISOString 1704067200000)))]).
Proof.
  assert (bound 0 scenario_env scenario_binding.2) as Hb.
  { split; [done|]. eexists. by vm_compute. }
  assert (Z.abs 1704067200000 <= MAX_TIME) as Ht by (by vm_compute).
  split; [exact Hb|]. split; [exact Ht|]. split; [by vm_compute|].
  apply (date_comes_back_as_string localStorage STORAGE_KEYS_PREFIX "k" (VStr "d") 0
           scenario_binding.2 1704067200000 (VStr "d") 0 0); [exact Hb|discriminate|exact Ht].
Defined.

Local Close Scope Z_scope.

(** ** The world with listeners agrees with the world without *)

Lemma agrees_bind {A B} (m : M A) (m' : Subscribers.M A) (k : A -> M B)
    (k' : A -> Subscribers.M B) :
  agrees m m' -> (forall a, agrees (k a) (k' a)) -> agrees (m ≫= k) (m' ≫= k').
Proof.
  intros Hm Hk w. unfold mbind, Subscribers.M_bind, M_bind. rewrite Hm.
  destruct (m w) as [[a| | |] w1]; simpl; [apply Hk|done..].
Qed.

Lemma agrees_ret {A} (a : A) : agrees (mret a) (mret a).
Proof. by intros w. Qed.

Lemma agrees_lift {A} (o : outcome A) : agrees (lift o) (Subscribers.lift o).
Proof. by intros w. Qed.

Lemma agrees_setItem storage key item :
  agrees (Storage_setItem storage key item) (Subscribers.Storage_setItem storage key item).
Proof. by intros w. Qed.

Lemma agrees_removeItem storage key :
  agrees (Storage_removeItem storage key) (Subscribers.Storage_removeItem storage key).
Proof. by intros w. Qed.

Lemma agrees_getItem storage key :
  agrees (Storage_getItem storage key) (Subscribers.Storage_getItem storage key).
Proof. by intros w. Qed.

Lemma agrees_for_each (l : list Observer) (f : Observer -> M unit)
    (f' : Subscribers.Observer -> Subscribers.M unit) :
  (forall o, agrees (f o) (f' (lift_observer o))) ->
  agrees (for_each l f) (Subscribers.for_each (lift_observer <$> l) f').
Proof.
  intros Hf. induction l as [|o l IH]; [by intros w|].
  cbn [fmap list_fmap Subscribers.for_each for_each].
  apply agrees_bind; [apply Hf|]. by intros [].
Qed.

Lemma agrees_deliver (next : nat -> value -> M unit)
    (next' : nat -> value -> Subscribers.M unit) subject o v :
  (forall a x, agrees (next a x) (next' a x)) ->
  agrees (Subscriber_next next subject o v)
         (Subscribers.Subscriber_next next' subject (lift_observer o) v).
Proof.
  intros Hnext w. unfold Subscribers.Subscriber_next, Subscriber_next.
  assert (agrees (run_observer next o v) (Subscribers.run_observer next' (lift_observer o) v))
    as Hrun.
  { destruct o as [env]. cbn [lift_observer Subscribers.run_observer run_observer].
    unfold Subscribers.writeBack, writeBack. destruct (nullish v).
    - apply agrees_bind; [apply agrees_removeItem|]. intros []. apply Hnext.
    - destruct (c_converter env) as [c|].
      + apply agrees_bind; [apply agrees_lift|]. intros j.
        apply agrees_bind; [apply agrees_lift|]. intros s. apply agrees_setItem.
      + apply agrees_bind; [apply agrees_lift|]. intros s. apply agrees_setItem. }
  change (Subscribers.log (Notified subject v) (with_listeners w))
    with (with_listeners (log (Notified subject v) w)).
  rewrite Hrun. by destruct (run_observer _ _ _ _) as [[[]| | |] w1].
Qed.

Lemma with_listeners_subject subject w :
  Subscribers.subjects (with_listeners w) !! subject
  = (fun s => {| Subscribers._value := _value s;
                 Subscribers.observers := lift_observer <$> observers s |})
    <$> subjects w !! subject.
Proof. unfold with_listeners. simpl. by rewrite list_lookup_fmap. Qed.

Lemma agrees_deref subject (k : BehaviorSubject -> M unit)
    (k' : Subscribers.BehaviorSubject -> Subscribers.M unit) :
  (forall s, agrees (k s) (k' {| Subscribers._value := _value s;
                                  Subscribers.observers := lift_observer <$> observers s |})) ->
  agrees (deref subject ≫= k) (Subscribers.deref subject ≫= k').
Proof.
  intros Hk w. unfold mbind, Subscribers.M_bind, M_bind, Subscribers.deref, deref.
  rewrite with_listeners_subject.
  destruct (subjects w !! subject) as [s|]; [apply Hk|done].
Qed.

Lemma agrees_assign subject v (l : list Observer) :
  agrees (assign subject {| _value := v; observers := l |})
         (Subscribers.assign subject {| Subscribers._value := v;
                                        Subscribers.observers := lift_observer <$> l |}).
Proof.
  intros w. unfold Subscribers.assign, assign, Subscribers.modify, modify. simpl. f_equal.
  unfold with_listeners, Subscribers.with_subjects. simpl. f_equal.
  by rewrite list_fmap_insert.
Qed.

(** A publish in a world without listeners is the publish of the
    world above. *)
Lemma agrees_next fuel : forall subject v,
  agrees (BehaviorSubject_next fuel subject v) (Subscribers.BehaviorSubject_next fuel subject v).
Proof.
  induction fuel as [|fuel IH]; intros subject v; [by intros w|].
  cbn [Subscribers.BehaviorSubject_next BehaviorSubject_next].
  apply agrees_deref. intros s. cbn [Subscribers.observers].
  apply agrees_bind; [apply agrees_assign|]. intros [].
  apply agrees_for_each. intros o. by apply agrees_deliver.
Qed.

Lemma agrees_new_BehaviorSubject v :
  agrees (new_BehaviorSubject v) (Subscribers.new_BehaviorSubject v).
Proof.
  intros w. unfold Subscribers.new_BehaviorSubject, new_BehaviorSubject. simpl.
  rewrite length_fmap. f_equal.
  unfold with_listeners, Subscribers.with_subjects. simpl. f_equal. by rewrite fmap_app.
Qed.

(** So is the construction of a binding. *)
Lemma agrees_storageFactory storage keyPrefix storageKey fallbackState converter fuel :
  agrees (storageFactory storage keyPrefix storageKey fallbackState converter fuel)
         (Subscribers.storageFactory storage keyPrefix storageKey fallbackState converter fuel).
Proof.
  unfold Subscribers.storageFactory, storageFactory.
  destruct (String.eqb storageKey EmptyString); [by intros w|].
  apply agrees_bind; [apply agrees_getItem|]. intros storedString.
  apply agrees_bind; [apply agrees_lift|]. intros initialValue.
  apply agrees_bind; [apply agrees_new_BehaviorSubject|]. intros subject.
  apply agrees_bind; [|intros []; apply agrees_ret].
  set (env := {| c_storage := storage; c_keyPrefix := keyPrefix; c_storageKey := storageKey;
                 c_fallbackState := fallbackState; c_converter := converter;
                 c_subject := subject |}).
  unfold Subscribers.BehaviorSubject_subscribe, BehaviorSubject_subscribe.
  apply agrees_deref. intros s. cbn [Subscribers.observers Subscribers._value].
  apply agrees_bind.
  - change [Subscribers.WriteBack env] with (lift_observer <$> [WriteBack env]).
    rewrite <- fmap_app. apply agrees_assign.
  - intros []. apply (agrees_deliver _ _ _ (WriteBack env)). apply agrees_next.
Qed.

Lemma bound_with_listeners subject env w :
  bound subject env w -> Subscribers.bound subject env [] (with_listeners w).
Proof.
  intros [Hs [v Hv]]. split; [done|]. exists v.
  rewrite with_listeners_subject, Hv. reflexivity.
Qed.

(** A binding constructed in a world where no one listens yet. *)
Lemma construct_with_listeners storage keyPrefix storageKey fallbackState converter fuel w
    subject w1 :
  Subscribers.storageFactory storage keyPrefix storageKey fallbackState converter fuel
    (with_listeners w) = (Ok subject, w1) ->
  Subscribers.bound subject
    (closure storage keyPrefix storageKey fallbackState converter subject) [] w1
  /\ Subscribers.received w1 = [].
Proof.
  intros Hc. rewrite agrees_storageFactory in Hc.
  destruct (storageFactory storage keyPrefix storageKey fallbackState converter fuel w)
    as [r u] eqn:E.
  simpl in Hc. injection Hc as -> <-. split; [|done].
  apply bound_with_listeners. by apply (construct_bound _ _ _ _ _ _ _ _ _ E).
Qed.

(** ** What the subscribers of the application are handed *)

Section subscribers.
Import Subscribers.

(** 'should emit correct values' *)
Example should_emit_correct_values :
  let w := (publish_all 2 0 [VStr "value1"; VStr "value2"; VStr "value3"]
              emition_subscribed.2).2 in
  received w = [(7, VStr "emitionTestValue"); (7, VStr "value1"); (7, VStr "value2");
                (7, VStr "value3")].
Proof. reflexivity. Qed.

Lemma heard_nil subject v w : heard subject [] v w = w.
Proof. destruct w. unfold heard. simpl. by rewrite !app_nil_r. Qed.

Lemma heard_cons subject id ids v w :
  heard subject (id :: ids) v w = heard subject ids v (keep id v (log (Notified subject v) w)).
Proof. unfold heard. simpl. by rewrite <- !app_assoc. Qed.

Lemma listeners_hear next subject v ids : forall w,
  for_each (map Listener ids) (fun o => Subscriber_next next subject o v) w
  = (Ok (), heard subject ids v w).
Proof.
  induction ids as [|id ids IH]; intros w; [by rewrite heard_nil|].
  rewrite heard_cons. cbn [map for_each]. unfold mbind at 1, M_bind at 1.
  unfold Subscriber_next at 1. cbn [run_observer]. unfold modify. apply IH.
Qed.

Lemma subscribed_lt subject env ids w : bound subject env ids w -> subject < length (subjects w).
Proof. intros [_ [v Hv]]. by apply lookup_lt_Some in Hv. Qed.

Lemma subscribed_assigned subject env ids v w :
  bound subject env ids w -> bound subject env ids (assigned subject env ids v w).
Proof.
  intros Hb. pose proof (subscribed_lt _ _ _ _ Hb). destruct Hb as [Hs _].
  split; [done|]. exists v. simpl. by apply list_lookup_insert_eq.
Qed.

Lemma subscribed_frame subject env ids w w' :
  subjects w' = subjects w -> bound subject env ids w -> bound subject env ids w'.
Proof. intros E [Hs Hv]. split; [done|]. by rewrite E. Qed.

Lemma publish_unfold fuel subject env ids v w :
  bound subject env ids w ->
  BehaviorSubject_next (S fuel) subject v w
  = (Subscriber_next (BehaviorSubject_next fuel) subject (WriteBack env) v;;
     for_each (map Listener ids)
       (fun o => Subscriber_next (BehaviorSubject_next fuel) subject o v) : M unit)
      (assigned subject env ids v w).
Proof.
  intros [Hs [v0 Hb]]. cbn [BehaviorSubject_next].
  unfold mbind at 1, M_bind at 1, deref. rewrite Hb. reflexivity.
Qed.

Lemma write_back_value next subject env v s w :
  nullish v = false -> stored (c_converter env) v = Ok s ->
  Subscriber_next next subject (WriteBack env) v w
  = (Ok (), set_item (c_storage env) (key_of env) s (log (Notified subject v) w)).
Proof.
  intros Hv Hst. unfold Subscriber_next, run_observer, writeBack. rewrite Hv.
  unfold stored in Hst. destruct (c_converter env) as [c|].
  - unfold mbind, M_bind, lift. destruct (toJson c v) as [j| | |]; try discriminate Hst.
    cbn in Hst. destruct (JSON_stringify j); try discriminate Hst.
    cbn in Hst. by injection Hst as <-.
  - unfold mbind, M_bind, lift. destruct (JSON_stringify v); try discriminate Hst.
    cbn in Hst. by injection Hst as <-.
Qed.

Lemma publish_value fuel subject env ids v s w :
  bound subject env ids w -> nullish v = false -> stored (c_converter env) v = Ok s ->
  BehaviorSubject_next (S fuel) subject v w
  = (Ok (), heard subject ids v
              (set_item (c_storage env) (key_of env) s
                 (log (Notified subject v) (assigned subject env ids v w)))).
Proof.
  intros Hb Hv Hst. rewrite (publish_unfold _ _ env ids) by done.
  unfold mbind, M_bind. rewrite (write_back_value _ _ _ _ s) by done.
  apply listeners_hear.
Qed.

Lemma publish_null fuel subject env ids v s w :
  bound subject env ids w -> nullish v = true ->
  nullish (c_fallbackState env) = false ->
  stored (c_converter env) (c_fallbackState env) = Ok s ->
  BehaviorSubject_next (S (S fuel)) subject v w
  = (Ok (), heard subject ids v
              (heard subject ids (c_fallbackState env)
                 (set_item (c_storage env) (key_of env) s
                    (log (Notified subject (c_fallbackState env))
                       (assigned subject env ids (c_fallbackState env)
                          (remove_item (c_storage env) (key_of env)
                             (log (Notified subject v) (assigned subject env ids v w)))))))).
Proof.
  intros Hb Hv Hf Hst. rewrite (publish_unfold _ _ env ids) by done.
  unfold mbind at 1, M_bind at 1.
  unfold Subscriber_next at 1. cbn [run_observer]. unfold writeBack. rewrite Hv.
  unfold mbind at 1, M_bind at 1, Storage_removeItem, modify.
  pose proof Hb as [Hs _]. rewrite Hs.
  rewrite (publish_value _ _ env ids _ s);
    [|by apply (subscribed_frame _ _ _ (assigned subject env ids v w)), subscribed_assigned
     |done..].
  apply listeners_hear.
Qed.

Lemma subscribe_listener subject env ids id v fuel w :
  bound subject env ids w ->
  current_value subject w = Some v ->
  BehaviorSubject_subscribe fuel subject (Listener id) w
  = (Ok (), keep id v (log (Notified subject v) (assigned subject env (ids ++ [id]) v w))).
Proof.
  intros [Hs [v0 Hb]] Hv. unfold current_value in Hv. rewrite Hb in Hv. injection Hv as ->.
  unfold BehaviorSubject_subscribe. unfold mbind at 1, M_bind at 1, deref. rewrite Hb.
  unfold mbind, M_bind, assign, modify, assigned. cbn [_value observers].
  rewrite map_app. reflexivity.
Qed.

Lemma subscribed_listener subject env ids id v w :
  bound subject env ids w ->
  bound subject env (ids ++ [id])
    (keep id v (log (Notified subject v) (assigned subject env (ids ++ [id]) v w))).
Proof.
  intros Hb. pose proof (subscribed_lt _ _ _ _ Hb) as Hlt. destruct Hb as [Hs _].
  split; [done|]. exists v. simpl. by apply list_lookup_insert_eq.
Qed.

(** X19. A subscriber is handed the current value of the container at once;
    the subscription reads and writes no storage. *)
Theorem subscriber_is_handed_current_value subject env ids id v fuel w :
  bound subject env ids w ->
  current_value subject w = Some v ->
  exists w',
    BehaviorSubject_subscribe fuel subject (Listener id) w = (Ok (), w')
    /\ received w' = received w ++ [(id, v)]
    /\ bound subject env (ids ++ [id]) w'
    /\ current_value subject w' = Some v
    /\ items w' = items w
    /\ events w' = events w ++ [Notified subject v].
Proof.
  intros Hb Hv. eexists. split; [by apply (subscribe_listener _ env ids)|].
  split; [done|]. split; [by apply subscribed_listener|]. split; [|done].
  unfold current_value. simpl. rewrite list_lookup_insert_eq; [done|].
  by apply (subscribed_lt _ env ids).
Qed.

Lemma subscriber_is_handed_current_value_witness :
  bound 0 emition_env [] emition_binding.2 /\
  exists w',
    BehaviorSubject_subscribe 2 0 (Listener 7) emition_binding.2 = (Ok (), w')
    /\ received w' = received emition_binding.2 ++ [(7, VStr "emitionTestValue")]
    /\ bound 0 emition_env ([] ++ [7]) w'
    /\ current_value 0 w' = Some (VStr "emitionTestValue")
    /\ items w' = items emition_binding.2
    /\ events w' = events emition_binding.2 ++ [Notified 0 (VStr "emitionTestValue")].
Proof.
  assert (bound 0 emition_env [] emition_binding.2) as Hb.
  { split; [reflexivity|]. eexists. reflexivity. }
  split; [exact Hb|].
  apply (subscriber_is_handed_current_value 0 emition_env [] 7 (VStr "emitionTestValue") 2
           emition_binding.2 Hb). reflexivity.
Defined.

(** X20. A published value that is not nullish is handed to every
    subscriber once, in the order of subscription, after the entry was
    written: a subscriber that looks into the storage finds the value
    it is handed. *)
Theorem subscribers_hear_published_value subject env ids v s fuel w :
  bound subject env ids w ->
  nullish v = false ->
  stored (c_converter env) v = Ok s ->
  exists w',
    BehaviorSubject_next (S fuel) subject v w = (Ok (), w')
    /\ received w' = received w ++ map (fun id => (id, v)) ids
    /\ events w' = events w ++ Notified subject v :: SetItem (c_storage env) (key_of env) s
                               :: map (fun _ => Notified subject v) ids
    /\ items w' (c_storage env) !! key_of env = Some s
    /\ current_value subject w' = Some v.
Proof.
  intros Hb Hv Hs. eexists. split; [by apply (publish_value _ _ env ids _ s)|].
  split; [done|]. split; [|split].
  - simpl. by rewrite <- !app_assoc.
  - simpl. rewrite fn_lookup_insert. apply lookup_insert_eq.
  - unfold current_value. simpl. rewrite list_lookup_insert_eq; [done|].
    by apply (subscribed_lt _ env ids).
Qed.

Lemma subscribers_hear_published_value_witness :
  bound 0 emition_env [7] emition_subscribed.2 /\
  exists w',
    BehaviorSubject_next 1 0 (VStr "value1") emition_subscribed.2 = (Ok (), w')
    /\ received w' = received emition_subscribed.2 ++ map (fun id => (id, VStr "value1")) [7]
    /\ events w' = events emition_subscribed.2 ++
         Notified 0 (VStr "value1")
         :: SetItem sessionStorage (key_of emition_env) (ToString (stringify (VStr "value1")))
         :: map (fun _ => Notified 0 (VStr "value1")) [7]
    /\ items w' sessionStorage !! key_of emition_env = Some (ToString (stringify (VStr "value1")))
    /\ current_value 0 w' = Some (VStr "value1").
Proof.
  assert (bound 0 emition_env [7] emition_subscribed.2) as Hb.
  { split; [reflexivity|]. eexists. reflexivity. }
  split; [exact Hb|].
  apply (subscribers_hear_published_value 0 emition_env [7] (VStr "value1") _ 0
           emition_subscribed.2 Hb); reflexivity.
Defined.

(** X21. A reset reaches the subscribers in the wrong order. When a nullish
    value is published, the write-back observer, which is first in
    line, publishes the fallback from within the notification; the
    subscribers are handed the fallback then, and the nullish value
    only afterwards, when the outer notification goes on. The last
    value a subscriber is handed is the nullish one, while the current
    value of the container and the entry are the fallback. *)
Theorem subscribers_hear_null_last subject env ids v s fuel w :
  bound subject env ids w ->
  nullish v = true ->
  nullish (c_fallbackState env) = false ->
  stored (c_converter env) (c_fallbackState env) = Ok s ->
  exists w',
    BehaviorSubject_next (S (S fuel)) subject v w = (Ok (), w')
    /\ received w' = received w ++ map (fun id => (id, c_fallbackState env)) ids
                                ++ map (fun id => (id, v)) ids
    /\ current_value subject w' = Some (c_fallbackState env)
    /\ items w' (c_storage env) !! key_of env = Some s.
Proof.
  intros Hb Hv Hf Hs. eexists. split; [by apply (publish_null _ _ env ids _ s)|].
  split; [|split].
  - simpl. by rewrite <- app_assoc.
  - unfold current_value. simpl. rewrite list_lookup_insert_eq; [done|].
    rewrite length_insert. by apply (subscribed_lt _ env ids).
  - simpl. rewrite !fn_lookup_insert. apply lookup_insert_eq.
Qed.

Lemma subscribers_hear_null_last_witness :
  bound 0 emition_env [7] emition_subscribed.2 /\
  exists w',
    BehaviorSubject_next 2 0 VNull emition_subscribed.2 = (Ok (), w')
    /\ received w' = received emition_subscribed.2
                     ++ map (fun id => (id, c_fallbackState emition_env)) [7]
                     ++ map (fun id => (id, VNull)) [7]
    /\ current_value 0 w' = Some (VStr "emitionTestValue")
    /\ items w' sessionStorage !! key_of emition_env
       = Some (ToString (stringify (VStr "emitionTestValue"))).
Proof.
  assert (bound 0 emition_env [7] emition_subscribed.2) as Hb.
  { split; [reflexivity|]. eexists. reflexivity. }
  split; [exact Hb|].
  apply (subscribers_hear_null_last 0 emition_env [7] VNull _ 0 emition_subscribed.2 Hb);
    reflexivity.
Defined.

Lemma publish_all_heard subject env ids fuel vs : forall w,
  bound subject env ids w ->
  Forall (fun v => nullish v = false /\ exists s, stored (c_converter env) v = Ok s) vs ->
  exists w',
    publish_all (S fuel) subject vs w = (Ok (), w')
    /\ received w' = received w ++ concat (map (fun v => map (fun id => (id, v)) ids) vs)
    /\ bound subject env ids w'.
Proof.
  induction vs as [|v vs IH]; intros w Hb Hvs.
  - exists w. split; [done|]. split; [by rewrite app_nil_r|done].
  - apply Forall_cons in Hvs as [[Hv [s Hs]] Hvs].
    pose proof (publish_value fuel subject env ids v s w Hb Hv Hs) as Hn.
    set (w1 := heard _ _ _ _) in Hn.
    assert (bound subject env ids w1) as Hb1.
    { apply (subscribed_frame _ _ _ (assigned subject env ids v w)); [done|].
      by apply subscribed_assigned. }
    destruct (IH w1 Hb1 Hvs) as (w' & Hp & Hr & Hb').
    exists w'. split; [|split; [|done]].
    + unfold publish_all in *. cbn [for_each]. unfold mbind at 1, M_bind at 1. by rewrite Hn.
    + rewrite Hr. subst w1. simpl. by rewrite <- app_assoc.
Qed.

(** X22. 'should emit correct values', for any values. In a world where no
    one listens yet, a binding is constructed, an observer subscribes
    to its subject, and values that are not nullish are published one
    after the other: the observer is handed the value the container
    started with, then the published values, each once and in order. *)
Theorem listener_hears_every_value storage keyPrefix storageKey fallbackState converter
    fuel fuel' fuel'' w subject w1 id vs :
  storageFactory storage keyPrefix storageKey fallbackState converter fuel (with_listeners w)
  = (Ok subject, w1) ->
  Forall (fun v => nullish v = false /\ exists s, stored converter v = Ok s) vs ->
  exists v0 w2 w3,
    current_value subject w1 = Some v0
    /\ BehaviorSubject_subscribe fuel' subject (Listener id) w1 = (Ok (), w2)
    /\ publish_all (S fuel'') subject vs w2 = (Ok (), w3)
    /\ received w3 = (id, v0) :: map (fun v => (id, v)) vs.
Proof.
  intros Hc Hvs.
  pose proof (construct_with_listeners _ _ _ _ _ _ _ _ _ Hc) as [Hb Hr1].
  set (env := closure storage keyPrefix storageKey fallbackState converter subject) in *.
  pose proof Hb as [_ [v0 Hv0]].
  assert (current_value subject w1 = Some v0) as Hcur.
  { unfold current_value. by rewrite Hv0. }
  pose proof (subscribe_listener subject env [] id v0 fuel' _ Hb Hcur) as Hsub.
  pose proof (subscribed_listener subject env [] id v0 _ Hb) as Hb2.
  destruct (publish_all_heard subject env [id] fuel'' vs _ Hb2 Hvs) as (w3 & Hp & Hr3 & _).
  eexists v0, _, w3. split; [done|]. split; [exact Hsub|]. split; [exact Hp|].
  rewrite Hr3. simpl. rewrite Hr1. simpl. f_equal. clear.
  induction vs as [|v vs IH]; [done|]. simpl. by rewrite IH.
Qed.

Lemma listener_hears_every_value_witness :
  exists v0 w2 w3,
    current_value 0 emition_binding.2 = Some v0
    /\ BehaviorSubject_subscribe 2 0 (Listener 7) emition_binding.2 = (Ok (), w2)
    /\ publish_all 1 0 [VStr "value1"; VStr "value2"; VStr "value3"] w2 = (Ok (), w3)
    /\ received w3 = (7, v0) :: map (fun v => (7, v)) [VStr "value1"; VStr "value2"; VStr "value3"].
Proof.
  apply (listener_hears_every_value sessionStorage STORAGE_KEYS_PREFIX "testKey3"
           (VStr "emitionTestValue") None 2 2 0 empty_world 0 emition_binding.2 7
           [VStr "value1"; VStr "value2"; VStr "value3"]); [reflexivity|].
  repeat constructor; eexists; reflexivity.
Defined.

End subscribers.
